(** * Mega-Cube simulator: voxel volume and 3D Life engine

    A shallow embedding of [SimDisplay.h], [SimDisplay.cpp] and the
    [LifeDemo] class of [main.cpp], with the properties of the
    specification stated and settled against it, followed by the code
    around them: the drawing of the automaton ([LifeDemo::update]),
    [Graphics::line], [TwinkelsDemo], [ScrollerDemo::match_char], the
    input handling and voxel loop of [Renderer.cpp], and [map] and
    [random] of [Arduino.h], each with the properties its code shows.

    Integers of the program are modelled as [Z] with their wrap-around
    written out, [float] as IEEE 754 binary32 through the Standard
    Library's [SpecFloat], arrays as lists read and updated by index. *)

From Stdlib Require Import ZArith Lia Bool List SpecFloat.
From stdpp Require Import base tactics option list numbers.

Local Open Scope Z_scope.

(** ** Fixed-width integers *)

Module Int.

Definition wrap_u8 (n : Z) : Z := n mod 256.
Definition wrap_u16 (n : Z) : Z := n mod 65536.
Definition wrap_u32 (n : Z) : Z := n mod 4294967296.

(** Two's complement reading of the low 16 bits. *)
Definition wrap_s16 (n : Z) : Z := (n + 32768) mod 65536 - 32768.

Definition is_u8 (n : Z) : Prop := 0 <= n < 256.
Definition is_s16 (n : Z) : Prop := -32768 <= n <= 32767.

End Int.

(** ** Loops *)

(** [for (i = lo; i < lo + n; i++) body], for a counter that cannot
    overflow (constant bounds in the source). *)
Definition for_range {S : Type} (lo n : Z) (body : Z -> S -> S) (s : S) : S :=
  foldl (fun acc i => body i acc) s (seqZ lo n).

(** [for (int16_t x = lo; x <= hi; x++) body]: the counter wraps at
    32767, so the loop is run on fuel; [None] is fuel exhausted. *)
Fixpoint for_s16 {S : Type} (fuel : nat) (x hi : Z)
    (body : Z -> S -> option S) (s : S) : option S :=
  match fuel with
  | O => None
  | Datatypes.S k =>
      if x <=? hi then
        match body x s with
        | Some s' => for_s16 k (Int.wrap_s16 (x + 1)) hi body s'
        | None => None
        end
      else Some s
  end.

(** ** Single-precision floats *)

Module F32.

Definition f32 : Type := spec_float.

Definition prec : Z := 24.
Definition emax : Z := 128.

Definition add : f32 -> f32 -> f32 := SFadd prec emax.
Definition sub : f32 -> f32 -> f32 := SFsub prec emax.
Definition mul : f32 -> f32 -> f32 := SFmul prec emax.
Definition div : f32 -> f32 -> f32 := SFdiv prec emax.
Definition sqrt : f32 -> f32 := SFsqrt prec emax.
Definition ltb : f32 -> f32 -> bool := SFltb.

(** The float nearest to [m * 2^e] (ties to even). *)
Definition of_scaled (m e : Z) : f32 := binary_normalize prec emax m e false.

(** Integer to float conversion. *)
Definition of_Z (n : Z) : f32 := of_scaled n 0.

(** Truncation toward zero of a finite float. *)
Definition trunc (x : f32) : option Z :=
  match x with
  | S754_zero _ => Some 0
  | S754_finite s m e =>
      let a := if 0 <=? e then Z.shiftl (Z.pos m) e else Z.shiftr (Z.pos m) (- e) in
      Some (if s then - a else a)
  | _ => None
  end.

(** Float to 32-bit integer as the simulator's desktop target converts
    ([cvttss2si]): truncation, and the "integer indefinite" value
    [-2^31] for NaN, infinities and values out of range. *)
Definition to_int32 (x : f32) : Z :=
  match trunc x with
  | Some n => if (-2147483648 <=? n) && (n <=? 2147483647) then n else -2147483648
  | None => -2147483648
  end.

(** [(int16_t)x]: C++ leaves the conversion undefined when the truncated
    value does not fit; the generated code converts to 32 bits and keeps
    the low half, which is what [voxel(Vector3)] relies on (every
    in-volume call converts a value near 32776). *)
Definition to_int16 (x : f32) : Z := Int.wrap_s16 (to_int32 x).

(** [(uint8_t)x], same path, low byte. *)
Definition to_uint8 (x : f32) : Z := Int.wrap_u8 (to_int32 x).

(** The rational value [num / den] of a finite float, as a pair. *)
Definition to_ratio (x : f32) : option (Z * Z) :=
  match x with
  | S754_zero _ => Some (0, 1)
  | S754_finite s m e =>
      let n := if s then Z.neg m else Z.pos m in
      Some (if 0 <=? e then (n * 2 ^ e, 1) else (n, 2 ^ (- e)))
  | _ => None
  end.

End F32.

(** ** Colors *)

Module Color.

(** Modelled from the spec: the [Color] class of [power/Color.h] is not
    part of the simulator sources. Three 8-bit channels; [BLACK] is the
    all-zero value (what [memset] to 0 leaves in a cell). *)
Record t : Type := mk { r : Z; g : Z; b : Z }.

Definition BLACK : t := mk 0 0 0.

Definition wf (c : t) : Prop := Int.is_u8 (r c) /\ Int.is_u8 (g c) /\ Int.is_u8 (b c).

Definition eqb (c d : t) : bool :=
  (r c =? r d) && (g c =? g d) && (b c =? b d).

(** Modelled from the spec: [blend(weight, other)] "linearly interpolates
    each channel toward other using an 8-bit weight" (0 keeps the
    channel, 255 gives [other]'s). *)
Definition blend8 (w a o : Z) : Z := (a * (255 - w) + o * w) / 255.

Definition blend (w : Z) (c other : t) : t :=
  mk (blend8 w (r c) (r other)) (blend8 w (g c) (g other)) (blend8 w (b c) (b other)).

(** Modelled from the spec: [scale(factor)] "multiplies all channels by
    an 8-bit factor (over 255) and clamps"; [scaled] is the copying
    variant used by [radiate]. *)
Definition scale8 (f a : Z) : Z := Z.min 255 (a * f / 255).

Definition scaled (c : t) (f : Z) : t :=
  mk (scale8 f (r c)) (scale8 f (g c)) (scale8 f (b c)).

(** Modelled from the spec: [maximize(other)] "replaces each channel with
    the larger of itself and other". *)
Definition maximize (c other : t) : t :=
  mk (Z.max (r c) (r other)) (Z.max (g c) (g other)) (Z.max (b c) (b other)).

(** Modelled from the spec: [operator+=] "accumulates additively
    (saturating)". *)
Definition add (c other : t) : t :=
  mk (Z.min 255 (r c + r other)) (Z.min 255 (g c + g other)) (Z.min 255 (b c + b other)).

(** The three bytes a cell contributes to the raw frame. *)
Definition bytes (c : t) : list Z := [r c; g c; b c].

End Color.

#[global] Instance color_inhabited : Inhabited Color.t := populate Color.BLACK.

(** ** Vectors *)

Module Vector3.

(** Modelled from the spec: the [Vector3] class of [power/Math3D.h] is
    not part of the simulator sources. "Three floating-point components";
    addition, subtraction and magnitude. *)
Record t : Type := mk { x : F32.f32; y : F32.f32; z : F32.f32 }.

Definition add (a b : t) : t :=
  mk (F32.add (x a) (x b)) (F32.add (y a) (y b)) (F32.add (z a) (z b)).

Definition sub (a b : t) : t :=
  mk (F32.sub (x a) (x b)) (F32.sub (y a) (y b)) (F32.sub (z a) (z b)).

Definition magnitude (a : t) : F32.f32 :=
  F32.sqrt (F32.add (F32.add (F32.mul (x a) (x a)) (F32.mul (y a) (y a)))
                    (F32.mul (z a) (z a))).

(** [Vector3(x, y, z)] from integer coordinates. *)
Definition of_ints (i j k : Z) : t := mk (F32.of_Z i) (F32.of_Z j) (F32.of_Z k).

End Vector3.

(** ** The voxel volume ([SimDisplay.h], [SimDisplay.cpp]) *)

Module Display.

(** [Color cube[2][16][16][16]] as two buffers of 4096 cells in row-major
    order, [uint32_t cubeBuffer], [uint8_t rawBuffer[16][16][16][3]] as
    12288 bytes, and [simConfig.animation.motionBlur]. *)
Record t : Type := mk {
  cube : list (list Color.t);
  cubeBuffer : Z;
  rawBuffer : list Z;
  motionBlur : Z
}.

(** Cells per buffer, and bytes of the raw frame. *)
Definition ncells : nat := Z.to_nat 4096.
Definition nbytes : nat := Z.to_nat 12288.

Definition black_buffer : list Color.t := replicate ncells Color.BLACK.

(** Offset of [[x][y][z]] inside a buffer. *)
Definition index (x y z : Z) : nat := Z.to_nat ((x * 16 + y) * 16 + z).

Definition buffer (st : t) (buf : Z) : list Color.t := cube st !!! Z.to_nat buf.

(** [cube[buf][x][y][z]] *)
Definition get (st : t) (buf x y z : Z) : Color.t := buffer st buf !!! index x y z.

Definition with_cube (st : t) (cb : list (list Color.t)) : t :=
  mk cb (cubeBuffer st) (rawBuffer st) (motionBlur st).

(** [cube[buf][x][y][z] = c] *)
Definition set (st : t) (buf x y z : Z) (c : Color.t) : t :=
  with_cube st (alter (fun l => <[index x y z := c]> l) (Z.to_nat buf) (cube st)).

Definition wf (st : t) : Prop :=
  (cubeBuffer st = 0 \/ cubeBuffer st = 1) /\
  Z.of_nat (length (cube st)) = 2 /\
  (forall l, l ∈ cube st -> Z.of_nat (length l) = 4096) /\
  Z.of_nat (length (rawBuffer st)) = 12288 /\
  Int.is_u8 (motionBlur st).

(** Static initialisation: everything zero, motion blur 64. *)
Definition initial : t :=
  mk [black_buffer; black_buffer] 0 (replicate nbytes 0) 64.

(** [Display::clear]: [memset(cube[cubeBuffer], 0, sizeof(cube[cubeBuffer]))]. *)
Definition clear (st : t) : t :=
  with_cube st (<[Z.to_nat (cubeBuffer st) := black_buffer]> (cube st)).

(** [Display::begin] *)
Definition begin (st : t) : t :=
  let st1 := clear st in
  mk (cube st1) 0 (rawBuffer st1) (motionBlur st1).

(** One cell of the blend loop of [Display::update]. *)
Definition update_cell (blur prev : Z) (x y z : Z) (st : t) : t :=
  let c := Color.blend blur (get st (cubeBuffer st) x y z) (get st prev x y z) in
  let i := (index x y z * 3)%nat in
  mk (cube st) (cubeBuffer st)
     (<[(i + 2)%nat := Color.b c]> (<[(i + 1)%nat := Color.g c]> (<[i := Color.r c]> (rawBuffer st))))
     (motionBlur st).

(** [Display::update] *)
Definition update (st : t) : t :=
  let blur := motionBlur st in
  let prev := Int.wrap_u32 (1 - cubeBuffer st) in
  let st1 :=
    for_range 0 16 (fun x =>
      for_range 0 16 (fun y =>
        for_range 0 16 (fun z => update_cell blur prev x y z))) st in
  clear (mk (cube st1) (Int.wrap_u32 (1 - cubeBuffer st1)) (rawBuffer st1) (motionBlur st1)).

(** [Display::getRawBuffer], read as cell [(x, y, z)] of the raw frame. *)
Definition raw_cell (st : t) (x y z : Z) : list Z :=
  let i := (index x y z * 3)%nat in
  [rawBuffer st !!! i; rawBuffer st !!! (i + 1)%nat; rawBuffer st !!! (i + 2)%nat].

Definition with_blur (st : t) (w : Z) : t :=
  mk (cube st) (cubeBuffer st) (rawBuffer st) w.

(** Executable form of [wf]. *)
Definition wfb (st : t) : bool :=
  ((cubeBuffer st =? 0) || (cubeBuffer st =? 1)) &&
  (Z.of_nat (length (cube st)) =? 2) &&
  forallb (fun l => Z.of_nat (length l) =? 4096) (cube st) &&
  (Z.of_nat (length (rawBuffer st)) =? 12288) &&
  (0 <=? motionBlur st) && (motionBlur st <? 256).

(** *** Writing primitives *)

(** [voxel(uint8_t x, uint8_t y, uint8_t z, const Color&)] *)
Definition voxel (x y z : Z) (c : Color.t) (st : t) : t :=
  if Z.land (Z.lor (Z.lor x y) z) 0xF0 =? 0
  then set st (cubeBuffer st) x y z c
  else st.

Definition CX : F32.f32 := F32.of_scaled 15 (-1).
Definition CY : F32.f32 := F32.of_scaled 15 (-1).
Definition CZ : F32.f32 := F32.of_scaled 15 (-1).

(** The literal [32768.5f]. *)
Definition c32768_5 : F32.f32 := F32.of_scaled 65537 (-1).

(** [int16_t x = (int16_t)(v.x + 32768.5f + CX) - 32768] *)
Definition lattice (t c : F32.f32) : Z :=
  Int.wrap_s16 (F32.to_int16 (F32.add (F32.add t c32768_5) c) - 32768).

(** [((x | y | z) & 0xFFF0) == 0] on [int16_t] coordinates. *)
Definition in_volume (x y z : Z) : bool :=
  Z.land (Z.lor (Z.lor x y) z) 0xFFF0 =? 0.

(** [voxel(const Vector3&, const Color&)] *)
Definition voxel_v (v : Vector3.t) (c : Color.t) (st : t) : t :=
  let x := lattice (Vector3.x v) CX in
  let y := lattice (Vector3.y v) CY in
  let z := lattice (Vector3.z v) CZ in
  if in_volume x y z then set st (cubeBuffer st) x y z c else st.

(** [voxel_add(const Vector3&, const Color&)] *)
Definition voxel_add (v : Vector3.t) (c : Color.t) (st : t) : t :=
  let x := lattice (Vector3.x v) CX in
  let y := lattice (Vector3.y v) CY in
  let z := lattice (Vector3.z v) CZ in
  if in_volume x y z
  then set st (cubeBuffer st) x y z (Color.add (get st (cubeBuffer st) x y z) c)
  else st.

(** [255 * (1 - (radius / r))] *)
Definition falloff_linear (radius r : F32.f32) : F32.f32 :=
  F32.mul (F32.of_Z 255) (F32.sub (F32.of_Z 1) (F32.div radius r)).

(** [255 / (1 + (radius * radius * radius * radius * radius))] *)
Definition falloff_5 (radius r : F32.f32) : F32.f32 :=
  F32.div (F32.of_Z 255)
    (F32.add (F32.of_Z 1)
       (F32.mul (F32.mul (F32.mul (F32.mul radius radius) radius) radius) radius)).

(** [(Vector3(x, y, z) - v).magnitude()] *)
Definition distance (v : Vector3.t) (x y z : Z) : F32.f32 :=
  Vector3.magnitude (Vector3.sub (Vector3.of_ints x y z) v).

(** The corners [x1, x2, y1, y2, z1, z2] of the swept box. *)
Definition box (v : Vector3.t) (r : F32.f32) : Z * Z * Z * Z * Z * Z :=
  (F32.to_int16 (F32.add (F32.sub (Vector3.x v) r) (F32.of_Z 1)),
   F32.to_int16 (F32.add (Vector3.x v) r),
   F32.to_int16 (F32.add (F32.sub (Vector3.y v) r) (F32.of_Z 1)),
   F32.to_int16 (F32.add (Vector3.y v) r),
   F32.to_int16 (F32.add (F32.sub (Vector3.z v) r) (F32.of_Z 1)),
   F32.to_int16 (F32.add (Vector3.z v) r)).

(** The innermost statement of [radiate] and [radiate5], which differ
    only in the falloff expression handed to [scaled]. *)
Definition radiate_cell (falloff : F32.f32 -> F32.f32 -> F32.f32)
    (v : Vector3.t) (c : Color.t) (r : F32.f32) (x y z : Z) (st : t) : t :=
  if in_volume x y z then
    let radius := distance v x y z in
    if F32.ltb radius r then
      set st (cubeBuffer st) x y z
        (Color.maximize (get st (cubeBuffer st) x y z)
           (Color.scaled c (F32.to_uint8 (falloff radius r))))
    else st
  else st.

Definition sweep (falloff : F32.f32 -> F32.f32 -> F32.f32) (fuel : nat)
    (v0 : Vector3.t) (c : Color.t) (r : F32.f32) (st : t) : option t :=
  let v := Vector3.add v0 (Vector3.mk CX CY CZ) in
  let '(x1, x2, y1, y2, z1, z2) := box v r in
  for_s16 fuel x1 x2 (fun x =>
    for_s16 fuel y1 y2 (fun y =>
      for_s16 fuel z1 z2 (fun z s => Some (radiate_cell falloff v c r x y z s)))) st.

(** [radiate(const Vector3&, const Color&, const float)] *)
Definition radiate : nat -> Vector3.t -> Color.t -> F32.f32 -> t -> option t :=
  sweep falloff_linear.

(** [radiate5(const Vector3&, const Color&, const float)] *)
Definition radiate5 : nat -> Vector3.t -> Color.t -> F32.f32 -> t -> option t :=
  sweep falloff_5.

End Display.

(** ** The cellular automaton ([LifeDemo] in [main.cpp]) *)

Module Life.

Inductive rule_t : Type := DIE | LIVE | BIRTH.

#[global] Instance rule_inhabited : Inhabited rule_t := populate DIE.

Definition rule_eqb (a b : rule_t) : bool :=
  match a, b with
  | DIE, DIE | LIVE, LIVE | BIRTH, BIRTH => true
  | _, _ => false
  end.

(** [uint16_t cells_g1[16][16]], [cells_g2], [rule_t rules[27]],
    [uint32_t hash_list[256]], [uint32_t hash_nr], [uint16_t living],
    [uint8_t sequence]. The 16x16 arrays are row-major lists. *)
Record t : Type := mk {
  cells_g1 : list Z;
  cells_g2 : list Z;
  rules : list rule_t;
  hash_list : list Z;
  hash_nr : Z;
  living : Z;
  sequence : Z
}.

Definition wf (st : t) : Prop :=
  Z.of_nat (length (cells_g1 st)) = 256 /\
  Z.of_nat (length (cells_g2 st)) = 256 /\
  Z.of_nat (length (rules st)) = 27 /\
  Z.of_nat (length (hash_list st)) = 256 /\
  0 <= hash_nr st < 4294967296 /\
  0 <= living st < 65536 /\
  0 <= sequence st < 256.

(** What the pseudo-random sources deliver during one reseed: the value
    of [rand()], and for the [i]-th placed cell the lattice point
    [(x, y, z)] that the [(uint16_t)roundf(7.5f + r * ...)] expressions
    of [game_randomize] produce from [noise.nextRandom]. *)
Record env : Type := mk_env {
  rand : Z;
  sample : Z -> Z * Z * Z
}.

Definition slot (x y : Z) : nat := Z.to_nat (x * 16 + y).

(** [g[x][y]] *)
Definition at2 (g : list Z) (x y : Z) : Z := g !!! slot x y.

Definition set_g1 (st : t) (x y v : Z) : t :=
  mk (<[slot x y := v]> (cells_g1 st)) (cells_g2 st) (rules st) (hash_list st)
     (hash_nr st) (living st) (sequence st).

Definition set_g2 (st : t) (x y v : Z) : t :=
  mk (cells_g1 st) (<[slot x y := v]> (cells_g2 st)) (rules st) (hash_list st)
     (hash_nr st) (living st) (sequence st).

(** [rules[i] = v] *)
Definition set_rule (i : Z) (v : rule_t) (st : t) : t :=
  mk (cells_g1 st) (cells_g2 st) (<[Z.to_nat i := v]> (rules st)) (hash_list st)
     (hash_nr st) (living st) (sequence st).

Definition with_living (st : t) (n : Z) : t :=
  mk (cells_g1 st) (cells_g2 st) (rules st) (hash_list st) (hash_nr st) n (sequence st).

Definition with_sequence (st : t) (n : Z) : t :=
  mk (cells_g1 st) (cells_g2 st) (rules st) (hash_list st) (hash_nr st) (living st) n.

(** [game_rule_reset] *)
Definition game_rule_reset (st : t) : t :=
  for_range 0 27 (fun i => set_rule i DIE) st.

(** [game_reset] *)
Definition game_reset (st : t) : t :=
  let st0 := mk (cells_g1 st) (cells_g2 st) (rules st) (hash_list st) 0 0 (sequence st) in
  let st1 :=
    for_range 0 16 (fun x =>
      for_range 0 16 (fun y s => set_g2 (set_g1 s x y 0) x y 0)) st0 in
  game_rule_reset st1.

(** One placement of [game_randomize]. *)
Definition place (p : Z * Z * Z) (st : t) : t :=
  let '(x, y, z) := p in
  if (x <? 16) && (y <? 16) && (z <? 16)
  then set_g2 st x y (Int.wrap_u16 (Z.lor (at2 (cells_g2 st) x y) (Z.shiftl 1 z)))
  else st.

(** [game_randomize(amount, rad)]; the random radius is part of what
    [sample] abstracts. *)
Definition game_randomize (amount : Z) (sample : Z -> Z * Z * Z) (st : t) : t :=
  let st1 := for_range 0 16 (fun x => for_range 0 16 (fun y s => set_g2 s x y 0)) st in
  let st2 := for_range 0 amount (fun i => place (sample i)) st1 in
  with_living st2 amount.

(** [count_neighbours(x_, y_, z_)] *)
Definition count_neighbours (st : t) (x_ y_ z_ : Z) : Z :=
  for_range (x_ - 1) 3 (fun x =>
    for_range (y_ - 1) 3 (fun y neighbours =>
      let cells := at2 (cells_g1 st) (Z.land x 0xF) (Z.land y 0xF) in
      for_range (z_ - 1) 3 (fun z neighbours =>
        let cell := Int.wrap_u16 (Z.land cells (Z.shiftl 1 (Z.land z 0xF))) in
        if negb ((x =? x_) && (y =? y_) && (z =? z_)) && negb (cell =? 0)
        then Int.wrap_u16 (neighbours + 1)
        else neighbours) neighbours)) 0.

(** [rules[count]] *)
Definition rule_at (st : t) (count : Z) : rule_t := rules st !!! Z.to_nat count.

(** The body of the [z] loop of [game_next_generation], on the locals
    [(cells, new_living, hash)]; [st] already holds the copied [cells_g1]. *)
Definition cell_step (st : t) (x y z : Z) (acc : Z * Z * Z) : Z * Z * Z :=
  let '(cells, new_living, hash) := acc in
  let count := count_neighbours st x y z in
  let hash := Int.wrap_u32 (hash + count * (x * 3 + y * 5 + z * 7)) in
  let cells :=
    match rule_at st count with
    | DIE => Int.wrap_u16 (Z.land cells (Z.lnot (Z.shiftl 1 z)))
    | BIRTH => Int.wrap_u16 (Z.lor cells (Z.shiftl 1 z))
    | LIVE => cells
    end in
  let new_living :=
    if Z.land cells (Z.shiftl 1 z) =? 0 then new_living else Int.wrap_u16 (new_living + 1) in
  (cells, new_living, hash).

(** The body of the [y] loop, on [(cells_g2, new_living, hash)]. *)
Definition column_step (st : t) (x y : Z) (acc : list Z * Z * Z) : list Z * Z * Z :=
  let '(g2, new_living, hash) := acc in
  let cells := at2 (cells_g1 st) x y in
  let '(cells', new_living', hash') :=
    for_range 0 16 (cell_step st x y) (cells, new_living, hash) in
  (<[slot x y := cells']> g2, new_living', hash').

(** [game_next_generation], returning the hash and the new state. *)
Definition game_next_generation (st : t) : Z * t :=
  let st0 := mk (cells_g2 st) (cells_g2 st) (rules st) (hash_list st)
                (hash_nr st) (living st) (sequence st) in
  let '(g2, new_living, hash) :=
    for_range 0 16 (fun x => for_range 0 16 (column_step st0 x)) (cells_g2 st0, 0, 0) in
  (hash, mk (cells_g1 st0) g2 (rules st0) (hash_list st0) (hash_nr st0) new_living (sequence st0)).

(** The scan of [game_progress]:
    [for (uint8_t i = 0; i < hash_nr && i <= 255; i++)
       if (hash_list[i] == hash) matches++;]
    as a loop on fuel over the 8-bit locals [i] and [matches]. *)
Fixpoint scan (fuel : nat) (st : t) (hash i matches : Z) : option Z :=
  match fuel with
  | O => None
  | S k =>
      if (i <? hash_nr st) && (i <=? 255) then
        scan k st hash (Int.wrap_u8 (i + 1))
          (if (hash_list st !!! Z.to_nat i) =? hash
           then Int.wrap_u8 (matches + 1) else matches)
      else Some matches
  end.

(** The rule presets of the [switch (sequence++)]. *)
Definition preset (e : env) (old : Z) (st : t) : t :=
  if old =? 0 then
    game_randomize (Int.wrap_u16 (200 + rand e mod 200)) (sample e)
      (set_rule 5 BIRTH (set_rule 4 LIVE st))
  else if old =? 1 then
    game_randomize (Int.wrap_u16 (200 + rand e mod 200)) (sample e)
      (set_rule 6 BIRTH (set_rule 7 LIVE (set_rule 5 LIVE st)))
  else if old =? 2 then
    game_randomize (Int.wrap_u16 (200 + rand e mod 200)) (sample e)
      (set_rule 6 LIVE (set_rule 5 BIRTH st))
  else
    game_randomize 25 (sample e)
      (set_rule 8 LIVE (set_rule 7 LIVE (set_rule 6 LIVE (set_rule 5 BIRTH
         (with_sequence st 0))))).

(** [hash_list[hash_nr++ & 0xFF] = hash] *)
Definition record_hash (hash : Z) (st : t) : t :=
  mk (cells_g1 st) (cells_g2 st) (rules st)
     (<[Z.to_nat (Z.land (hash_nr st) 0xFF) := hash]> (hash_list st))
     (Int.wrap_u32 (hash_nr st + 1)) (living st) (sequence st).

(** [game_progress] *)
Definition game_progress (fuel : nat) (e : env) (st : t) : option t :=
  let '(hash, st1) := game_next_generation st in
  if living st1 =? 0 then
    let st2 := game_reset st1 in
    let old := sequence st2 in
    Some (preset e old (with_sequence st2 (Int.wrap_u8 (old + 1))))
  else
    match scan fuel st1 hash 0 0 with
    | None => None
    | Some matches =>
        if (6 <=? matches) || (500 <=? living st1)
        then Some (snd (game_next_generation (game_rule_reset st1)))
        else Some (record_hash hash st1)
    end.

(** [init] *)
Definition init (st : t) : t := game_reset st.

End Life.

(** * Notions used by the statements *)

Section DisplayNotions.
Import Display.

Definition in_lattice (x y z : Z) : Prop :=
  0 <= x < 16 /\ 0 <= y < 16 /\ 0 <= z < 16.

(** The blend loop with the three nested counters replaced by the
    row-major offset [j] of the cell. *)
Definition update_flat (blur prev : Z) (j : Z) (st : t) : t :=
  let c := Color.blend blur (buffer st (cubeBuffer st) !!! Z.to_nat j)
                            (buffer st prev !!! Z.to_nat j) in
  let i := (Z.to_nat j * 3)%nat in
  mk (cube st) (cubeBuffer st)
     (<[(i + 2)%nat := Color.b c]> (<[(i + 1)%nat := Color.g c]> (<[i := Color.r c]> (rawBuffer st))))
     (motionBlur st).

(** What the blend loop has written after [k] cells. *)
Definition blended (st : t) (j : Z) : Color.t :=
  Color.blend (motionBlur st)
    (buffer st (cubeBuffer st) !!! Z.to_nat j)
    (buffer st (1 - cubeBuffer st) !!! Z.to_nat j).

Definition blend_inv (st : t) (k : Z) (u : t) : Prop :=
  cube u = cube st /\ cubeBuffer u = cubeBuffer st /\
  motionBlur u = motionBlur st /\
  length (rawBuffer u) = length (rawBuffer st) /\
  forall j, 0 <= j < k ->
    rawBuffer u !!! (Z.to_nat j * 3)%nat = Color.r (blended st j) /\
    rawBuffer u !!! (Z.to_nat j * 3 + 1)%nat = Color.g (blended st j) /\
    rawBuffer u !!! (Z.to_nat j * 3 + 2)%nat = Color.b (blended st j).

(** The scenario of the specification: an empty volume, one red voxel at
    the world origin. *)
Definition origin : Vector3.t := Vector3.mk (F32.of_Z 0) (F32.of_Z 0) (F32.of_Z 0).
Definition red : Color.t := Color.mk 255 0 0.
Definition one_red_voxel : t := voxel_v origin red (begin initial).

(** The sweep of [radiate] with its three loops run over plain ranges. *)
Definition sweep_pure (falloff : F32.f32 -> F32.f32 -> F32.f32)
    (v : Vector3.t) (c : Color.t) (r : F32.f32) (st : t) : t :=
  let '(x1, x2, y1, y2, z1, z2) := box v r in
  for_range x1 (x2 - x1 + 1) (fun x =>
    for_range y1 (y2 - y1 + 1) (fun y =>
      for_range z1 (z2 - z1 + 1) (fun z => radiate_cell falloff v c r x y z))) st.

(** Cell [(x, y, z)] is strictly inside the sphere, by the distance the
    code computes. *)
Definition lit (v : Vector3.t) (r : F32.f32) (k : Z * Z * Z) : bool :=
  let '(x, y, z) := k in F32.ltb (distance v x y z) r.

(** What a lit cell becomes. *)
Definition glow (falloff : F32.f32 -> F32.f32 -> F32.f32)
    (v : Vector3.t) (c : Color.t) (r : F32.f32) (k : Z * Z * Z) (old : Color.t) : Color.t :=
  let '(x, y, z) := k in
  Color.maximize old (Color.scaled c (F32.to_uint8 (falloff (distance v x y z) r))).

Definition in_box (bx : Z * Z * Z * Z * Z * Z) (k : Z * Z * Z) : bool :=
  let '(x1, x2, y1, y2, z1, z2) := bx in
  let '(x, y, z) := k in
  ((x1 <=? x) && (x <=? x2)) && ((y1 <=? y) && (y <=? y2)) && ((z1 <=? z) && (z <=? z2)).

Definition get3 (buf : Z) (k : Z * Z * Z) (st : t) : Color.t :=
  let '(x, y, z) := k in get st buf x y z.

Definition valid3 (k : Z * Z * Z) : Prop :=
  let '(x, y, z) := k in in_lattice x y z.

(** What none of the writing primitives may change. *)
Definition frame_inv (st : t) (u : t) : Prop :=
  wf u /\ cubeBuffer u = cubeBuffer st /\ rawBuffer u = rawBuffer st /\
  motionBlur u = motionBlur st /\
  buffer u (1 - cubeBuffer st) = buffer st (1 - cubeBuffer st).

Definition within (lo n a : Z) : bool := (lo <=? a) && (a <? lo + n).

(** Fuel that lets the three loops finish. *)
Definition enough_fuel (bx : Z * Z * Z * Z * Z * Z) (fuel : nat) : Prop :=
  let '(x1, x2, y1, y2, z1, z2) := bx in
  (x2 < 32767 /\ y2 < 32767 /\ z2 < 32767) /\
  (Z.to_nat (x2 - x1 + 1) < fuel)%nat /\
  (Z.to_nat (y2 - y1 + 1) < fuel)%nat /\
  (Z.to_nat (z2 - z1 + 1) < fuel)%nat.

(** The reading of "the minimal integer box containing the sphere": every
    face of the swept box holds at least one lit point. *)
Definition face_lit (v : Vector3.t) (r : F32.f32) (pt : Z -> Z -> Z * Z * Z)
    (a1 a2 b1 b2 : Z) : bool :=
  existsb (fun a => existsb (fun b => lit v r (pt a b)) (seqZ b1 (b2 - b1 + 1)))
          (seqZ a1 (a2 - a1 + 1)).

Definition minimal_box (v : Vector3.t) (r : F32.f32) : bool :=
  let '(x1, x2, y1, y2, z1, z2) := box v r in
  face_lit v r (fun y z => (x1, y, z)) y1 y2 z1 z2 &&
  face_lit v r (fun y z => (x2, y, z)) y1 y2 z1 z2 &&
  face_lit v r (fun x z => (x, y1, z)) x1 x2 z1 z2 &&
  face_lit v r (fun x z => (x, y2, z)) x1 x2 z1 z2 &&
  face_lit v r (fun x y => (x, y, z1)) x1 x2 y1 y2 &&
  face_lit v r (fun x y => (x, y, z2)) x1 x2 y1 y2.

(** The reading of "an intensity equal to C * 255/(1 + d^5)", channel by
    channel, saturating at 255. *)
Definition sat8 (x : F32.f32) : Z := Z.min 255 (Z.max 0 (F32.to_int32 x)).

Definition claimed_intensity5 (c : Color.t) (d : F32.f32) : Color.t :=
  let k := F32.div (F32.of_Z 255)
             (F32.add (F32.of_Z 1) (F32.mul (F32.mul (F32.mul (F32.mul d d) d) d) d)) in
  Color.mk (sat8 (F32.mul (F32.of_Z (Color.r c)) k))
           (sat8 (F32.mul (F32.of_Z (Color.g c)) k))
           (sat8 (F32.mul (F32.of_Z (Color.b c)) k)).

(** A centre on the lattice point [(8, 8, 8)], radii 2 and 40000. *)
Definition half3 : Vector3.t :=
  Vector3.mk (F32.of_scaled 1 (-1)) (F32.of_scaled 1 (-1)) (F32.of_scaled 1 (-1)).
Definition centre8 : Vector3.t := Vector3.add half3 (Vector3.mk CX CY CZ).
Definition amber : Color.t := Color.mk 10 20 30.

(** What a client may call between two frame advances. *)
Inductive draw : Type :=
  | Voxel (x y z : Z) (c : Color.t)
  | VoxelV (v : Vector3.t) (c : Color.t)
  | VoxelAdd (v : Vector3.t) (c : Color.t)
  | Radiate (fuel : nat) (v : Vector3.t) (c : Color.t) (r : F32.f32)
  | Radiate5 (fuel : nat) (v : Vector3.t) (c : Color.t) (r : F32.f32).

Definition draw_one (d : draw) (st : t) : option t :=
  match d with
  | Voxel x y z c => Some (voxel x y z c st)
  | VoxelV v c => Some (voxel_v v c st)
  | VoxelAdd v c => Some (voxel_add v c st)
  | Radiate fuel v c r => radiate fuel v c r st
  | Radiate5 fuel v c r => radiate5 fuel v c r st
  end.

Fixpoint draw_all (ds : list draw) (st : t) : option t :=
  match ds with
  | [] => Some st
  | d :: ds' =>
      match draw_one d st with
      | Some st' => draw_all ds' st'
      | None => None
      end
  end.

(** The reading of "each component plus the half-width offset 7.5,
    rounded to the nearest integer" on the exact value of the float
    (halves upward). *)
Definition nearest_cell (t : F32.f32) : option Z :=
  match F32.to_ratio t with
  | Some (n, d) => Some ((2 * n + 16 * d) / (2 * d))
  | None => None
  end.

(** [P lo && P (lo + 1) && ...], [n] times. *)
Fixpoint all_from (P : Z -> bool) (lo : Z) (n : nat) : bool :=
  match n with
  | O => true
  | S k => P lo && all_from P (lo + 1) k
  end.

(** On the grid of 1/256 the code rounds to the nearest cell. *)
Definition grid_check (k : Z) : bool :=
  (lattice (F32.of_scaled k (-8)) CX =? (k + 2048) / 256) &&
  match nearest_cell (F32.of_scaled k (-8)) with
  | Some n => n =? (k + 2048) / 256
  | None => false
  end.

End DisplayNotions.

Section LifeNotions.
Import Life.

(** The 3x3x3 block of offsets in the order the loops visit it, and the
    26 of them that are not the cell itself. *)
Definition block : list (Z * Z * Z) :=
  dx ← [-1; 0; 1]; dy ← [-1; 0; 1]; dz ← [-1; 0; 1]; [(dx, dy, dz)].

Definition is_centre (d : Z * Z * Z) : bool :=
  (d.1.1 =? 0) && (d.1.2 =? 0) && (d.2 =? 0).

Definition neighbourhood : list (Z * Z * Z) :=
  List.filter (fun d => negb (is_centre d)) block.

(** Cell [(x, y, z)] of a generation, coordinates taken modulo 16. *)
Definition alive (g : list Z) (x y z : Z) : bool :=
  Z.testbit (at2 g (x mod 16) (y mod 16)) (z mod 16).

(** The count as the specification words it: the live cells among the
    26 neighbours on the torus. *)
Definition neighbours_spec (g : list Z) (x y z : Z) : Z :=
  Z.of_nat (length (List.filter
    (fun d => alive g (x + d.1.1) (y + d.1.2) (z + d.2)) neighbourhood)).

(** [neighbours++] under a condition. *)
Definition bump (b : bool) (n : Z) : Z := if b then Int.wrap_u16 (n + 1) else n.

(** A grid whose only live cell is the corner [(15, 15, 15)]. *)
Definition corner_grid : Life.t :=
  Life.mk (<[Z.to_nat 255 := 32768]> (replicate (Z.to_nat 256) 0)) (replicate (Z.to_nat 256) 0)
          (replicate (Z.to_nat 27) DIE) (replicate (Z.to_nat 256) 0) 0 1 0.

(** The two grid loops of [game_reset], by row-major offset. *)
Definition clear_both (j : Z) (st : t) : t :=
  mk (<[Z.to_nat j := 0]> (cells_g1 st)) (<[Z.to_nat j := 0]> (cells_g2 st))
     (rules st) (hash_list st) (hash_nr st) (living st) (sequence st).

Definition clear_g2 (j : Z) (st : t) : t :=
  mk (cells_g1 st) (<[Z.to_nat j := 0]> (cells_g2 st))
     (rules st) (hash_list st) (hash_nr st) (living st) (sequence st).

Definition zero_grid : list Z := replicate (Z.to_nat 256) 0.
Definition all_die : list rule_t := replicate (Z.to_nat 27) DIE.

(** A sampled point, read as [uint16_t] coordinates. *)
Definition sample_u16 (sample : Z -> Z * Z * Z) (amount : Z) : Prop :=
  forall i, 0 <= i < amount ->
    0 <= (sample i).1.1 /\ 0 <= (sample i).1.2 /\ 0 <= (sample i).2.

Definition same_point (p : Z * Z * Z) (x y z : Z) : bool :=
  (p.1.1 =? x) && (p.1.2 =? y) && (p.2 =? z).

(** What the loops of [game_next_generation] maintain on their locals. *)
Definition gen_inv (acc : list Z * Z * Z) : Prop :=
  Z.of_nat (length acc.1.1) = 256 /\ 0 <= acc.1.2 < 65536 /\ 0 <= acc.2 < 4294967296.

Definition cell_inv (acc : Z * Z * Z) : Prop :=
  0 <= acc.1.2 < 65536 /\ 0 <= acc.2 < 4294967296.

(** The four rule tables of the rotation ("Life 4555", "5766", "5655",
    "5855" in the source), by the value of [sequence] before the reseed. *)
Definition preset_rules (k : Z) : list rule_t :=
  if k =? 0 then <[5%nat := BIRTH]> (<[4%nat := LIVE]> all_die)
  else if k =? 1 then <[6%nat := BIRTH]> (<[7%nat := LIVE]> (<[5%nat := LIVE]> all_die))
  else if k =? 2 then <[6%nat := LIVE]> (<[5%nat := BIRTH]> all_die)
  else <[8%nat := LIVE]> (<[7%nat := LIVE]> (<[6%nat := LIVE]> (<[5%nat := BIRTH]> all_die))).

Definition next_sequence (k : Z) : Z := if k <? 3 then k + 1 else 0.

Definition preset_amount (e : env) (k : Z) : Z :=
  if k <? 3 then 200 + rand e mod 200 else 25.

(** One live cell in the middle of the grid, under the all-die table. *)
Definition lonely_cell : Life.t :=
  Life.mk zero_grid (<[Z.to_nat 136 := 256]> zero_grid) all_die zero_grid 0 1 0.

Definition centre_env : Life.env := Life.mk_env 0 (fun _ => (8, 8, 8)).

Definition life_wfb (st : Life.t) : bool :=
  (Z.of_nat (length (cells_g1 st)) =? 256) && (Z.of_nat (length (cells_g2 st)) =? 256) &&
  (Z.of_nat (length (rules st)) =? 27) && (Z.of_nat (length (hash_list st)) =? 256) &&
  (0 <=? hash_nr st) && (hash_nr st <? 4294967296) &&
  (0 <=? living st) && (living st <? 65536) &&
  (0 <=? sequence st) && (sequence st <? 256).

(** The hashes the scan compares with, and how many of them match. *)
Definition recorded (st : t) : list Z := take (Z.to_nat (hash_nr st)) (hash_list st).

Definition count_matches (hash : Z) (l : list Z) : Z :=
  Z.of_nat (length (List.filter (fun h => h =? hash) l)).

(** The automaton 256 recorded generations after a reseed with preset 0
    ("Life 4555") whose sampled points were the twelve cells
    (6,6,8) (6,6,9) (6,7,8) (6,7,9) (7,6,7) (7,7,7) (7,9,8) (8,6,8)
    (8,6,9) (8,7,8) (9,6,7) (9,9,6): the seed settles into a ten-cell
    glider, which keeps the population at 10 and no hash six times in
    the list. *)
Definition glider_g1 : list Z :=
  [0; 0; 0; 0; 0; 0; 0; 0; 0; 0; 0; 0; 0; 0; 0; 0;
   0; 0; 0; 0; 0; 0; 0; 0; 0; 0; 0; 0; 0; 0; 0; 0;
   0; 0; 0; 0; 0; 0; 0; 0; 0; 0; 0; 0; 0; 0; 0; 0;
   0; 0; 0; 0; 0; 0; 0; 0; 0; 0; 0; 0; 0; 0; 0; 0;
   0; 0; 0; 0; 0; 0; 0; 0; 0; 0; 0; 0; 0; 0; 0; 0;
   0; 0; 0; 0; 0; 0; 0; 0; 0; 0; 0; 0; 0; 0; 0; 0;
   0; 0; 0; 0; 0; 0; 0; 0; 0; 0; 0; 0; 0; 0; 0; 0;
   0; 0; 0; 0; 0; 128; 320; 320; 128; 0; 0; 0; 0; 0; 0; 0;
   0; 0; 0; 0; 0; 128; 256; 256; 128; 0; 0; 0; 0; 0; 0; 0;
   0; 0; 0; 0; 0; 0; 0; 0; 0; 0; 0; 0; 0; 0; 0; 0;
   0; 0; 0; 0; 0; 0; 0; 0; 0; 0; 0; 0; 0; 0; 0; 0;
   0; 0; 0; 0; 0; 0; 0; 0; 0; 0; 0; 0; 0; 0; 0; 0;
   0; 0; 0; 0; 0; 0; 0; 0; 0; 0; 0; 0; 0; 0; 0; 0;
   0; 0; 0; 0; 0; 0; 0; 0; 0; 0; 0; 0; 0; 0; 0; 0;
   0; 0; 0; 0; 0; 0; 0; 0; 0; 0; 0; 0; 0; 0; 0; 0;
   0; 0; 0; 0; 0; 0; 0; 0; 0; 0; 0; 0; 0; 0; 0; 0].

Definition glider_g2 : list Z :=
  [0; 0; 0; 0; 0; 0; 0; 0; 0; 0; 0; 0; 0; 0; 0; 0;
   0; 0; 0; 0; 0; 0; 0; 0; 0; 0; 0; 0; 0; 0; 0; 0;
   0; 0; 0; 0; 0; 0; 0; 0; 0; 0; 0; 0; 0; 0; 0; 0;
   0; 0; 0; 0; 0; 0; 0; 0; 0; 0; 0; 0; 0; 0; 0; 0;
   0; 0; 0; 0; 0; 0; 0; 0; 0; 0; 0; 0; 0; 0; 0; 0;
   0; 0; 0; 0; 0; 0; 0; 0; 0; 0; 0; 0; 0; 0; 0; 0;
   0; 0; 0; 0; 0; 0; 128; 128; 0; 0; 0; 0; 0; 0; 0; 0;
   0; 0; 0; 0; 0; 128; 256; 256; 128; 0; 0; 0; 0; 0; 0; 0;
   0; 0; 0; 0; 0; 128; 256; 256; 128; 0; 0; 0; 0; 0; 0; 0;
   0; 0; 0; 0; 0; 0; 0; 0; 0; 0; 0; 0; 0; 0; 0; 0;
   0; 0; 0; 0; 0; 0; 0; 0; 0; 0; 0; 0; 0; 0; 0; 0;
   0; 0; 0; 0; 0; 0; 0; 0; 0; 0; 0; 0; 0; 0; 0; 0;
   0; 0; 0; 0; 0; 0; 0; 0; 0; 0; 0; 0; 0; 0; 0; 0;
   0; 0; 0; 0; 0; 0; 0; 0; 0; 0; 0; 0; 0; 0; 0; 0;
   0; 0; 0; 0; 0; 0; 0; 0; 0; 0; 0; 0; 0; 0; 0; 0;
   0; 0; 0; 0; 0; 0; 0; 0; 0; 0; 0; 0; 0; 0; 0; 0].

Definition glider_hashes : list Z :=
  [34554; 27898; 27794; 28366; 28574; 28626; 28834; 29406; 29614; 29666; 29874; 30446; 30654; 30706; 30914; 31486;
   31694; 31746; 31954; 32526; 32734; 32786; 32994; 33566; 34638; 35554; 33746; 33166; 34142; 33810; 33090; 30622;
   29678; 29570; 28530; 26158; 24574; 23474; 24546; 23102; 21294; 21346; 21554; 22126; 22334; 22386; 22594; 23166;
   23374; 23426; 23634; 24206; 24414; 24466; 24674; 25246; 25454; 25506; 25714; 26286; 26494; 26546; 26754; 27326;
   27534; 27586; 27794; 28366; 28574; 28626; 28834; 29406; 29614; 29666; 29874; 30446; 30654; 30706; 30914; 31486;
   31694; 31746; 31954; 32526; 32734; 32786; 32994; 33566; 34638; 35554; 33746; 33166; 34142; 33810; 33090; 30622;
   29678; 29570; 28530; 26158; 24574; 23474; 24546; 23102; 21294; 21346; 21554; 22126; 22334; 22386; 22594; 23166;
   23374; 23426; 23634; 24206; 24414; 24466; 24674; 25246; 25454; 25506; 25714; 26286; 26494; 26546; 26754; 27326;
   27534; 27586; 27794; 28366; 28574; 28626; 28834; 29406; 29614; 29666; 29874; 30446; 30654; 30706; 30914; 31486;
   31694; 31746; 31954; 32526; 32734; 32786; 32994; 33566; 34638; 35554; 33746; 33166; 34142; 33810; 33090; 30622;
   29678; 29570; 28530; 26158; 24574; 23474; 24546; 23102; 21294; 21346; 21554; 22126; 22334; 22386; 22594; 23166;
   23374; 23426; 23634; 24206; 24414; 24466; 24674; 25246; 25454; 25506; 25714; 26286; 26494; 26546; 26754; 27326;
   27534; 27586; 27794; 28366; 28574; 28626; 28834; 29406; 29614; 29666; 29874; 30446; 30654; 30706; 30914; 31486;
   31694; 31746; 31954; 32526; 32734; 32786; 32994; 33566; 34638; 35554; 33746; 33166; 34142; 33810; 33090; 30622;
   29678; 29570; 28530; 26158; 24574; 23474; 24546; 23102; 21294; 21346; 21554; 22126; 22334; 22386; 22594; 23166;
   23374; 23426; 23634; 24206; 24414; 24466; 24674; 25246; 25454; 25506; 25714; 26286; 26494; 26546; 26754; 27326].

Definition glider_256 : Life.t :=
  Life.mk glider_g1 glider_g2 (preset_rules 0) glider_hashes 256 10 1.

End LifeNotions.

Section LifeGenerationNotions.
Import Life.

(** [f lo + f (lo + 1) + ... + f (lo + n - 1)] *)
Definition sum_range (lo n : Z) (f : Z -> Z) : Z :=
  for_range lo n (fun i a => a + f i) 0.

(** The number of live cells of a generation. *)
Definition population (g : list Z) : Z :=
  sum_range 0 16 (fun x => sum_range 0 16 (fun y => sum_range 0 16 (fun z =>
    if alive g x y z then 1 else 0))).

(** What a rule makes of a cell. *)
Definition apply_rule (r : rule_t) (old : bool) : bool :=
  match r with
  | DIE => false
  | BIRTH => true
  | LIVE => old
  end.

(** The cell [(x, y, z)] of the generation that follows [g] under the
    rule table [rs]. *)
Definition next_alive (rs : list rule_t) (g : list Z) (x y z : Z) : bool :=
  apply_rule (rs !!! Z.to_nat (neighbours_spec g x y z)) (alive g x y z).

(** The hash of a generation: the neighbour counts weighted by position. *)
Definition generation_hash (g : list Z) : Z :=
  sum_range 0 16 (fun x => sum_range 0 16 (fun y => sum_range 0 16 (fun z =>
    neighbours_spec g x y z * (x * 3 + y * 5 + z * 7)))).

End LifeGenerationNotions.

Section LifeCallsNotions.
Import Life.

(** An empty grid under a table that gives birth everywhere: the next
    generation has all 4096 cells alive. *)
Definition crowded : Life.t :=
  Life.mk zero_grid zero_grid (replicate (Z.to_nat 27) BIRTH) zero_grid 0 1 0.

End LifeCallsNotions.

(** ** Float helpers of [<cmath>] and [<algorithm>] *)

Module Libm.

(** [a <= b] *)
Definition leb : F32.f32 -> F32.f32 -> bool := SFleb.

(** [a > b] *)
Definition gtb (a b : F32.f32) : bool := F32.ltb b a.

(** [std::abs(float)] *)
Definition fabs : F32.f32 -> F32.f32 := SFabs.

(** [std::max(a, b)]: [(a < b) ? b : a] *)
Definition fmax (a b : F32.f32) : F32.f32 := if F32.ltb a b then b else a.

End Libm.

(** ** The view of the automaton ([LifeDemo::update] in [main.cpp]) *)

Module LifeView.

(** The automaton with the members [time_phase] and [time_interval]
    ([0.15f]) of [LifeDemo]. *)
Record t : Type := mk { life : Life.t; time_phase : F32.f32 }.

Definition time_interval : F32.f32 := F32.of_scaled 10066330 (-26).

Definition alive : Color.t := Color.mk 255 150 30.
Definition sparkle : Color.t := Color.mk 255 30 150.
Definition dead : Color.t := Color.BLACK.
Definition dieing : Color.t := Color.mk 150 0 0.
Definition birth : Color.t := Color.mk 150 255 0.

(** [Color colors[6]]. Modelled from the spec: the three-argument
    constructor [Color(weight, a, b)] of [power/Color.h] is "equivalent
    to calling blend on a copy" of [a]. *)
Definition colors (scale : Z) : list Color.t :=
  [Color.blend scale alive sparkle; Color.blend scale sparkle alive;
   Color.blend scale alive dieing;  Color.blend scale dieing dead;
   Color.blend scale dead birth;    Color.blend scale birth alive].

(** The body of the [z] loop: [g1], [g2] are the two columns, [index]
    the local of the same name. *)
Definition draw_cell (index : Z) (cols : list Color.t) (g1 g2 : Z) (x y z : Z)
    (d : Display.t) : Display.t :=
  let mask := Int.wrap_u16 (Z.shiftl 1 z) in
  if negb (Z.land (Z.land g1 g2) mask =? 0) then
    Display.voxel (Int.wrap_u8 x) (Int.wrap_u8 y) (Int.wrap_u8 z)
      (cols !!! Z.to_nat (Int.wrap_u16 (index + 0))) d
  else if negb (Z.land (Z.land g1 (Z.lnot g2)) mask =? 0) then
    Display.voxel (Int.wrap_u8 x) (Int.wrap_u8 y) (Int.wrap_u8 z)
      (cols !!! Z.to_nat (Int.wrap_u16 (index + 2))) d
  else if negb (Z.land (Z.land (Z.lnot g1) g2) mask =? 0) then
    Display.voxel (Int.wrap_u8 x) (Int.wrap_u8 y) (Int.wrap_u8 z)
      (cols !!! Z.to_nat (Int.wrap_u16 (index + 4))) d
  else d.

(** The drawing loops of [update]. *)
Definition draw (index : Z) (cols : list Color.t) (l : Life.t) (d : Display.t) : Display.t :=
  for_range 0 16 (fun x =>
    for_range 0 16 (fun y d =>
      let g1 := Life.at2 (Life.cells_g1 l) x y in
      let g2 := Life.at2 (Life.cells_g2 l) x y in
      for_range 0 16 (fun z => draw_cell index cols g1 g2 x y z) d)) d.

(** [update(dt)]; [None] when [game_progress] does not return. *)
Definition update (fuel : nat) (e : Life.env) (dt : F32.f32) (v : t) (d : Display.t)
    : option (t * Display.t) :=
  let tp := F32.add (time_phase v) dt in
  let phase :=
    if Libm.leb tp time_interval then
      Some (tp, 0, F32.div (F32.mul (F32.of_Z 255) tp) time_interval, life v)
    else if Libm.leb tp (F32.mul (F32.of_Z 2) time_interval) then
      Some (tp, 1,
            F32.div (F32.mul (F32.of_Z 255) (F32.sub tp time_interval)) time_interval,
            life v)
    else
      match Life.game_progress fuel e (life v) with
      | Some l' => Some (F32.of_Z 0, 0, F32.of_Z 0, l')
      | None => None
      end in
  match phase with
  | Some (tp', index, scale, l') =>
      Some (mk l' tp', draw index (colors (F32.to_uint8 scale)) l' d)
  | None => None
  end.

End LifeView.

Section LifeViewNotions.

(** What [update] shows in cell [(x, y, z)]: the cross-fade entry for a
    cell alive in both generations, in the first only (dying) or in the
    second only (born); a cell dead in both keeps what it had. *)
Definition shown (index : Z) (cols : list Color.t) (l : Life.t) (k : Z * Z * Z)
    (old : Color.t) : Color.t :=
  let '(x, y, z) := k in
  match alive (Life.cells_g1 l) x y z, alive (Life.cells_g2 l) x y z with
  | true, true => cols !!! Z.to_nat index
  | true, false => cols !!! Z.to_nat (index + 2)
  | false, true => cols !!! Z.to_nat (index + 4)
  | false, false => old
  end.

(** [d'] is [d] with the automaton [l] drawn over it at the cross-fade
    position [(index, scale)]: every cell of the write buffer is what
    [shown] says, and nothing else has changed. *)
Definition drawn_over (index scale : Z) (l : Life.t) (d d' : Display.t) : Prop :=
  frame_inv d d' /\
  forall x y z, in_lattice x y z ->
    Display.get d' (Display.cubeBuffer d) x y z =
    shown index (LifeView.colors scale) l (x, y, z)
      (Display.get d (Display.cubeBuffer d) x y z).

End LifeViewNotions.

Section DisplayCallsNotions.
Import Display.

(** The state a client meets after one frame: one red voxel drawn, then
    the frame advanced. The selector is 1 and buffer 0 still holds the
    voxel. *)
Definition after_red_frame : Display.t := update one_red_voxel.

(** The two sphere primitives among the client calls. *)
Definition is_glow (d : draw) : bool :=
  match d with
  | Radiate _ _ _ _ | Radiate5 _ _ _ _ => true
  | _ => false
  end.

(** No channel of [c] is brighter in [d]. *)
Definition dimmer (c d : Color.t) : Prop :=
  Color.r c <= Color.r d /\ Color.g c <= Color.g d /\ Color.b c <= Color.b d.

End DisplayCallsNotions.

(** ** The [Graphics] namespace ([SimDisplay.h], [SimDisplay.cpp]) *)

Module Graphics.

(** Modelled from the spec: [Vector3] "supports scalar multiply/divide",
    taken componentwise. *)
Definition vdiv (a : Vector3.t) (s : F32.f32) : Vector3.t :=
  Vector3.mk (F32.div (Vector3.x a) s) (F32.div (Vector3.y a) s) (F32.div (Vector3.z a) s).

Definition vmul (a : Vector3.t) (s : F32.f32) : Vector3.t :=
  Vector3.mk (F32.mul (Vector3.x a) s) (F32.mul (Vector3.y a) s) (F32.mul (Vector3.z a) s).

(** [Graphics::voxel(uint8_t, uint8_t, uint8_t, const Color&)] *)
Definition voxel : Z -> Z -> Z -> Color.t -> Display.t -> Display.t := Display.voxel.

(** [Graphics::voxel(float, float, float, const Color&)] *)
Definition voxel_f (x y z : F32.f32) (c : Color.t) (st : Display.t) : Display.t :=
  Display.voxel_v (Vector3.mk x y z) c st.

(** [Graphics::radiate(float, float, float, const Color&, float)] *)
Definition radiate (fuel : nat) (cx cy cz : F32.f32) (c : Color.t) (radius : F32.f32)
    (st : Display.t) : option Display.t :=
  Display.radiate fuel (Vector3.mk cx cy cz) c radius st.

(** [1 + std::max(std::abs(n.z), std::max(std::abs(n.x), std::abs(n.y)))] *)
Definition steps (n : Vector3.t) : F32.f32 :=
  F32.add (F32.of_Z 1)
    (Libm.fmax (Libm.fabs (Vector3.z n))
       (Libm.fmax (Libm.fabs (Vector3.x n)) (Libm.fabs (Vector3.y n)))).

(** [Graphics::line]. The counter [i] runs from 0 to [(int)steps]; a
    float that converts to an [int] is at most [2^31 - 128], so [i]
    cannot overflow, and the loop is empty when the conversion gives
    the out-of-range value [-2^31]. *)
Definition line (x1 y1 z1 x2 y2 z2 : F32.f32) (c : Color.t) (st : Display.t) : Display.t :=
  let a := Vector3.mk x1 y1 z1 in
  let b := Vector3.mk x2 y2 z2 in
  let n := Vector3.sub a b in
  let inc := vdiv n (steps n) in
  for_range 0 (F32.to_int32 (steps n) + 1)
    (fun i => Display.voxel_v (Vector3.sub a (vmul inc (F32.of_Z i))) c) st.

End Graphics.

Section GraphicsNotions.

(** A float that is a number: zero or finite. *)
Definition is_number (x : F32.f32) : bool :=
  match x with
  | S754_zero _ | S754_finite _ _ _ => true
  | _ => false
  end.

End GraphicsNotions.

(** ** The scroller's glyph lookup ([ScrollerDemo::match_char] in [main.cpp]) *)

Module Scroller.

(** [match_char(char chr)], with the [uint16_t] result. *)
Definition match_char (chr : Z) : Z :=
  if (32 <=? chr) && (chr <=? 126)
  then Int.wrap_u16 (chr - 32)
  else Int.wrap_u16 (35 - 32).

End Scroller.

(** ** The renderer's input and draw list ([Renderer.cpp]) *)

Module Renderer.

(** Double-precision values of the cursor position and scroll offset. *)
Definition f64 : Type := spec_float.

(** [a - b] in double precision. *)
Definition sub64 : f64 -> f64 -> f64 := SFsub 53 1024.

(** [(float)d] *)
Definition to_f32 (d : f64) : F32.f32 :=
  match d with
  | S754_finite s m e => binary_round F32.prec F32.emax s m e
  | _ => d
  end.

(** The static members the input handlers use. *)
Record t : Type := mk {
  keyStates : list bool;
  cameraAngleX : F32.f32;
  cameraAngleY : F32.f32;
  cameraDistance : F32.f32;
  mousePressed : bool;
  lastMouseX : f64;
  lastMouseY : f64
}.

(** [Renderer::wasKeyPressed(key)]; [down] is
    [glfwGetKey(window, key) == GLFW_PRESS]. *)
Definition wasKeyPressed (key : Z) (down : bool) (r : t) : bool * t :=
  if (key <? 0) || (512 <=? key) then (false, r)
  else
    let currentState := down in
    let wasPressed := currentState && negb (keyStates r !!! Z.to_nat key) in
    (wasPressed,
     mk (<[Z.to_nat key := currentState]> (keyStates r)) (cameraAngleX r) (cameraAngleY r)
        (cameraDistance r) (mousePressed r) (lastMouseX r) (lastMouseY r)).

(** [Renderer::handleInput]; [button] is the state of the left mouse
    button, [mouseX], [mouseY] the cursor position. *)
Definition handleInput (button : bool) (mouseX mouseY : f64) (r : t) : t :=
  if button then
    let '(ax, ay) :=
      if mousePressed r then
        let dx := to_f32 (sub64 mouseX (lastMouseX r)) in
        let dy := to_f32 (sub64 mouseY (lastMouseY r)) in
        let ay := F32.add (cameraAngleY r) (F32.mul dx (F32.of_scaled 1 (-1))) in
        let ax := F32.add (cameraAngleX r) (F32.mul dy (F32.of_scaled 1 (-1))) in
        let ax := if Libm.gtb ax (F32.of_Z 89) then F32.of_Z 89 else ax in
        let ax := if F32.ltb ax (F32.of_Z (-89)) then F32.of_Z (-89) else ax in
        (ax, ay)
      else (cameraAngleX r, cameraAngleY r) in
    mk (keyStates r) ax ay (cameraDistance r) true mouseX mouseY
  else
    mk (keyStates r) (cameraAngleX r) (cameraAngleY r) (cameraDistance r) false
       (lastMouseX r) (lastMouseY r).

(** [Renderer::scrollCallback] *)
Definition scrollCallback (yoffset : f64) (r : t) : t :=
  let d := F32.sub (cameraDistance r) (F32.mul (to_f32 yoffset) (F32.of_Z 2)) in
  let d := if F32.ltb d (F32.of_Z 15) then F32.of_Z 15 else d in
  let d := if Libm.gtb d (F32.of_Z 100) then F32.of_Z 100 else d in
  mk (keyStates r) (cameraAngleX r) (cameraAngleY r) d (mousePressed r)
     (lastMouseX r) (lastMouseY r).

(** One call of [drawVoxel(x, y, z, r, g, b, size)]. *)
Record point : Type := mk_point {
  px : F32.f32; py : F32.f32; pz : F32.f32;
  pr : F32.f32; pg : F32.f32; pb : F32.f32;
  psize : F32.f32
}.

(** The literals [0.01f], [0.4f] and [7.5f]. *)
Definition c0_01 : F32.f32 := F32.of_scaled 10737418 (-30).
Definition voxelSize : F32.f32 := F32.of_scaled 13421773 (-25).
Definition offset : F32.f32 := F32.of_scaled 15 (-1).
Definition spacing : F32.f32 := F32.of_Z 1.

(** [cube[x][y][z][k] / 255.0f * brightness] *)
Definition channel (byte : Z) (brightness : F32.f32) : F32.f32 :=
  F32.mul (F32.div (F32.of_Z byte) (F32.of_Z 255)) brightness.

(** The test that skips a voxel:
    [r < 0.01f && g < 0.01f && b < 0.01f]. *)
Definition dim (r g b : F32.f32) : bool :=
  F32.ltb r c0_01 && F32.ltb g c0_01 && F32.ltb b c0_01.

(** The body of the innermost loop of [renderCube], on the list of
    [drawVoxel] calls made so far. *)
Definition render_cell (cube : list Z) (brightness : F32.f32) (x y z : Z)
    (out : list point) : list point :=
  let i := (Display.index x y z * 3)%nat in
  let r := channel (cube !!! i) brightness in
  let g := channel (cube !!! (i + 1)%nat) brightness in
  let b := channel (cube !!! (i + 2)%nat) brightness in
  if dim r g b then out
  else out ++ [mk_point (F32.mul (F32.sub (F32.of_Z x) offset) spacing)
                        (F32.mul (F32.sub (F32.of_Z y) offset) spacing)
                        (F32.mul (F32.sub (F32.of_Z z) offset) spacing)
                        r g b voxelSize].

(** [Renderer::renderCube], as the list of voxels it draws (the
    wireframe that follows is the same for every frame). *)
Definition renderCube (cube : list Z) (brightness : F32.f32) : list point :=
  for_range 0 16 (fun x =>
    for_range 0 16 (fun y =>
      for_range 0 16 (fun z => render_cell cube brightness x y z))) [].

End Renderer.

Section RendererNotions.

(** A key table with nothing held. *)
Definition idle : Renderer.t :=
  Renderer.mk (replicate (Z.to_nat 512) false) (F32.of_Z 30) (F32.of_Z 45) (F32.of_Z 40)
    false (S754_zero false) (S754_zero false).

(** A voxel the renderer shows at full brightness: some channel is 3
    or more. *)
Definition bright (cube : list Z) (x y z : Z) : bool :=
  let i := (Display.index x y z * 3)%nat in
  (3 <=? cube !!! i) || (3 <=? cube !!! (i + 1)%nat) || (3 <=? cube !!! (i + 2)%nat).

(** The test of [renderCube] on the three bytes of a cell, at full
    brightness. *)
Definition dim_bytes (r g b : Z) : bool :=
  Renderer.dim (Renderer.channel r (F32.of_Z 1)) (Renderer.channel g (F32.of_Z 1))
               (Renderer.channel b (F32.of_Z 1)).

End RendererNotions.

Section LifeSeedNotions.
Import Life.

(** One of the first [k] draws landed on the cell. *)
Definition drawn (sample : Z -> Z * Z * Z) (k : Z) (x y z : Z) : bool :=
  existsb (fun i => same_point (sample i) x y z) (seqZ 0 k).

End LifeSeedNotions.

(** ** The Arduino helpers of the simulator ([Arduino.h]) *)

Module Arduino.

(** [long] values are modelled as integers; the functions below are
    the program's as long as no intermediate value leaves the range of
    [long] (an overflow is undefined in the source). [%] and [/] are
    C's, truncating toward zero; a zero divisor is [None]. *)

(** [random(long max)]: [std::rand() % max] *)
Definition random_max (rand max : Z) : option Z :=
  if max =? 0 then None else Some (Z.rem rand max).

(** [random(long min, long max)] *)
Definition random (rand min max : Z) : option Z :=
  if max <=? min then Some min
  else
    match random_max rand (max - min) with
    | Some r => Some (min + r)
    | None => None
    end.

(** [constrain(value, low, high)] *)
Definition constrain (value low high : Z) : Z :=
  if value <? low then low else if high <? value then high else value.


End Arduino.

Section ArduinoNotions.

(** The range of a 32-bit [long], the narrowest the simulator is built
    with. *)
Definition fits_long (n : Z) : Prop := -2147483648 <= n <= 2147483647.

End ArduinoNotions.

(** ** The twinkles ([TwinkelsDemo] in [main.cpp]) *)

#[global] Instance f32_inhabited : Inhabited F32.f32 := populate (S754_zero false).

Module Twinkels.

(** [Color colors[16][16][16]], [float duration[16][16][16]] in
    row-major order, and [timer]. *)
Record t : Type := mk {
  colors : list Color.t;
  duration : list F32.f32;
  timer : F32.f32
}.

(** [interval = 0.01f], [fade_in_speed = 0.5f], [fade_out_speed = 1.5f] *)
Definition interval : F32.f32 := F32.of_scaled 10737418 (-30).
Definition fade_in_speed : F32.f32 := F32.of_scaled 1 (-1).
Definition fade_out_speed : F32.f32 := F32.of_scaled 3 (-1).

(** Modelled from the spec: [isBlack()] "tests all-zero". *)
Definition isBlack (c : Color.t) : bool := Color.eqb c Color.BLACK.

Definition set_cell (tw : t) (i : nat) (c : Color.t) (du : F32.f32) : t :=
  mk (<[i := c]> (colors tw)) (<[i := du]> (duration tw)) (timer tw).

Definition set_duration (tw : t) (i : nat) (du : F32.f32) : t :=
  mk (colors tw) (<[i := du]> (duration tw)) (timer tw).

(** [init] *)
Definition init (tw : t) : t :=
  for_range 0 16 (fun x =>
    for_range 0 16 (fun y =>
      for_range 0 16 (fun z tw =>
        set_cell tw (Display.index x y z) Color.BLACK (F32.of_Z 0))))
    (mk (colors tw) (duration tw) (F32.of_Z 0)).

(** The body of the fade loops of [update], on the twinkles and the
    display. *)
Definition fade_cell (dt : F32.f32) (x y z : Z) (s : t * Display.t) : t * Display.t :=
  let '(tw, d) := s in
  let i := Display.index x y z in
  let c := colors tw !!! i in
  let du := duration tw !!! i in
  if negb (isBlack c) then
    if F32.ltb du fade_in_speed then
      let f := F32.div du fade_in_speed in
      let d' := Display.voxel x y z
                  (Color.scaled c (F32.to_uint8 (F32.mul (F32.of_Z 255) f))) d in
      (set_duration tw i (F32.add du dt), d')
    else if F32.ltb du (F32.add fade_in_speed fade_out_speed) then
      let f := F32.div (F32.sub du fade_in_speed) fade_out_speed in
      let d' := Display.voxel x y z
                  (Color.scaled c
                     (F32.to_uint8 (F32.mul (F32.of_Z 255) (F32.sub (F32.of_Z 1) f)))) d in
      (set_duration tw i (F32.add du dt), d')
    else (set_cell tw i Color.BLACK (F32.of_Z 0), d)
  else (tw, d).

(** [update(dt)]. [r1], [r2], [r3] are the three values of [rand()]
    that pick the cell of a new twinkle, [fresh] the colour that
    [Color((uint8_t)(rand() % 256), 255)] builds for it. *)
Definition update (dt : F32.f32) (r1 r2 r3 : Z) (fresh : Color.t) (s : t * Display.t)
    : t * Display.t :=
  let '(tw, d) := s in
  let tw := mk (colors tw) (duration tw) (F32.add (timer tw) dt) in
  let '(tw, d) :=
    for_range 0 16 (fun x =>
      for_range 0 16 (fun y =>
        for_range 0 16 (fun z => fade_cell dt x y z))) (tw, d) in
  if Libm.leb interval (timer tw) then
    let tw := mk (colors tw) (duration tw) (F32.of_Z 0) in
    let x := Int.wrap_u8 (Z.rem r1 16) in
    let y := Int.wrap_u8 (Z.rem r2 16) in
    let z := Int.wrap_u8 (Z.rem r3 16) in
    let i := Display.index x y z in
    if SFeqb (duration tw !!! i) (F32.of_Z 0)
    then (mk (<[i := fresh]> (colors tw)) (duration tw) (timer tw), d)
    else (tw, d)
  else (tw, d).

End Twinkels.

Section TwinkelsNotions.

(** The twinkle arrays have their 4096 cells. *)
Definition twinkels_wf (tw : Twinkels.t) : Prop :=
  length (Twinkels.colors tw) = Display.ncells /\
  length (Twinkels.duration tw) = Display.ncells.

(** No twinkle is running. *)
Definition all_black (tw : Twinkels.t) : Prop :=
  forall i, (i < Display.ncells)%nat -> Twinkels.colors tw !!! i = Color.BLACK.

End TwinkelsNotions.

(** * Properties *)

(** ** Loops over a range *)

Section ForRange.
Context {S : Type}.
Implicit Types (body : Z -> S -> S) (s : S).

Lemma for_range_nil lo n body s : n <= 0 -> for_range lo n body s = s.
Proof. intros Hn. unfold for_range. by rewrite seqZ_nil. Qed.

Lemma for_range_snoc lo n body s :
  0 <= n -> for_range lo (n + 1) body s = body (lo + n) (for_range lo n body s).
Proof.
  intros Hn. unfold for_range.
  rewrite seqZ_app by lia. rewrite foldl_app.
  rewrite (seqZ_cons (lo + n) 1) by lia.
  rewrite (seqZ_nil _ (Z.pred 1)) by lia. reflexivity.
Qed.

Lemma for_range_cons lo n body s :
  0 < n -> for_range lo n body s = for_range (lo + 1) (n - 1) body (body lo s).
Proof.
  intros Hn. unfold for_range. rewrite seqZ_cons by lia.
  replace (Z.succ lo) with (lo + 1) by lia.
  replace (Z.pred n) with (n - 1) by lia. reflexivity.
Qed.

(** Induction over the number of iterations. *)
Lemma for_range_ind (P : Z -> S -> Prop) lo n body s :
  0 <= n ->
  P 0 s ->
  (forall k t, 0 <= k < n -> P k t -> P (k + 1) (body (lo + k) t)) ->
  P n (for_range lo n body s).
Proof.
  intros Hn H0 Hstep.
  assert (forall m : nat, Z.of_nat m <= n -> P (Z.of_nat m) (for_range lo (Z.of_nat m) body s)) as H.
  { induction m as [|m IH]; intros Hm.
    - rewrite for_range_nil by lia. exact H0.
    - replace (Z.of_nat (Datatypes.S m)) with (Z.of_nat m + 1) by lia.
      rewrite for_range_snoc by lia. apply Hstep; [lia|]. apply IH. lia. }
  specialize (H (Z.to_nat n)). rewrite Z2Nat.id in H by lia. apply H. lia.
Qed.

Lemma for_range_inv (P : S -> Prop) lo n body s :
  P s ->
  (forall i t, lo <= i < lo + n -> P t -> P (body i t)) ->
  P (for_range lo n body s).
Proof.
  intros H0 Hstep. destruct (Z_le_gt_dec 0 n) as [Hn|Hn].
  - apply (for_range_ind (fun _ t => P t)); [done|done|].
    intros k t Hk Ht. apply Hstep; [lia|done].
  - by rewrite for_range_nil by lia.
Qed.

Lemma for_range_ext lo n body body' s :
  (forall i t, lo <= i < lo + n -> body i t = body' i t) ->
  for_range lo n body s = for_range lo n body' s.
Proof.
  intros Hext. destruct (Z_le_gt_dec 0 n) as [Hn|Hn].
  - apply (for_range_ind (fun k t => t = for_range lo k body' s)); [done| |].
    + by rewrite for_range_nil.
    + intros k t Hk ->. rewrite for_range_snoc by lia. apply Hext. lia.
  - by rewrite !for_range_nil by lia.
Qed.

(** Two nested loops over [a] rows of [b] columns are one loop over the
    row-major offsets. *)
Lemma for_range_fuse a b (inner : Z -> Z -> S -> S) (flat : Z -> S -> S) s :
  0 <= a -> 0 < b ->
  (forall i j t, 0 <= i < a -> 0 <= j < b -> inner i j t = flat (i * b + j) t) ->
  for_range 0 a (fun i => for_range 0 b (inner i)) s = for_range 0 (a * b) flat s.
Proof.
  intros Ha Hb Hin.
  apply (for_range_ind (fun k t => t = for_range 0 (k * b) flat s)); [done| |].
  - by rewrite for_range_nil by lia.
  - intros k t Hk ->. rewrite Z.add_0_l.
    replace ((k + 1) * b) with (k * b + b) by lia.
    apply (for_range_ind (fun m u => u = for_range 0 (k * b + m) flat s)); [lia| |].
    + by rewrite Z.add_0_r.
    + intros m u Hm ->. rewrite Z.add_0_l.
      replace (k * b + (m + 1)) with (k * b + m + 1) by lia.
      rewrite for_range_snoc by nia. rewrite Z.add_0_l. apply Hin; lia.
Qed.

End ForRange.

(** ** Loops on a 16-bit counter *)

Lemma wrap_s16_range n : Int.is_s16 (Int.wrap_s16 n).
Proof.
  unfold Int.is_s16, Int.wrap_s16.
  pose proof (Z.mod_pos_bound (n + 32768) 65536 ltac:(lia)). lia.
Qed.

Lemma wrap_s16_id n : Int.is_s16 n -> Int.wrap_s16 n = n.
Proof.
  unfold Int.is_s16, Int.wrap_s16. intros Hn.
  rewrite Z.mod_small by lia. lia.
Qed.

Section ForS16.
Context {S : Type}.
Implicit Types (body : Z -> S -> option S) (f : Z -> S -> S) (s : S).

(** No 16-bit counter ever exceeds 32767: the loop cannot exit. *)
Lemma for_s16_diverges fuel x body s :
  Int.is_s16 x -> for_s16 fuel x 32767 body s = None.
Proof.
  revert x s. induction fuel as [|k IH]; intros x s Hx; [reflexivity|].
  simpl. assert ((x <=? 32767) = true) as -> by (apply Z.leb_le; unfold Int.is_s16 in Hx; lia).
  destruct (body x s); [|reflexivity]. apply IH, wrap_s16_range.
Qed.

(** When the loop returns, it has run the body on [lo .. hi] in order. *)
Lemma for_s16_Some fuel lo hi body f s s' :
  (forall x t t', lo <= x <= hi -> body x t = Some t' -> t' = f x t) ->
  Int.is_s16 lo -> hi <= 32767 ->
  for_s16 fuel lo hi body s = Some s' ->
  s' = for_range lo (hi - lo + 1) f s.
Proof.
  revert lo s. induction fuel as [|k IH]; intros lo s Hbody Hlo Hhi Hrun; [done|].
  simpl in Hrun. destruct (Z.leb_spec lo hi) as [Hle|Hgt].
  - destruct (body lo s) as [t|] eqn:Hb; [|done].
    apply Hbody in Hb; [|lia]. subst t.
    destruct (decide (hi = 32767)) as [->|Hne].
    { rewrite for_s16_diverges in Hrun by apply wrap_s16_range. done. }
    unfold Int.is_s16 in Hlo.
    rewrite wrap_s16_id in Hrun by (unfold Int.is_s16; lia).
    apply IH in Hrun; [|intros; eapply Hbody; [lia|done]|unfold Int.is_s16; lia|lia].
    rewrite (for_range_cons lo) by lia.
    replace (hi - lo + 1 - 1) with (hi - (lo + 1) + 1) by lia. done.
  - injection Hrun as <-. by rewrite for_range_nil by lia.
Qed.

(** With an upper bound below 32767 and enough fuel, the loop returns. *)
Lemma for_s16_pure fuel lo hi body f s :
  (forall x t, lo <= x <= hi -> body x t = Some (f x t)) ->
  Int.is_s16 lo -> hi < 32767 ->
  (Z.to_nat (hi - lo + 1) < fuel)%nat ->
  for_s16 fuel lo hi body s = Some (for_range lo (hi - lo + 1) f s).
Proof.
  revert lo s. induction fuel as [|k IH]; intros lo s Hbody Hlo Hhi Hfuel; [lia|].
  simpl. destruct (Z.leb_spec lo hi) as [Hle|Hgt].
  - rewrite Hbody by lia. unfold Int.is_s16 in Hlo.
    rewrite wrap_s16_id by (unfold Int.is_s16; lia).
    rewrite IH; [|intros; apply Hbody; lia|unfold Int.is_s16; lia|lia|lia].
    rewrite (for_range_cons lo) by lia.
    replace (hi - lo + 1 - 1) with (hi - (lo + 1) + 1) by lia. done.
  - by rewrite for_range_nil by lia.
Qed.

End ForS16.

(** ** Loops that touch one key per iteration *)

Section Cellwise.
Context {S K V : Type}.
Variable get : K -> S -> V.
Variable valid : K -> Prop.
Variable Inv : S -> Prop.
Variable key : K -> Z.
Variable G : K -> bool.
Variable f : K -> V -> V.

Lemma for_range_cellwise lo n (body : Z -> S -> S) s :
  (forall i t, lo <= i < lo + n -> Inv t -> Inv (body i t)) ->
  (forall i t k, lo <= i < lo + n -> Inv t -> valid k ->
     get k (body i t) = if (key k =? i) && G k then f k (get k t) else get k t) ->
  Inv s ->
  Inv (for_range lo n body s) /\
  forall k, valid k ->
    get k (for_range lo n body s) =
    if ((lo <=? key k) && (key k <? lo + n)) && G k then f k (get k s) else get k s.
Proof.
  intros Hinv Hbody Hs.
  destruct (Z_le_gt_dec 0 n) as [Hn|Hn].
  2:{ rewrite for_range_nil by lia. split; [done|]. intros k Hk.
      assert ((lo <=? key k) && (key k <? lo + n) = false) as -> by lia. done. }
  apply (for_range_ind (fun m t => Inv t /\ forall k, valid k ->
    get k t = if ((lo <=? key k) && (key k <? lo + m)) && G k then f k (get k s) else get k s));
    [done| |].
  - split; [done|]. intros k Hk.
    assert ((lo <=? key k) && (key k <? lo + 0) = false) as -> by lia. done.
  - intros m t Hm [Ht Hget]. split; [apply Hinv; [lia|done]|].
    intros k Hk. rewrite Hbody by (done || lia). rewrite Hget by done.
    destruct (G k); rewrite ?andb_true_r, ?andb_false_r; [|done].
    destruct (Z.eqb_spec (key k) (lo + m)) as [Heq|Hne].
    + assert ((lo <=? key k) && (key k <? lo + m) = false) as -> by lia.
      assert ((lo <=? key k) && (key k <? lo + (m + 1)) = true) as -> by lia. done.
    + assert ((lo <=? key k) && (key k <? lo + (m + 1)) = (lo <=? key k) && (key k <? lo + m)) as ->
        by lia.
      done.
Qed.

End Cellwise.

(** A bounded universal checked by evaluation. *)
Lemma forallb_seqZ (P : Z -> bool) lo n :
  forallb P (seqZ lo n) = true -> forall k, lo <= k < lo + n -> P k = true.
Proof.
  intros H k Hk. rewrite forallb_forall in H. apply H.
  apply list_elem_of_In, elem_of_seqZ. lia.
Qed.

(** ** Bit masks *)

Lemma land_lor3_zero x y z m :
  Z.land (Z.lor (Z.lor x y) z) m = 0 <->
  Z.land x m = 0 /\ Z.land y m = 0 /\ Z.land z m = 0.
Proof.
  rewrite !Z.land_lor_distr_l, !Z.lor_eq_0_iff. tauto.
Qed.

Lemma land_high_mask x n :
  4 <= n -> Z.land x (Z.ones n - 15) = 16 * ((x mod 2 ^ n) / 16).
Proof.
  intros Hn.
  assert (Z.ones n - 15 = Z.ldiff (Z.ones n) (Z.ones 4)) as ->.
  { rewrite Z.ldiff_ones_r by lia. rewrite Z.shiftr_div_pow2, Z.shiftl_mul_pow2 by lia.
    rewrite Z.ones_equiv. replace n with ((n - 4) + 4) by lia.
    rewrite Z.pow_add_r by lia. change (2 ^ 4) with 16.
    assert (0 < 2 ^ (n - 4)) by (apply Z.pow_pos_nonneg; lia).
    replace (Z.pred (2 ^ (n - 4) * 16)) with ((2 ^ (n - 4) - 1) * 16 + 15) by lia.
    rewrite Z.div_add_l by lia. change (15 / 16) with 0. lia. }
  rewrite Z.ldiff_land, Z.land_assoc, <- Z.ldiff_land.
  rewrite Z.land_ones by lia. rewrite Z.ldiff_ones_r by lia.
  rewrite Z.shiftr_div_pow2, Z.shiftl_mul_pow2 by lia. change (2 ^ 4) with 16. lia.
Qed.

Lemma u8_mask x : 0 <= x < 256 -> (Z.land x 0xF0 =? 0) = (x <? 16).
Proof.
  intros Hx. change 0xF0 with (Z.ones 8 - 15). rewrite land_high_mask by lia.
  change (2 ^ 8) with 256. rewrite Z.mod_small by lia.
  destruct (Z.ltb_spec x 16) as [H|H].
  - rewrite Z.div_small by lia. reflexivity.
  - apply Z.eqb_neq. assert (1 <= x / 16) by (apply Z.div_le_lower_bound; lia). lia.
Qed.

Lemma s16_mask x :
  -32768 <= x <= 32767 -> (Z.land x 0xFFF0 =? 0) = (0 <=? x) && (x <? 16).
Proof.
  intros Hx. change 0xFFF0 with (Z.ones 16 - 15). rewrite land_high_mask by lia.
  change (2 ^ 16) with 65536.
  destruct (Z.leb_spec 0 x) as [H0|H0]; simpl.
  - rewrite Z.mod_small by lia.
    destruct (Z.ltb_spec x 16) as [H|H].
    + rewrite Z.div_small by lia. reflexivity.
    + apply Z.eqb_neq. assert (1 <= x / 16) by (apply Z.div_le_lower_bound; lia). lia.
  - apply Z.eqb_neq.
    replace x with (x + 65536 + (-1) * 65536) by lia.
    rewrite Z.mod_add by lia. rewrite Z.mod_small by lia.
    assert (1 <= (x + 65536) / 16) by (apply Z.div_le_lower_bound; lia). lia.
Qed.

Lemma land3_eqb x y z m :
  (Z.land (Z.lor (Z.lor x y) z) m =? 0) =
  (Z.land x m =? 0) && (Z.land y m =? 0) && (Z.land z m =? 0).
Proof.
  apply eq_true_iff_eq. rewrite !andb_true_iff, !Z.eqb_eq, land_lor3_zero. tauto.
Qed.

(** ** Cells of the volume *)

Section DisplayCells.
Import Display.

Lemma wfb_wf st : wfb st = true -> wf st.
Proof.
  unfold wfb, wf, Int.is_u8. rewrite !andb_true_iff, orb_true_iff, forallb_forall.
  intros (((((Hb & Hl) & Hall) & Hr) & H0) & H1).
  split_and!; try lia.
  intros l Hl'. apply list_elem_of_In in Hl'. apply Hall in Hl'. lia.
Qed.

Lemma wf_initial : wf initial.
Proof. apply wfb_wf. vm_compute. reflexivity. Qed.

Lemma index_lt x y z : in_lattice x y z -> (index x y z < ncells)%nat.
Proof. unfold in_lattice, index, ncells. lia. Qed.

Lemma index_inj x y z x' y' z' :
  in_lattice x y z -> in_lattice x' y' z' ->
  index x y z = index x' y' z' -> x = x' /\ y = y' /\ z = z'.
Proof. unfold in_lattice, index. lia. Qed.

Lemma wf_buffer_length st buf :
  wf st -> buf = 0 \/ buf = 1 -> length (buffer st buf) = ncells.
Proof.
  intros (_ & Hlen & Hall & _) Hbuf. unfold buffer.
  assert (Z.to_nat buf < length (cube st))%nat as Hlt by lia.
  apply (list_lookup_lookup_total_lt (cube st)) in Hlt.
  apply list_elem_of_lookup_2 in Hlt. apply Hall in Hlt. unfold ncells. lia.
Qed.

Lemma buffer_set_eq st buf x y z c :
  wf st -> buf = 0 \/ buf = 1 ->
  buffer (set st buf x y z c) buf = <[index x y z := c]> (buffer st buf).
Proof.
  intros (_ & Hlen & _) Hbuf. unfold buffer, set, with_cube. simpl.
  rewrite list_lookup_total_alter_eq by lia. reflexivity.
Qed.

Lemma buffer_set_ne st buf buf' x y z c :
  0 <= buf -> 0 <= buf' -> buf <> buf' ->
  buffer (set st buf x y z c) buf' = buffer st buf'.
Proof.
  intros H1 H2 Hne. unfold buffer, set, with_cube. simpl.
  rewrite list_lookup_total_alter_ne by lia. reflexivity.
Qed.

Lemma get_set_eq st buf x y z c :
  wf st -> buf = 0 \/ buf = 1 -> in_lattice x y z ->
  get (set st buf x y z c) buf x y z = c.
Proof.
  intros Hwf Hbuf Hin. unfold get. rewrite buffer_set_eq by done.
  apply list_lookup_total_insert_eq.
  rewrite wf_buffer_length by done. by apply index_lt.
Qed.

Lemma get_set_ne st buf x y z c buf' x' y' z' :
  wf st -> buf = 0 \/ buf = 1 -> buf' = 0 \/ buf' = 1 ->
  in_lattice x y z -> in_lattice x' y' z' ->
  (buf', x', y', z') <> (buf, x, y, z) ->
  get (set st buf x y z c) buf' x' y' z' = get st buf' x' y' z'.
Proof.
  intros Hwf Hbuf Hbuf' Hin Hin' Hne. unfold get.
  destruct (decide (buf' = buf)) as [->|Hb].
  - rewrite buffer_set_eq by done.
    apply list_lookup_total_insert_ne. intros Heq.
    apply index_inj in Heq; [|done..]. destruct Heq as (-> & -> & ->). done.
  - rewrite buffer_set_ne by lia. reflexivity.
Qed.

Lemma wf_set st buf x y z c : wf st -> wf (set st buf x y z c).
Proof.
  intros (Hb & Hlen & Hall & Hraw & Hblur). unfold wf, set, with_cube; simpl.
  split_and!; try done.
  - by rewrite length_alter.
  - intros l Hl. apply list_elem_of_lookup in Hl as [i Hi].
    destruct (decide (i = Z.to_nat buf)) as [->|Hne].
    + rewrite list_lookup_alter_eq in Hi.
      destruct (cube st !! Z.to_nat buf) as [l0|] eqn:El; [|done].
      simpl in Hi. injection Hi as <-. rewrite length_insert.
      apply Hall. by eapply list_elem_of_lookup_2.
    + rewrite list_lookup_alter_ne in Hi by done.
      apply Hall. by eapply list_elem_of_lookup_2.
Qed.

End DisplayCells.

(** ** C1: the bounds-masked write of [voxel] *)

(** C1. For 8-bit coordinates, the single masked test
    [((x | y | z) & 0xF0) == 0] holds exactly when all of [x], [y], [z]
    are below 16; when it fails [voxel] returns the state untouched,
    and when it holds the cell [(x, y, z)] of the current write buffer
    becomes [c] while every other cell of either buffer, the selector,
    the raw frame and the configuration stay as they were. *)
Theorem voxel_masked_write (st : Display.t) (x y z : Z) (c : Color.t) :
  Display.wf st -> Int.is_u8 x -> Int.is_u8 y -> Int.is_u8 z ->
  ((Z.land (Z.lor (Z.lor x y) z) 0xF0 =? 0) = (x <? 16) && (y <? 16) && (z <? 16)) /\
  (16 <= x \/ 16 <= y \/ 16 <= z -> Display.voxel x y z c st = st) /\
  (x < 16 -> y < 16 -> z < 16 ->
     Display.get (Display.voxel x y z c st) (Display.cubeBuffer st) x y z = c /\
     (forall buf x' y' z',
        buf = 0 \/ buf = 1 -> in_lattice x' y' z' ->
        (buf, x', y', z') <> (Display.cubeBuffer st, x, y, z) ->
        Display.get (Display.voxel x y z c st) buf x' y' z' = Display.get st buf x' y' z') /\
     Display.cubeBuffer (Display.voxel x y z c st) = Display.cubeBuffer st /\
     Display.rawBuffer (Display.voxel x y z c st) = Display.rawBuffer st /\
     Display.motionBlur (Display.voxel x y z c st) = Display.motionBlur st).
Proof.
  intros Hwf Hx Hy Hz. unfold Int.is_u8 in *.
  assert ((Z.land (Z.lor (Z.lor x y) z) 0xF0 =? 0) = (x <? 16) && (y <? 16) && (z <? 16)) as Htest.
  { rewrite land3_eqb, !u8_mask by done. reflexivity. }
  split; [exact Htest|]. unfold Display.voxel. rewrite Htest. split.
  - intros Hout.
    assert ((x <? 16) && (y <? 16) && (z <? 16) = false) as ->; [|done].
    rewrite !andb_false_iff, !Z.ltb_ge. tauto.
  - intros Hx' Hy' Hz'.
    assert ((x <? 16) && (y <? 16) && (z <? 16) = true) as ->.
    { rewrite !andb_true_iff, !Z.ltb_lt. tauto. }
    assert (in_lattice x y z) as Hin by (unfold in_lattice; lia).
    pose proof Hwf as (Hb & _).
    split_and!; try reflexivity.
    + by apply get_set_eq.
    + intros buf x' y' z' Hbuf Hin' Hne. by apply get_set_ne.
Qed.

Lemma voxel_masked_write_witness :
  Display.get (Display.voxel 3 4 5 (Color.mk 1 2 3) Display.initial) 0 3 4 5 = Color.mk 1 2 3.
Proof.
  apply (voxel_masked_write Display.initial 3 4 5 (Color.mk 1 2 3) wf_initial);
    unfold Int.is_u8; lia.
Defined.

(** ** The frame advance *)

Section DisplayUpdate.
Import Display.

Lemma wf_prev st : wf st -> Int.wrap_u32 (1 - cubeBuffer st) = 1 - cubeBuffer st.
Proof. intros ([->| ->] & _); reflexivity. Qed.

Lemma blend8_0 a o : Color.blend8 0 a o = a.
Proof.
  unfold Color.blend8. rewrite Z.mul_0_r, Z.add_0_r.
  change (255 - 0) with 255. apply Z.div_mul. lia.
Qed.

Lemma blend8_255 a o : Color.blend8 255 a o = o.
Proof.
  unfold Color.blend8. change (255 - 255) with 0.
  rewrite Z.mul_0_r, Z.add_0_l. apply Z.div_mul. lia.
Qed.

Lemma blend_0 c o : Color.blend 0 c o = c.
Proof. destruct c. unfold Color.blend; simpl. by rewrite !blend8_0. Qed.

Lemma blend_255 c o : Color.blend 255 c o = o.
Proof. destruct o. unfold Color.blend; simpl. by rewrite !blend8_255. Qed.

Lemma update_loops_flat blur prev st :
  for_range 0 16 (fun x =>
    for_range 0 16 (fun y =>
      for_range 0 16 (fun z => update_cell blur prev x y z))) st
  = for_range 0 4096 (update_flat blur prev) st.
Proof.
  rewrite (for_range_ext 0 16 _
    (fun x => for_range 0 256 (fun j => update_flat blur prev (x * 256 + j)))).
  - change 4096 with (16 * 256). apply for_range_fuse; [lia|lia|]. reflexivity.
  - intros x t Hx. change 256 with (16 * 16).
    apply for_range_fuse; [lia|lia|]. intros y z u Hy Hz.
    unfold update_cell, update_flat, get, index.
    replace (x * (16 * 16) + (y * 16 + z)) with ((x * 16 + y) * 16 + z) by lia.
    reflexivity.
Qed.

(** The blend loop leaves the buffers, the selector and the
    configuration untouched, and puts into the raw frame the three
    channels of the blended colour of every cell. *)
Lemma update_loop_spec st :
  wf st ->
  blend_inv st 4096
    (for_range 0 4096 (update_flat (motionBlur st) (1 - cubeBuffer st)) st).
Proof.
  intros Hwf. pose proof Hwf as (_ & _ & _ & Hraw & _).
  apply (for_range_ind (blend_inv st)); [lia| |].
  - unfold blend_inv. split_and!; try reflexivity. intros j Hj. lia.
  - intros k u Hk (Hc & Hcb & Hmb & Hlen & Hdone). rewrite Z.add_0_l.
    unfold blend_inv, update_flat; simpl. rewrite !length_insert.
    split_and!; try done.
    intros j Hj. unfold blended.
    assert (buffer u (cubeBuffer u) = buffer st (cubeBuffer st)) as ->
      by (unfold buffer; by rewrite Hc, Hcb).
    assert (buffer u (1 - cubeBuffer st) = buffer st (1 - cubeBuffer st)) as ->
      by (unfold buffer; by rewrite Hc).
    destruct (decide (j = k)) as [->|Hne].
    + rewrite list_lookup_total_insert_ne by lia.
      rewrite list_lookup_total_insert_ne by lia.
      rewrite list_lookup_total_insert_eq by lia.
      rewrite list_lookup_total_insert_ne by lia.
      rewrite list_lookup_total_insert_eq by (rewrite length_insert; lia).
      rewrite list_lookup_total_insert_eq by (rewrite !length_insert; lia).
      done.
    + rewrite !list_lookup_total_insert_ne by lia.
      apply Hdone. lia.
Qed.

Lemma update_unfold st :
  wf st ->
  update st =
  clear (mk (cube (for_range 0 4096 (update_flat (motionBlur st) (1 - cubeBuffer st)) st))
            (Int.wrap_u32 (1 - cubeBuffer (for_range 0 4096 (update_flat (motionBlur st) (1 - cubeBuffer st)) st)))
            (rawBuffer (for_range 0 4096 (update_flat (motionBlur st) (1 - cubeBuffer st)) st))
            (motionBlur (for_range 0 4096 (update_flat (motionBlur st) (1 - cubeBuffer st)) st))).
Proof.
  intros Hwf. unfold update. rewrite wf_prev by done.
  rewrite update_loops_flat. reflexivity.
Qed.

Lemma update_spec st :
  wf st ->
  cubeBuffer (update st) = 1 - cubeBuffer st /\
  motionBlur (update st) = motionBlur st /\
  buffer (update st) (1 - cubeBuffer st) = black_buffer /\
  buffer (update st) (cubeBuffer st) = buffer st (cubeBuffer st) /\
  wf (update st) /\
  forall x y z, in_lattice x y z ->
    raw_cell (update st) x y z =
    Color.bytes (Color.blend (motionBlur st)
                   (get st (cubeBuffer st) x y z)
                   (get st (1 - cubeBuffer st) x y z)).
Proof.
  intros Hwf. rewrite update_unfold by done.
  pose proof (update_loop_spec st Hwf) as H.
  generalize dependent (for_range 0 4096 (update_flat (motionBlur st) (1 - cubeBuffer st)) st).
  intros st1 (Hc & Hcb & Hmb & Hlen & Hraw).
  pose proof Hwf as (Hb & Hl & Hall & Hr & Hblur).
  unfold clear, with_cube. cbn [cube cubeBuffer rawBuffer motionBlur].
  rewrite Hcb, Hc, Hmb, wf_prev by done.
  set (st' := mk _ _ _ _).
  assert (buffer st' (1 - cubeBuffer st) = black_buffer) as Hnew.
  { unfold buffer, st'. cbn [cube]. apply list_lookup_total_insert_eq. lia. }
  assert (buffer st' (cubeBuffer st) = buffer st (cubeBuffer st)) as Hold.
  { unfold buffer, st'. cbn [cube]. apply list_lookup_total_insert_ne. lia. }
  split_and!; try done.
  - unfold wf, st'. cbn [cube cubeBuffer rawBuffer motionBlur]. split_and!; try done.
    + lia.
    + by rewrite length_insert.
    + intros l Hl'. apply list_elem_of_lookup in Hl' as [i Hi].
      apply list_lookup_insert_Some in Hi as [(_ & <- & _)|(_ & Hi)].
      * vm_compute. reflexivity.
      * apply Hall. by eapply list_elem_of_lookup_2.
    + lia.
  - intros x y z Hin. unfold raw_cell, st'. cbn [rawBuffer].
    pose proof (index_lt x y z Hin) as Hlt. unfold ncells in Hlt.
    destruct (Hraw (Z.of_nat (index x y z)) ltac:(lia)) as (H0 & H1 & H2).
    rewrite Nat2Z.id in H0, H1, H2. rewrite H0, H1, H2.
    unfold blended, get. rewrite Nat2Z.id. reflexivity.
Qed.

End DisplayUpdate.

(** ** The scenario of the specification *)

Section DisplayScenario.
Import Display.

Lemma one_red_voxel_eq : one_red_voxel = set initial 0 8 8 8 red.
Proof. vm_compute. reflexivity. Qed.

Lemma get_initial buf x y z :
  buf = 0 \/ buf = 1 -> in_lattice x y z -> get initial buf x y z = Color.BLACK.
Proof.
  intros Hbuf Hin. unfold get.
  assert (buffer initial buf = black_buffer) as -> by (destruct Hbuf as [-> | ->]; reflexivity).
  apply list_lookup_total_correct, lookup_replicate_2. by apply index_lt.
Qed.

Lemma get_one_red_voxel buf x y z :
  buf = 0 \/ buf = 1 -> in_lattice x y z ->
  get one_red_voxel buf x y z =
  if decide ((buf, x, y, z) = (0, 8, 8, 8)) then red else Color.BLACK.
Proof.
  intros Hbuf Hin. rewrite one_red_voxel_eq. case_decide as Heq.
  - injection Heq as -> -> -> ->. apply get_set_eq; [apply wf_initial|by left|done].
  - rewrite get_set_ne; [by apply get_initial|apply wf_initial|by left|done| |done|done].
    unfold in_lattice. lia.
Qed.

Lemma wf_with_blur st w : wf st -> Int.is_u8 w -> wf (with_blur st w).
Proof. intros (?&?&?&?&?) Hw. unfold wf, with_blur; simpl. done. Qed.

Lemma wf_one_red_voxel : wf one_red_voxel.
Proof. rewrite one_red_voxel_eq. apply wf_set, wf_initial. Qed.

End DisplayScenario.

(** ** The sphere sweeps *)

Section DisplayRadiate.
Import Display.

Lemma frame_inv_refl st : wf st -> frame_inv st st.
Proof. intros Hwf. unfold frame_inv. done. Qed.

Lemma frame_inv_set st u x y z c :
  frame_inv st u -> frame_inv st (set u (cubeBuffer u) x y z c).
Proof.
  intros (Hwf & Hcb & Hraw & Hblur & Hother). unfold frame_inv.
  split_and!; try done.
  - by apply wf_set.
  - rewrite <- Hother. rewrite Hcb. apply buffer_set_ne.
    all: destruct Hwf as (Hb & _); lia.
Qed.

Lemma in_volume_lattice x y z : in_lattice x y z -> in_volume x y z = true.
Proof.
  intros (Hx & Hy & Hz). unfold in_volume.
  rewrite land3_eqb, !s16_mask by lia.
  rewrite !andb_true_iff, !Z.leb_le, !Z.ltb_lt. lia.
Qed.

Lemma lattice_in_volume x y z :
  Int.is_s16 x -> Int.is_s16 y -> Int.is_s16 z ->
  in_volume x y z = true -> in_lattice x y z.
Proof.
  unfold Int.is_s16, in_volume, in_lattice. intros Hx Hy Hz.
  rewrite land3_eqb, !s16_mask by lia.
  rewrite !andb_true_iff, !Z.leb_le, !Z.ltb_lt. lia.
Qed.

Lemma radiate_cell_inv falloff v c r x y z st u :
  frame_inv st u -> frame_inv st (radiate_cell falloff v c r x y z u).
Proof.
  intros Hu. unfold radiate_cell.
  destruct (in_volume x y z); [|done].
  destruct (F32.ltb _ _); [|done]. by apply frame_inv_set.
Qed.

Lemma radiate_cell_get falloff v c r x y z st u k :
  Int.is_s16 x -> Int.is_s16 y -> Int.is_s16 z ->
  frame_inv st u -> valid3 k ->
  get3 (cubeBuffer st) k (radiate_cell falloff v c r x y z u) =
  if (k.2 =? z) && (((k.1.1 =? x) && (k.1.2 =? y)) && lit v r k)
  then glow falloff v c r k (get3 (cubeBuffer st) k u)
  else get3 (cubeBuffer st) k u.
Proof.
  intros Hx Hy Hz (Hwf & Hcb & _) Hk. destruct k as [[kx ky] kz]. simpl in *.
  unfold radiate_cell. rewrite Hcb.
  assert (cubeBuffer st = 0 \/ cubeBuffer st = 1) as Hb by (destruct Hwf as (Hb & _); lia).
  destruct (in_volume x y z) eqn:Hvol.
  - apply lattice_in_volume in Hvol; [|done..].
    destruct (decide ((kx, ky, kz) = (x, y, z))) as [Heq|Hne].
    + injection Heq as -> -> ->. rewrite !Z.eqb_refl. simpl.
      destruct (F32.ltb _ _); [|done]. by rewrite get_set_eq.
    + assert ((kz =? z) && ((kx =? x) && (ky =? y) && F32.ltb (distance v kx ky kz) r) = false) as ->.
      { destruct (Z.eqb_spec kz z), (Z.eqb_spec kx x), (Z.eqb_spec ky y); simpl; try done.
        subst. done. }
      destruct (F32.ltb _ _); [|done].
      rewrite get_set_ne; try done. congruence.
  - assert ((kz =? z) && ((kx =? x) && (ky =? y) && F32.ltb (distance v kx ky kz) r) = false) as ->; [|done].
    destruct (Z.eqb_spec kz z), (Z.eqb_spec kx x), (Z.eqb_spec ky y); simpl; try done.
    subst. by rewrite (in_volume_lattice x y z) in Hvol.
Qed.

Section Sweep.
Variable falloff : F32.f32 -> F32.f32 -> F32.f32.
Variables (v : Vector3.t) (c : Color.t) (r : F32.f32) (st : t).
Variables (y1 ny z1 nz : Z).
Hypothesis Hy1 : -32768 <= y1. 
Hypothesis Hny : y1 + ny <= 32768.
Hypothesis Hz1 : -32768 <= z1.
Hypothesis Hnz : z1 + nz <= 32768.

Lemma sweep_z x y u :
  Int.is_s16 x -> Int.is_s16 y -> frame_inv st u ->
  frame_inv st (for_range z1 nz (radiate_cell falloff v c r x y) u) /\
  forall k, valid3 k ->
    get3 (cubeBuffer st) k (for_range z1 nz (radiate_cell falloff v c r x y) u) =
    if (k.1.2 =? y) && ((k.1.1 =? x) && (within z1 nz k.2 && lit v r k))
    then glow falloff v c r k (get3 (cubeBuffer st) k u)
    else get3 (cubeBuffer st) k u.
Proof.
  intros Hx Hy Hu.
  destruct (for_range_cellwise (get3 (cubeBuffer st)) valid3 (frame_inv st) snd
              (fun k => ((k.1.1 =? x) && (k.1.2 =? y)) && lit v r k)
              (glow falloff v c r) z1 nz (radiate_cell falloff v c r x y) u) as [Hinv Hget].
  - intros i t _ Ht. by apply radiate_cell_inv.
  - intros i t k Hi Ht Hk. apply radiate_cell_get; try done. unfold Int.is_s16; lia.
  - done.
  - split; [done|]. intros k Hk. rewrite Hget by done. unfold within.
    destruct (k.1.1 =? x), (k.1.2 =? y), (lit v r k), (z1 <=? k.2), (k.2 <? z1 + nz); done.
Qed.

Lemma sweep_y x u :
  Int.is_s16 x -> frame_inv st u ->
  let body := fun y => for_range z1 nz (radiate_cell falloff v c r x y) in
  frame_inv st (for_range y1 ny body u) /\
  forall k, valid3 k ->
    get3 (cubeBuffer st) k (for_range y1 ny body u) =
    if (k.1.1 =? x) && (within y1 ny k.1.2 && (within z1 nz k.2 && lit v r k))
    then glow falloff v c r k (get3 (cubeBuffer st) k u)
    else get3 (cubeBuffer st) k u.
Proof.
  intros Hx Hu body.
  destruct (for_range_cellwise (get3 (cubeBuffer st)) valid3 (frame_inv st) (fun k => k.1.2)
              (fun k => (k.1.1 =? x) && (within z1 nz k.2 && lit v r k))
              (glow falloff v c r) y1 ny body u) as [Hinv Hget].
  - intros i t Hi Ht. apply sweep_z; try done. unfold Int.is_s16; lia.
  - intros i t k Hi Ht Hk. apply sweep_z; try done. unfold Int.is_s16; lia.
  - done.
  - split; [done|]. intros k Hk. rewrite Hget by done. unfold within.
    destruct (k.1.1 =? x), (lit v r k), (z1 <=? k.2), (k.2 <? z1 + nz),
      (y1 <=? k.1.2), (k.1.2 <? y1 + ny); done.
Qed.

Lemma sweep_x x1 nx u :
  -32768 <= x1 -> x1 + nx <= 32768 -> frame_inv st u ->
  let body := fun x => for_range y1 ny (fun y => for_range z1 nz (radiate_cell falloff v c r x y)) in
  frame_inv st (for_range x1 nx body u) /\
  forall k, valid3 k ->
    get3 (cubeBuffer st) k (for_range x1 nx body u) =
    if within x1 nx k.1.1 && (within y1 ny k.1.2 && (within z1 nz k.2 && lit v r k))
    then glow falloff v c r k (get3 (cubeBuffer st) k u)
    else get3 (cubeBuffer st) k u.
Proof.
  intros Hx1 Hnx Hu body.
  destruct (for_range_cellwise (get3 (cubeBuffer st)) valid3 (frame_inv st) (fun k => k.1.1)
              (fun k => within y1 ny k.1.2 && (within z1 nz k.2 && lit v r k))
              (glow falloff v c r) x1 nx body u) as [Hinv Hget].
  - intros i t Hi Ht. apply sweep_y; try done. unfold Int.is_s16; lia.
  - intros i t k Hi Ht Hk. apply sweep_y; try done. unfold Int.is_s16; lia.
  - done.
  - split; [done|]. intros k Hk. rewrite Hget by done. reflexivity.
Qed.

End Sweep.

Lemma to_int16_range x : Int.is_s16 (F32.to_int16 x).
Proof. apply wrap_s16_range. Qed.

Lemma within_le lo hi a : within lo (hi - lo + 1) a = (lo <=? a) && (a <=? hi).
Proof. unfold within. lia. Qed.

(** The sweep, cell by cell: a cell of the lattice is changed exactly
    when it lies in the box and is lit, and then by [glow]; nothing else
    in the state moves. *)
Lemma sweep_pure_spec falloff v c r st :
  wf st ->
  frame_inv st (sweep_pure falloff v c r st) /\
  forall k, valid3 k ->
    get3 (cubeBuffer st) k (sweep_pure falloff v c r st) =
    if in_box (box v r) k && lit v r k
    then glow falloff v c r k (get3 (cubeBuffer st) k st)
    else get3 (cubeBuffer st) k st.
Proof.
  intros Hwf. unfold sweep_pure, box.
  pose proof (to_int16_range (F32.add (F32.sub (Vector3.x v) r) (F32.of_Z 1))) as Hx1.
  pose proof (to_int16_range (F32.add (Vector3.x v) r)) as Hx2.
  pose proof (to_int16_range (F32.add (F32.sub (Vector3.y v) r) (F32.of_Z 1))) as Hy1.
  pose proof (to_int16_range (F32.add (Vector3.y v) r)) as Hy2.
  pose proof (to_int16_range (F32.add (F32.sub (Vector3.z v) r) (F32.of_Z 1))) as Hz1.
  pose proof (to_int16_range (F32.add (Vector3.z v) r)) as Hz2.
  set (x1 := F32.to_int16 _) in *. set (x2 := F32.to_int16 (F32.add (Vector3.x v) r)) in *.
  set (y1 := F32.to_int16 (F32.add (F32.sub (Vector3.y v) r) _)) in *.
  set (y2 := F32.to_int16 (F32.add (Vector3.y v) r)) in *.
  set (z1 := F32.to_int16 (F32.add (F32.sub (Vector3.z v) r) _)) in *.
  set (z2 := F32.to_int16 (F32.add (Vector3.z v) r)) in *.
  unfold Int.is_s16 in *.
  destruct (sweep_x falloff v c r st y1 (y2 - y1 + 1) z1 (z2 - z1 + 1)
              ltac:(lia) ltac:(lia) ltac:(lia) ltac:(lia) x1 (x2 - x1 + 1) st
              ltac:(lia) ltac:(lia) (frame_inv_refl st Hwf)) as [Hinv Hget].
  split; [exact Hinv|]. intros k Hk. rewrite Hget by done.
  rewrite !within_le. unfold in_box. destruct k as [[kx ky] kz]. simpl.
  rewrite <- !andb_assoc. reflexivity.
Qed.

(** *** The loops on fuel against the plain sweep *)

Lemma sweep_Some falloff fuel v0 c r st st' :
  sweep falloff fuel v0 c r st = Some st' ->
  st' = sweep_pure falloff (Vector3.add v0 (Vector3.mk CX CY CZ)) c r st.
Proof.
  unfold sweep, sweep_pure, box. cbv zeta.
  set (v := Vector3.add v0 _).
  intros Hrun.
  eapply for_s16_Some; [ |apply to_int16_range|apply to_int16_range|exact Hrun].
  intros x t t' Hx Hy. cbv beta in Hy.
  eapply for_s16_Some; [ |apply to_int16_range|apply to_int16_range|exact Hy].
  intros y u u' Hy' Hz. cbv beta in Hz.
  eapply for_s16_Some; [ |apply to_int16_range|apply to_int16_range|exact Hz].
  intros z w w' _ Hw. cbv beta in Hw. by injection Hw as <-.
Qed.

Lemma sweep_total falloff fuel v0 c r st :
  enough_fuel (box (Vector3.add v0 (Vector3.mk CX CY CZ)) r) fuel ->
  sweep falloff fuel v0 c r st =
  Some (sweep_pure falloff (Vector3.add v0 (Vector3.mk CX CY CZ)) c r st).
Proof.
  unfold sweep, sweep_pure, enough_fuel, box. cbv zeta.
  set (v := Vector3.add v0 _).
  intros ((Hx2 & Hy2 & Hz2) & Hfx & Hfy & Hfz).
  apply for_s16_pure; [ |apply to_int16_range|done|done].
  intros x t Hx.
  apply for_s16_pure; [ |apply to_int16_range|done|done].
  intros y u Hy.
  apply for_s16_pure; [ |apply to_int16_range|done|done].
  done.
Qed.

(** *** The falloff at the centre *)

Lemma falloff_linear_zero s r :
  F32.ltb (S754_zero s) r = true ->
  F32.to_uint8 (falloff_linear (S754_zero s) r) = 255.
Proof.
  intros Hlt. unfold falloff_linear.
  destruct r as [sr|sr| |sr m e]; try (destruct sr); try discriminate Hlt.
  - reflexivity.
  - reflexivity.
Qed.

Lemma scale8_255 a : 0 <= a < 256 -> Color.scale8 255 a = a.
Proof. intros Ha. unfold Color.scale8. rewrite Z.div_mul by lia. lia. Qed.

Lemma scaled_255 c : Color.wf c -> Color.scaled c 255 = c.
Proof.
  destruct c as [r g b]. unfold Color.wf, Int.is_u8; simpl. intros (Hr & Hg & Hb).
  unfold Color.scaled; simpl. by rewrite !scale8_255.
Qed.

(** *** C3 and C4: [radiate] and [radiate5] *)

Lemma sweep_cells falloff fuel v0 c r st st' :
  wf st -> sweep falloff fuel v0 c r st = Some st' ->
  let v := Vector3.add v0 (Vector3.mk CX CY CZ) in
  frame_inv st st' /\
  forall x y z, in_lattice x y z ->
    get st' (cubeBuffer st) x y z =
    if in_box (box v r) (x, y, z) && F32.ltb (distance v x y z) r
    then Color.maximize (get st (cubeBuffer st) x y z)
           (Color.scaled c (F32.to_uint8 (falloff (distance v x y z) r)))
    else get st (cubeBuffer st) x y z.
Proof.
  intros Hwf Hrun v. apply sweep_Some in Hrun. subst st'. fold v.
  destruct (sweep_pure_spec falloff v c r st Hwf) as [Hinv Hget].
  split; [exact Hinv|]. intros x y z Hin. exact (Hget (x, y, z) Hin).
Qed.

(** C3 (amended). [radiate] sweeps the box
    [trunc(v - r + 1) .. trunc(v + r)] on each axis, [v] being the centre
    plus 7.5. Whenever the box bounds stay below 32767 and the fuel
    covers the box, the call returns. On return, a cell of the lattice
    that lies in the box and whose computed distance [d] is below [r]
    is the per-channel maximum of what it held and [c] scaled by the
    8-bit factor [255 * (1 - d / r)]; every other cell, the other
    buffer, the selector and the raw frame are unchanged. At distance 0
    the incoming colour is [c] itself. *)
Theorem radiate_glow (fuel : nat) (v0 : Vector3.t) (c : Color.t) (r : F32.f32)
    (st : Display.t) :
  Display.wf st ->
  let v := Vector3.add v0 (Vector3.mk Display.CX Display.CY Display.CZ) in
  (enough_fuel (Display.box v r) fuel ->
     exists st', Display.radiate fuel v0 c r st = Some st') /\
  (forall st', Display.radiate fuel v0 c r st = Some st' ->
     frame_inv st st' /\
     forall x y z, in_lattice x y z ->
       Display.get st' (Display.cubeBuffer st) x y z =
       if in_box (Display.box v r) (x, y, z) && F32.ltb (Display.distance v x y z) r
       then Color.maximize (Display.get st (Display.cubeBuffer st) x y z)
              (Color.scaled c
                 (F32.to_uint8 (Display.falloff_linear (Display.distance v x y z) r)))
       else Display.get st (Display.cubeBuffer st) x y z) /\
  (forall x y z s,
     Color.wf c -> Display.distance v x y z = S754_zero s ->
     F32.ltb (Display.distance v x y z) r = true ->
     Color.scaled c (F32.to_uint8 (Display.falloff_linear (Display.distance v x y z) r)) = c).
Proof.
  intros Hwf v. split_and!.
  - intros Hfuel. eexists. by apply sweep_total.
  - intros st' Hrun. by apply (sweep_cells falloff_linear fuel v0 c r st st').
  - intros x y z s Hc Hd Hlt. rewrite Hd in *.
    rewrite falloff_linear_zero by done. by apply scaled_255.
Qed.

Lemma radiate_glow_witness :
  exists st', Display.radiate 10 half3 amber (F32.of_Z 2) Display.initial = Some st' /\
    Display.get st' (Display.cubeBuffer Display.initial) 8 8 8 = amber /\
    Display.get st' (Display.cubeBuffer Display.initial) 10 8 8 = Color.BLACK.
Proof.
  destruct (radiate_glow 10 half3 amber (F32.of_Z 2) Display.initial wf_initial)
    as (Hret & Hcells & _).
  assert (enough_fuel (box centre8 (F32.of_Z 2)) 10) as Hfuel.
  { replace (box centre8 (F32.of_Z 2)) with (7, 10, 7, 10, 7, 10) by (vm_compute; reflexivity).
    unfold enough_fuel. lia. }
  destruct (Hret Hfuel) as [st' Hst'].
  exists st'. split; [exact Hst'|].
  destruct (Hcells st' Hst') as [_ Hget]. split.
  - rewrite (Hget 8 8 8) by (unfold in_lattice; lia). vm_compute. reflexivity.
  - rewrite (Hget 10 8 8) by (unfold in_lattice; lia). vm_compute. reflexivity.
Defined.

(** C3, as stated, fails. With the centre on the lattice point
    [(8, 8, 8)] and radius 2 the swept box is [7 .. 10] on each axis:
    its face [x = 10] holds no lit point (not minimal), and the point
    [(6, 8, 8)] at distance exactly 2 is outside it. With radius 40000
    the 16-bit box bounds wrap to an empty box: the call returns the
    volume unchanged although the centre cell is lit. *)
Lemma radiate_box_not_minimal :
  Display.box centre8 (F32.of_Z 2) = (7, 10, 7, 10, 7, 10) /\
  minimal_box centre8 (F32.of_Z 2) = false /\
  Display.distance centre8 6 8 8 = F32.of_Z 2 /\
  Display.radiate 10 half3 amber (F32.of_Z 40000) Display.initial = Some Display.initial /\
  lit centre8 (F32.of_Z 40000) (8, 8, 8) = true.
Proof. vm_compute. repeat split; reflexivity. Qed.

Lemma falloff_5_zero s r : F32.to_uint8 (falloff_5 (S754_zero s) r) = 255.
Proof. destruct s; reflexivity. Qed.

(** C4 (amended). [radiate5] sweeps the same box as [radiate] and returns
    under the same conditions. On return, a cell of the lattice that
    lies in the box and whose computed distance [d] is below [r] is the
    per-channel maximum of what it held and [c] scaled by the 8-bit
    factor [255 / (1 + d^5)] over 255; every other cell, the other
    buffer, the selector and the raw frame are unchanged. At distance 0
    the incoming colour is [c] itself. *)
Theorem radiate5_glow (fuel : nat) (v0 : Vector3.t) (c : Color.t) (r : F32.f32)
    (st : Display.t) :
  Display.wf st ->
  let v := Vector3.add v0 (Vector3.mk Display.CX Display.CY Display.CZ) in
  (enough_fuel (Display.box v r) fuel ->
     exists st', Display.radiate5 fuel v0 c r st = Some st') /\
  (forall st', Display.radiate5 fuel v0 c r st = Some st' ->
     frame_inv st st' /\
     forall x y z, in_lattice x y z ->
       Display.get st' (Display.cubeBuffer st) x y z =
       if in_box (Display.box v r) (x, y, z) && F32.ltb (Display.distance v x y z) r
       then Color.maximize (Display.get st (Display.cubeBuffer st) x y z)
              (Color.scaled c
                 (F32.to_uint8 (Display.falloff_5 (Display.distance v x y z) r)))
       else Display.get st (Display.cubeBuffer st) x y z) /\
  (forall x y z s,
     Color.wf c -> Display.distance v x y z = S754_zero s ->
     Color.scaled c (F32.to_uint8 (Display.falloff_5 (Display.distance v x y z) r)) = c).
Proof.
  intros Hwf v. split_and!.
  - intros Hfuel. eexists. by apply sweep_total.
  - intros st' Hrun. by apply (sweep_cells falloff_5 fuel v0 c r st st').
  - intros x y z s Hc Hd. rewrite Hd.
    rewrite falloff_5_zero. by apply scaled_255.
Qed.

Lemma radiate5_glow_witness :
  exists st', Display.radiate5 10 half3 amber (F32.of_Z 2) Display.initial = Some st' /\
    Display.get st' (Display.cubeBuffer Display.initial) 8 8 8 = amber /\
    Display.get st' (Display.cubeBuffer Display.initial) 9 8 8 = Color.mk 4 9 14.
Proof.
  destruct (radiate5_glow 10 half3 amber (F32.of_Z 2) Display.initial wf_initial)
    as (Hret & Hcells & _).
  assert (enough_fuel (box centre8 (F32.of_Z 2)) 10) as Hfuel.
  { replace (box centre8 (F32.of_Z 2)) with (7, 10, 7, 10, 7, 10) by (vm_compute; reflexivity).
    unfold enough_fuel. lia. }
  destruct (Hret Hfuel) as [st' Hst'].
  exists st'. split; [exact Hst'|].
  destruct (Hcells st' Hst') as [_ Hget]. split.
  - rewrite (Hget 8 8 8) by (unfold in_lattice; lia). vm_compute. reflexivity.
  - rewrite (Hget 9 8 8) by (unfold in_lattice; lia). vm_compute. reflexivity.
Defined.

(** C4, as stated, fails. On the black volume, [radiate5] centred on the
    lattice point [(8, 8, 8)] leaves [amber] itself in that cell (distance
    0), where "C * 255 / (1 + d^5)" is white; and with radius 40000 the
    call returns the volume unchanged although the centre cell is lit. *)
Lemma radiate5_intensity_not_times_255 :
  (exists st', Display.radiate5 10 half3 amber (F32.of_Z 2) Display.initial = Some st' /\
     Display.get st' 0 8 8 8 = amber) /\
  claimed_intensity5 amber (Display.distance centre8 8 8 8) = Color.mk 255 255 255 /\
  Display.radiate5 10 half3 amber (F32.of_Z 40000) Display.initial = Some Display.initial /\
  lit centre8 (F32.of_Z 40000) (8, 8, 8) = true.
Proof.
  split; [|vm_compute; repeat split; reflexivity].
  eexists. split; [vm_compute; reflexivity|]. vm_compute. reflexivity.
Qed.

End DisplayRadiate.

(** ** The client calls of one frame *)

Section DisplayFrame.
Import Display.

Lemma frame_inv_trans st u w : frame_inv st u -> frame_inv u w -> frame_inv st w.
Proof.
  intros (H1 & H2 & H3 & H4 & H5) (K1 & K2 & K3 & K4 & K5). unfold frame_inv.
  split_and!; congruence.
Qed.

Lemma draw_one_frame d st st' :
  wf st -> draw_one d st = Some st' -> frame_inv st st'.
Proof.
  intros Hwf Hd. pose proof (frame_inv_refl st Hwf) as Hrefl.
  destruct d as [x y z c|v c|v c|fuel v c r|fuel v c r]; simpl in Hd.
  - injection Hd as <-. unfold voxel. destruct (_ =? 0); [|done]. by apply frame_inv_set.
  - injection Hd as <-. unfold voxel_v. destruct (in_volume _ _ _); [|done].
    by apply frame_inv_set.
  - injection Hd as <-. unfold voxel_add. destruct (in_volume _ _ _); [|done].
    by apply frame_inv_set.
  - by apply (sweep_cells falloff_linear fuel v c r st st').
  - by apply (sweep_cells falloff_5 fuel v c r st st').
Qed.

Lemma draw_all_frame ds st st' :
  wf st -> draw_all ds st = Some st' -> frame_inv st st'.
Proof.
  revert st. induction ds as [|d ds IH]; intros st Hwf Hrun; simpl in Hrun.
  - injection Hrun as <-. by apply frame_inv_refl.
  - destruct (draw_one d st) as [u|] eqn:Hd; [|done].
    apply draw_one_frame in Hd; [|done].
    eapply frame_inv_trans; [exact Hd|]. apply IH; [|done]. by destruct Hd.
Qed.

Lemma get_black st buf x y z :
  buffer st buf = black_buffer -> in_lattice x y z -> get st buf x y z = Color.BLACK.
Proof.
  intros Hb Hin. unfold get. rewrite Hb. unfold black_buffer.
  apply lookup_total_replicate_2. by apply index_lt.
Qed.

(** ** C5: the blend at its endpoint weights *)

(** C5 (amended). The frame advance is exact at both ends of the blur
    weight. At 0 the raw frame is, cell by cell and byte by byte, the
    write buffer as it stood before the advance. At 255 it is the other
    cube buffer, in every cell, whether the client wrote the cell in
    this frame or not: what the client drew in the frame before, and
    nothing of what it drew in this one. Whatever the client draws after
    an advance, the next advance at weight 255 shows the frame drawn
    before the first. The raw frame itself is not kept from one advance
    to the next. From the empty volume, one red voxel at the world
    origin followed by an advance at weight 0 gives a raw frame that is
    [(255,0,0)] at the centre cell [(8,8,8)] and black elsewhere. *)
Theorem advance_blend_endpoints (st : Display.t) (x y z : Z) :
  Display.wf st -> in_lattice x y z ->
  (Display.motionBlur st = 0 ->
     Display.raw_cell (Display.update st) x y z =
     Color.bytes (Display.get st (Display.cubeBuffer st) x y z)) /\
  (Display.motionBlur st = 255 ->
     Display.raw_cell (Display.update st) x y z =
     Color.bytes (Display.get st (1 - Display.cubeBuffer st) x y z)) /\
  (Display.motionBlur st = 255 ->
     forall ds st2, draw_all ds (Display.update st) = Some st2 ->
       Display.raw_cell (Display.update st2) x y z =
       Color.bytes (Display.get st (Display.cubeBuffer st) x y z)) /\
  Display.raw_cell (Display.update (Display.with_blur one_red_voxel 0)) x y z =
    (if decide ((x, y, z) = (8, 8, 8)) then [255; 0; 0] else [0; 0; 0]).
Proof.
  intros Hwf Hin. split_and!.
  - intros Hb. destruct (update_spec st Hwf) as (_ & _ & _ & _ & _ & Hraw).
    rewrite Hraw by done. rewrite Hb. by rewrite blend_0.
  - intros Hb. destruct (update_spec st Hwf) as (_ & _ & _ & _ & _ & Hraw).
    rewrite Hraw by done. rewrite Hb. by rewrite blend_255.
  - intros Hb ds st2 Hrun.
    destruct (update_spec st Hwf) as (Hcb & Hblur & _ & Hold & Hwf1 & _).
    apply draw_all_frame in Hrun; [|exact Hwf1].
    destruct Hrun as (Hwf2 & Hcb2 & _ & Hblur2 & Hother).
    destruct (update_spec st2 Hwf2) as (_ & _ & _ & _ & _ & Hraw2).
    rewrite Hraw2 by exact Hin. rewrite Hblur2, Hblur, Hb, blend_255.
    unfold get. rewrite Hcb2. rewrite Hother, Hcb.
    replace (1 - (1 - cubeBuffer st)) with (cubeBuffer st) by lia.
    rewrite Hold. reflexivity.
  - assert (wf (with_blur one_red_voxel 0)) as Hwf'.
    { apply wf_with_blur; [apply wf_one_red_voxel|unfold Int.is_u8; lia]. }
    destruct (update_spec _ Hwf') as (_ & _ & _ & _ & _ & Hraw).
    rewrite Hraw by done. cbn [motionBlur with_blur]. rewrite blend_0.
    change (get (with_blur one_red_voxel 0) (cubeBuffer (with_blur one_red_voxel 0)) x y z)
      with (get one_red_voxel 0 x y z).
    rewrite get_one_red_voxel by (done || by left).
    repeat case_decide; try reflexivity; congruence.
Qed.

Lemma advance_blend_endpoints_witness :
  Display.raw_cell (Display.update (Display.with_blur one_red_voxel 0)) 8 8 8 = [255; 0; 0] /\
  Display.raw_cell (Display.update (Display.with_blur one_red_voxel 255)) 8 8 8 = [0; 0; 0].
Proof.
  assert (in_lattice 8 8 8) as Hin by (unfold in_lattice; lia).
  split.
  - assert (wf (with_blur one_red_voxel 0)) as Hwf by (apply wfb_wf; vm_compute; reflexivity).
    destruct (advance_blend_endpoints _ 8 8 8 Hwf Hin) as (H0 & _ & _).
    rewrite H0 by reflexivity. vm_compute. reflexivity.
  - assert (wf (with_blur one_red_voxel 255)) as Hwf by (apply wfb_wf; vm_compute; reflexivity).
    destruct (advance_blend_endpoints _ 8 8 8 Hwf Hin) as (_ & H255 & _).
    rewrite H255 by reflexivity. vm_compute. reflexivity.
Defined.

(** C5, as stated, fails at weight 255: the raw frame does not retain
    the previous frame's contents in the cells the client leaves alone.
    One red voxel is drawn at the origin and the frame is advanced three
    times at weight 255 with nothing drawn in between: the centre cell
    of the raw frame is black after the first advance, red after the
    second and black again after the third, although the client touched
    no cell in the second and third frames. *)
Lemma full_blur_does_not_retain :
  Display.motionBlur (Display.with_blur one_red_voxel 255) = 255 /\
  Display.raw_cell (Display.update (Display.with_blur one_red_voxel 255)) 8 8 8
    = [0; 0; 0] /\
  Display.raw_cell (Display.update (Display.update (Display.with_blur one_red_voxel 255)))
    8 8 8 = [255; 0; 0] /\
  Display.raw_cell
    (Display.update (Display.update (Display.update (Display.with_blur one_red_voxel 255))))
    8 8 8 = [0; 0; 0].
Proof.
  set (st := with_blur one_red_voxel 255).
  assert (in_lattice 8 8 8) as Hin by (unfold in_lattice; lia).
  assert (wf st) as Hwf.
  { apply wf_with_blur; [apply wf_one_red_voxel|unfold Int.is_u8; lia]. }
  destruct (update_spec st Hwf) as (Hcb1 & Hblur1 & Hnew1 & Hold1 & Hwf1 & Hraw1).
  destruct (update_spec _ Hwf1) as (Hcb2 & Hblur2 & _ & Hold2 & Hwf2 & Hraw2).
  destruct (update_spec _ Hwf2) as (_ & _ & _ & _ & _ & Hraw3).
  change (cubeBuffer st) with 0 in *. change (motionBlur st) with 255 in *.
  rewrite Hcb1 in Hcb2, Hold2, Hraw2. rewrite Hcb2 in Hraw3.
  rewrite Hblur1 in Hblur2, Hraw2. rewrite Hblur2 in Hraw3.
  change (1 - (1 - 0)) with 0 in *. change (1 - 0) with 1 in *.
  split; [reflexivity|]. split; [|split].
  - rewrite (Hraw1 8 8 8 Hin), blend_255.
    change (get st 1 8 8 8) with (get one_red_voxel 1 8 8 8).
    rewrite get_one_red_voxel by (exact Hin || by right). reflexivity.
  - rewrite (Hraw2 8 8 8 Hin), blend_255. unfold get. rewrite Hold1.
    change (Color.bytes (get one_red_voxel 0 8 8 8) = [255; 0; 0]).
    rewrite get_one_red_voxel by (exact Hin || by left). reflexivity.
  - rewrite (Hraw3 8 8 8 Hin), blend_255.
    rewrite (get_black _ 1 8 8 8) by (exact Hin || (rewrite Hold2; exact Hnew1)).
    reflexivity.
Qed.

(** ** C6: what a frame advance leaves in the two buffers *)

(** C6 (amended). After [Display::update] the selector has flipped, the
    newly selected write buffer is black throughout, and the other
    buffer holds the write buffer of the frame just shown exactly as the
    client left it, unblended; the blended frame exists only in the raw
    frame. Whatever sequence of [voxel], [voxel_add], [radiate] and
    [radiate5] calls follows, that other buffer and the selector stay
    as they are. *)
Theorem advance_rotates_buffers (st : Display.t) :
  Display.wf st ->
  Display.cubeBuffer (Display.update st) = 1 - Display.cubeBuffer st /\
  Display.wf (Display.update st) /\
  Display.buffer (Display.update st) (Display.cubeBuffer (Display.update st))
    = Display.black_buffer /\
  Display.buffer (Display.update st) (1 - Display.cubeBuffer (Display.update st))
    = Display.buffer st (Display.cubeBuffer st) /\
  (forall x y z, in_lattice x y z ->
     Display.raw_cell (Display.update st) x y z =
     Color.bytes (Color.blend (Display.motionBlur st)
                    (Display.get st (Display.cubeBuffer st) x y z)
                    (Display.get st (1 - Display.cubeBuffer st) x y z))) /\
  (forall ds st', draw_all ds (Display.update st) = Some st' ->
     Display.cubeBuffer st' = Display.cubeBuffer (Display.update st) /\
     Display.buffer st' (1 - Display.cubeBuffer (Display.update st))
       = Display.buffer st (Display.cubeBuffer st)).
Proof.
  intros Hwf.
  destruct (update_spec st Hwf) as (Hcb & Hblur & Hnew & Hold & Hwf' & Hraw).
  rewrite Hcb. replace (1 - (1 - cubeBuffer st)) with (cubeBuffer st) by lia.
  split_and!; [reflexivity|exact Hwf'|exact Hnew|exact Hold|exact Hraw|].
  intros ds st' Hrun. apply draw_all_frame in Hrun; [|done].
  destruct Hrun as (_ & Hcb' & _ & _ & Hother).
  rewrite Hcb in Hcb', Hother.
  replace (1 - (1 - cubeBuffer st)) with (cubeBuffer st) in Hother by lia.
  split; [exact Hcb'|]. rewrite Hother. exact Hold.
Qed.

Lemma advance_rotates_buffers_witness :
  Display.cubeBuffer (Display.update one_red_voxel) = 1 /\
  Display.buffer (Display.update one_red_voxel) 1 = Display.black_buffer.
Proof.
  destruct (advance_rotates_buffers one_red_voxel wf_one_red_voxel)
    as (Hcb & _ & Hnew & _).
  rewrite Hcb in Hnew. split; [exact Hcb|exact Hnew].
Defined.

(** C6, as stated, fails: after one red voxel at the origin and an
    advance at the default blur 64, the centre cell of the non-current
    buffer is still [(255,0,0)] while the raw frame shows the blended
    [(191,0,0)]. *)
Lemma previous_buffer_is_not_the_blended_frame :
  Display.motionBlur one_red_voxel = 64 /\
  Color.bytes (Display.get (Display.update one_red_voxel)
                 (1 - Display.cubeBuffer (Display.update one_red_voxel)) 8 8 8)
    = [255; 0; 0] /\
  Display.raw_cell (Display.update one_red_voxel) 8 8 8 = [191; 0; 0].
Proof.
  destruct (update_spec one_red_voxel wf_one_red_voxel)
    as (Hcb & _ & _ & Hold & _ & Hraw).
  split; [reflexivity|]. split.
  - rewrite Hcb. unfold get.
    replace (1 - (1 - cubeBuffer one_red_voxel)) with (cubeBuffer one_red_voxel) by lia.
    rewrite Hold. change (Color.bytes (get one_red_voxel 0 8 8 8) = [255; 0; 0]).
    rewrite get_one_red_voxel by (unfold in_lattice; lia). reflexivity.
  - rewrite Hraw by (unfold in_lattice; lia).
    change (cubeBuffer one_red_voxel) with 0. change (motionBlur one_red_voxel) with 64.
    rewrite !get_one_red_voxel by (unfold in_lattice; lia). reflexivity.
Qed.

(** ** C2: the world-coordinate write *)

Lemma all_from_spec P lo n :
  all_from P lo n = true -> forall k, lo <= k < lo + Z.of_nat n -> P k = true.
Proof.
  revert lo. induction n as [|n IH]; intros lo H k Hk; [lia|].
  simpl in H. apply andb_true_iff in H as [H0 H1].
  destruct (decide (k = lo)) as [->|Hne]; [done|].
  apply (IH (lo + 1)); [done|lia].
Qed.

Lemma grid_checked : all_from grid_check (-4096) (Z.to_nat 8193) = true.
Proof. vm_compute. reflexivity. Qed.

(** C2 (amended). [voxel(v, c)] computes each lattice coordinate as
    [trunc((t + 32768.5f) + 7.5f) - 32768], in single precision and kept
    in 16 bits. If the three coordinates lie in [0,16) it writes [c]
    into that cell of the current write buffer and changes nothing else;
    otherwise it changes nothing at all. For a component [k/256] with
    [-16 <= k/256 <= 16] the coordinate is that component plus 7.5
    rounded to the nearest integer, halves upward. *)
Theorem voxel_v_write (v : Vector3.t) (c : Color.t) (st : Display.t) :
  Display.wf st ->
  let x := Display.lattice (Vector3.x v) Display.CX in
  let y := Display.lattice (Vector3.y v) Display.CY in
  let z := Display.lattice (Vector3.z v) Display.CZ in
  (in_lattice x y z ->
     Display.get (Display.voxel_v v c st) (Display.cubeBuffer st) x y z = c /\
     (forall buf x' y' z',
        buf = 0 \/ buf = 1 -> in_lattice x' y' z' ->
        (buf, x', y', z') <> (Display.cubeBuffer st, x, y, z) ->
        Display.get (Display.voxel_v v c st) buf x' y' z' = Display.get st buf x' y' z') /\
     frame_inv st (Display.voxel_v v c st)) /\
  (~ in_lattice x y z -> Display.voxel_v v c st = st) /\
  (forall k, -4096 <= k <= 4096 ->
     Display.lattice (F32.of_scaled k (-8)) Display.CX = (k + 2048) / 256 /\
     nearest_cell (F32.of_scaled k (-8)) = Some ((k + 2048) / 256)).
Proof.
  intros Hwf x y z.
  assert (Int.is_s16 x /\ Int.is_s16 y /\ Int.is_s16 z) as (Hx & Hy & Hz)
    by (split_and!; apply wrap_s16_range).
  pose proof Hwf as (Hb & _).
  split_and!.
  - intros Hin. unfold voxel_v. fold x y z.
    rewrite (in_volume_lattice x y z Hin). split_and!.
    + by apply get_set_eq.
    + intros buf x' y' z' Hbuf Hin' Hne. by apply get_set_ne.
    + apply frame_inv_set. by apply frame_inv_refl.
  - intros Hout. unfold voxel_v. fold x y z.
    destruct (in_volume x y z) eqn:Hvol; [|reflexivity].
    exfalso. apply Hout. by apply lattice_in_volume.
  - intros k Hk.
    pose proof (all_from_spec _ _ _ grid_checked k) as Hc.
    rewrite Z2Nat.id in Hc by lia. specialize (Hc ltac:(lia)).
    unfold grid_check in Hc. apply andb_true_iff in Hc as [H1 H2].
    apply Z.eqb_eq in H1. split; [exact H1|].
    destruct (nearest_cell _) as [n|]; [|discriminate].
    apply Z.eqb_eq in H2. by rewrite H2.
Qed.

Lemma voxel_v_write_witness :
  Display.get (Display.voxel_v origin red Display.initial)
    (Display.cubeBuffer Display.initial)
    (Display.lattice (Vector3.x origin) Display.CX)
    (Display.lattice (Vector3.y origin) Display.CY)
    (Display.lattice (Vector3.z origin) Display.CZ) = red.
Proof.
  destruct (voxel_v_write origin red Display.initial wf_initial) as (Hin & _).
  apply Hin. vm_compute. repeat split; discriminate.
Defined.

(** C2, as stated, fails. The component [-1/1024] plus 7.5 is 7.499...,
    whose nearest integer is 7, but the single-precision sum with
    32768.5 rounds up and the voxel lands in cell 8; and the component
    65536, far outside the volume, wraps in 16 bits onto cell 8 as
    well, so the call writes instead of being dropped. *)
Lemma voxel_v_not_nearest :
  F32.of_scaled (-1) (-10) = S754_finite true 8388608 (-33) /\
  nearest_cell (F32.of_scaled (-1) (-10)) = Some 7 /\
  Display.lattice (F32.of_scaled (-1) (-10)) Display.CX = 8 /\
  Display.voxel_v (Vector3.mk (F32.of_scaled (-1) (-10)) (F32.of_Z 0) (F32.of_Z 0)) red
      Display.initial
    = Display.set Display.initial 0 8 8 8 red /\
  nearest_cell (F32.of_Z 65536) = Some 65544 /\
  Display.voxel_v (Vector3.mk (F32.of_Z 65536) (F32.of_Z 0) (F32.of_Z 0)) red Display.initial
    = Display.set Display.initial 0 8 8 8 red.
Proof. vm_compute. repeat split; reflexivity. Qed.

End DisplayFrame.

(** * The automaton *)

Section LifeNeighbours.
Import Life.

(** ** C7: the toroidal neighbour count *)

Lemma for_range_3 {S : Type} lo (body : Z -> S -> S) s :
  for_range lo 3 body s = body (lo + 2) (body (lo + 1) (body lo s)).
Proof.
  rewrite (for_range_cons lo 3) by lia. rewrite (for_range_cons (lo + 1)) by lia.
  rewrite (for_range_cons (lo + 1 + 1)) by lia. rewrite for_range_nil by lia.
  by replace (lo + 1 + 1) with (lo + 2) by lia.
Qed.

Lemma land_bit c k : 0 <= k -> Z.land c (Z.shiftl 1 k) = if Z.testbit c k then 2 ^ k else 0.
Proof.
  intros Hk. apply Z.bits_inj'. intros n Hn.
  rewrite Z.land_spec, Z.shiftl_spec by lia.
  destruct (decide (n = k)) as [->|Hne].
  - rewrite Z.sub_diag. change (Z.testbit 1 0) with true. rewrite andb_true_r.
    destruct (Z.testbit c k) eqn:E; [by rewrite Z.pow2_bits_true|by rewrite Z.bits_0].
  - assert (Z.testbit 1 (n - k) = false) as ->.
    { destruct (Z_lt_le_dec (n - k) 0); [by rewrite Z.testbit_neg_r|].
      rewrite <- (Z.pow_0_r 2). apply Z.pow2_bits_false. lia. }
    rewrite andb_false_r.
    destruct (Z.testbit c k); [by rewrite Z.pow2_bits_false by lia|by rewrite Z.bits_0].
Qed.

Lemma cell_test c k :
  negb (Int.wrap_u16 (Z.land c (Z.shiftl 1 (Z.land k 0xF))) =? 0) = Z.testbit c (k mod 16).
Proof.
  change 0xF with (Z.ones 4). rewrite Z.land_ones by lia. change (2 ^ 4) with 16.
  pose proof (Z.mod_pos_bound k 16 ltac:(lia)) as Hk.
  rewrite land_bit by lia. unfold Int.wrap_u16.
  destruct (Z.testbit c (k mod 16)); [|reflexivity].
  assert (0 < 2 ^ (k mod 16) < 65536) as Hp.
  { split; [apply Z.pow_pos_nonneg; lia|].
    change 65536 with (2 ^ 16). apply Z.pow_lt_mono_r; lia. }
  rewrite Z.mod_small by lia. apply negb_true_iff, Z.eqb_neq. lia.
Qed.

Lemma block_eq :
  block = [(-1,-1,-1); (-1,-1,0); (-1,-1,1); (-1,0,-1); (-1,0,0); (-1,0,1);
           (-1,1,-1); (-1,1,0); (-1,1,1);
           (0,-1,-1); (0,-1,0); (0,-1,1); (0,0,-1); (0,0,0); (0,0,1);
           (0,1,-1); (0,1,0); (0,1,1);
           (1,-1,-1); (1,-1,0); (1,-1,1); (1,0,-1); (1,0,0); (1,0,1);
           (1,1,-1); (1,1,0); (1,1,1)].
Proof. reflexivity. Qed.

Lemma count_neighbours_fold st x y z :
  count_neighbours st x y z =
  foldl (fun n d => bump (negb (is_centre d) &&
                          alive (cells_g1 st) (x + d.1.1) (y + d.1.2) (z + d.2)) n) 0 block.
Proof.
  change (count_neighbours st x y z) with
    (for_range (x - 1) 3 (fun x' =>
       for_range (y - 1) 3 (fun y' n =>
         for_range (z - 1) 3 (fun z' =>
           bump (negb ((x' =? x) && (y' =? y) && (z' =? z)) &&
                 negb (Int.wrap_u16 (Z.land (at2 (cells_g1 st) (Z.land x' 0xF) (Z.land y' 0xF))
                                            (Z.shiftl 1 (Z.land z' 0xF))) =? 0))) n)) 0).
  rewrite for_range_3. cbv beta.
  rewrite !(for_range_3 (y - 1)). cbv beta.
  rewrite !(for_range_3 (z - 1)). cbv beta.
  rewrite !cell_test.
  change 0xF with (Z.ones 4). rewrite !Z.land_ones by lia. change (2 ^ 4) with 16.
  rewrite block_eq. cbn [foldl]. unfold alive, is_centre. cbn [fst snd].
  change (-1 =? 0) with false. change (0 =? 0) with true. change (1 =? 0) with false.
  cbn [negb andb].
  replace (x - 1 + 1) with x by lia. replace (x - 1 + 2) with (x + 1) by lia.
  replace (y - 1 + 1) with y by lia. replace (y - 1 + 2) with (y + 1) by lia.
  replace (z - 1 + 1) with z by lia. replace (z - 1 + 2) with (z + 1) by lia.
  replace (x + -1) with (x - 1) by lia. replace (y + -1) with (y - 1) by lia.
  replace (z + -1) with (z - 1) by lia. rewrite !Z.add_0_r.
  rewrite !Z.eqb_refl.
  assert ((x - 1 =? x) = false) as -> by lia. assert ((x + 1 =? x) = false) as -> by lia.
  assert ((y - 1 =? y) = false) as -> by lia. assert ((y + 1 =? y) = false) as -> by lia.
  assert ((z - 1 =? z) = false) as -> by lia. assert ((z + 1 =? z) = false) as -> by lia.
  cbn [negb andb]. reflexivity.
Qed.

Lemma foldl_bump {K : Type} (P : K -> bool) (l : list K) n :
  0 <= n -> n + Z.of_nat (length l) < 65536 ->
  foldl (fun n d => bump (P d) n) n l = n + Z.of_nat (length (List.filter P l)).
Proof.
  revert n. induction l as [|d l IH]; intros n Hn Hlen; simpl in *; [lia|].
  unfold bump at 2. destruct (P d); simpl.
  - unfold Int.wrap_u16. rewrite Z.mod_small by lia. rewrite IH by lia. lia.
  - apply IH; lia.
Qed.

Lemma filter_andb {K : Type} (P Q : K -> bool) (l : list K) :
  List.filter (fun d => P d && Q d) l = List.filter Q (List.filter P l).
Proof.
  induction l as [|d l IH]; simpl; [done|].
  destruct (P d); simpl; [destruct (Q d)|]; by rewrite IH.
Qed.

Lemma filter_length_le {K : Type} (P : K -> bool) (l : list K) :
  (length (List.filter P l) <= length l)%nat.
Proof. induction l as [|d l IH]; simpl; [lia|]. destruct (P d); simpl; lia. Qed.

Lemma neighbourhood_eq :
  neighbourhood =
    [(-1,-1,-1); (-1,-1,0); (-1,-1,1); (-1,0,-1); (-1,0,0); (-1,0,1);
     (-1,1,-1); (-1,1,0); (-1,1,1);
     (0,-1,-1); (0,-1,0); (0,-1,1); (0,0,-1); (0,0,1);
     (0,1,-1); (0,1,0); (0,1,1);
     (1,-1,-1); (1,-1,0); (1,-1,1); (1,0,-1); (1,0,0); (1,0,1);
     (1,1,-1); (1,1,0); (1,1,1)].
Proof. reflexivity. Qed.

Lemma neighbourhood_elem d :
  d ∈ neighbourhood <->
  (-1 <= d.1.1 <= 1 /\ -1 <= d.1.2 <= 1 /\ -1 <= d.2 <= 1) /\ d <> (0, 0, 0).
Proof.
  rewrite neighbourhood_eq, list_elem_of_In. destruct d as [[a b] c]. simpl. split.
  - intros H. repeat (destruct H as [H|H]; [injection H as <- <- <-; split; [lia|congruence]|]).
    destruct H.
  - intros [(Ha & Hb & Hc) Hne].
    assert (a = -1 \/ a = 0 \/ a = 1) as Ha' by lia.
    assert (b = -1 \/ b = 0 \/ b = 1) as Hb' by lia.
    assert (c = -1 \/ c = 0 \/ c = 1) as Hc' by lia.
    destruct Ha' as [->|[->| ->]], Hb' as [->|[->| ->]], Hc' as [->|[->| ->]];
      try tauto.
Qed.

(** C7. For a cell of the lattice, [count_neighbours] is the number of
    live cells among the neighbours of the cell on the torus: the 26
    distinct offsets of the 3x3x3 block other than the cell itself, each
    coordinate taken modulo 16. The count lies between 0 and 26. *)
Theorem count_neighbours_torus (st : Life.t) (x y z : Z) :
  in_lattice x y z ->
  Life.count_neighbours st x y z = neighbours_spec (Life.cells_g1 st) x y z /\
  0 <= Life.count_neighbours st x y z <= 26 /\
  length neighbourhood = 26%nat /\ NoDup neighbourhood /\
  (forall d, d ∈ neighbourhood <->
     (-1 <= d.1.1 <= 1 /\ -1 <= d.1.2 <= 1 /\ -1 <= d.2 <= 1) /\ d <> (0, 0, 0)).
Proof.
  intros _.
  assert (Life.count_neighbours st x y z = neighbours_spec (Life.cells_g1 st) x y z) as Heq.
  { rewrite count_neighbours_fold. rewrite foldl_bump; [|lia|rewrite block_eq; simpl; lia].
    rewrite filter_andb. reflexivity. }
  split; [exact Heq|]. rewrite Heq. unfold neighbours_spec.
  pose proof (filter_length_le
    (fun d => alive (cells_g1 st) (x + d.1.1) (y + d.1.2) (z + d.2)) neighbourhood) as Hle.
  assert (length neighbourhood = 26%nat) as Hlen by reflexivity.
  split_and!; [lia|lia|exact Hlen| |exact neighbourhood_elem].
  rewrite neighbourhood_eq. apply NoDup_ListNoDup.
  repeat (constructor; [simpl; intuition congruence|]). constructor.
Qed.

Lemma count_neighbours_torus_witness :
  Life.count_neighbours corner_grid 0 0 0 = 1 /\
  neighbours_spec (Life.cells_g1 corner_grid) 0 0 0 = 1.
Proof.
  destruct (count_neighbours_torus corner_grid 0 0 0) as (Heq & _).
  { unfold in_lattice. lia. }
  split; [rewrite Heq|]; vm_compute; reflexivity.
Defined.

End LifeNeighbours.

Section LifeReseed.
Import Life.

(** ** Loops that fill an array *)

Lemma for_range_proj {S T : Type} (proj : S -> T) (body : Z -> S -> S)
    (body' : Z -> T -> T) lo n s :
  (forall i t, proj (body i t) = body' i (proj t)) ->
  proj (for_range lo n body s) = for_range lo n body' (proj s).
Proof.
  intros Hp. unfold for_range. revert s.
  induction (seqZ lo n) as [|i l IH]; intros s; simpl; [done|].
  rewrite IH. by rewrite Hp.
Qed.

Lemma for_range_keep {S T : Type} (proj : S -> T) (body : Z -> S -> S) lo n s :
  (forall i t, proj (body i t) = proj t) ->
  proj (for_range lo n body s) = proj s.
Proof.
  intros Hp. unfold for_range. revert s.
  induction (seqZ lo n) as [|i l IH]; intros s; simpl; [done|].
  rewrite IH. by rewrite Hp.
Qed.

Lemma for_range_fill {A : Type} (v : A) n (l : list A) :
  0 <= n <= Z.of_nat (length l) ->
  for_range 0 n (fun i m => <[Z.to_nat i := v]> m) l
  = replicate (Z.to_nat n) v ++ drop (Z.to_nat n) l.
Proof.
  intros Hn.
  apply (for_range_ind (fun k m => k <= Z.of_nat (length l) ->
           m = replicate (Z.to_nat k) v ++ drop (Z.to_nat k) l)); [lia|done| |lia].
  intros k m Hk IH Hk'. rewrite IH by lia. rewrite Z.add_0_l.
  rewrite insert_app_r_alt by (rewrite length_replicate; lia).
  rewrite length_replicate, Nat.sub_diag.
  destruct (lookup_lt_is_Some_2 l (Z.to_nat k) ltac:(lia)) as [a Ha].
  rewrite (drop_S l a (Z.to_nat k) Ha). simpl.
  replace (Z.to_nat (k + 1)) with (Datatypes.S (Z.to_nat k)) by lia.
  rewrite replicate_S_end, <- app_assoc. reflexivity.
Qed.

Lemma for_range_fill_all {A : Type} (v : A) n (l : list A) :
  0 <= n -> Z.of_nat (length l) = n ->
  for_range 0 n (fun i m => <[Z.to_nat i := v]> m) l = replicate (Z.to_nat n) v.
Proof.
  intros Hn Hl. rewrite for_range_fill by lia.
  rewrite drop_ge by lia. by rewrite app_nil_r.
Qed.

(** ** Reset and reseed *)

Lemma game_rule_reset_spec st :
  Z.of_nat (length (rules st)) = 27 ->
  game_rule_reset st =
  mk (cells_g1 st) (cells_g2 st) (replicate (Z.to_nat 27) DIE) (hash_list st)
     (hash_nr st) (living st) (sequence st).
Proof.
  intros Hlen. unfold game_rule_reset.
  rewrite <- (for_range_fill_all DIE 27 (rules st)) by lia.
  rewrite <- (for_range_proj rules (fun i => set_rule i DIE)) by done.
  set (u := for_range 0 27 _ st).
  assert (cells_g1 u = cells_g1 st) as H1 by (by apply for_range_keep).
  assert (cells_g2 u = cells_g2 st) as H2 by (by apply for_range_keep).
  assert (hash_list u = hash_list st) as H3 by (by apply for_range_keep).
  assert (hash_nr u = hash_nr st) as H4 by (by apply for_range_keep).
  assert (living u = living st) as H5 by (by apply for_range_keep).
  assert (sequence u = sequence st) as H6 by (by apply for_range_keep).
  destruct u; simpl in *. congruence.
Qed.

Lemma game_reset_spec st :
  wf st ->
  game_reset st = mk zero_grid zero_grid all_die (hash_list st) 0 0 (sequence st).
Proof.
  intros (H1 & H2 & H3 & _). unfold game_reset. cbv zeta.
  rewrite (for_range_fuse 16 16 _ clear_both) by (lia || done).
  change (16 * 16) with 256.
  set (st0 := mk _ _ _ _ 0 0 _). set (u := for_range 0 256 clear_both st0).
  assert (cells_g1 u = zero_grid) as G1.
  { unfold u. rewrite (for_range_proj cells_g1 clear_both (fun i m => <[Z.to_nat i := 0]> m)) by done.
    by apply for_range_fill_all. }
  assert (cells_g2 u = zero_grid) as G2.
  { unfold u. rewrite (for_range_proj cells_g2 clear_both (fun i m => <[Z.to_nat i := 0]> m)) by done.
    by apply for_range_fill_all. }
  assert (rules u = rules st) as G3 by (by apply (for_range_keep rules clear_both 0 256 st0)).
  assert (hash_list u = hash_list st) as G4
    by (by apply (for_range_keep hash_list clear_both 0 256 st0)).
  assert (hash_nr u = 0) as G5 by (by apply (for_range_keep hash_nr clear_both 0 256 st0)).
  assert (living u = 0) as G6 by (by apply (for_range_keep living clear_both 0 256 st0)).
  assert (sequence u = sequence st) as G7
    by (by apply (for_range_keep sequence clear_both 0 256 st0)).
  rewrite game_rule_reset_spec by (rewrite G3; done).
  by rewrite G1, G2, G4, G5, G6, G7.
Qed.

Lemma testbit_wrap_u16 a z : 0 <= z < 16 -> Z.testbit (Int.wrap_u16 a) z = Z.testbit a z.
Proof.
  intros Hz. unfold Int.wrap_u16. change 65536 with (2 ^ 16).
  apply Z.mod_pow2_bits_low. lia.
Qed.

Lemma slot_inj x y x' y' :
  0 <= x < 16 -> 0 <= y < 16 -> 0 <= x' < 16 -> 0 <= y' < 16 ->
  slot x y = slot x' y' -> x = x' /\ y = y'.
Proof. unfold slot. lia. Qed.

Lemma place_bit p st x y z :
  Z.of_nat (length (cells_g2 st)) = 256 ->
  0 <= p.1.1 -> 0 <= p.1.2 -> 0 <= p.2 ->
  in_lattice x y z ->
  Z.of_nat (length (cells_g2 (place p st))) = 256 /\
  Z.testbit (at2 (cells_g2 (place p st)) x y) z
  = Z.testbit (at2 (cells_g2 st) x y) z || same_point p x y z.
Proof.
  intros Hlen Hpx Hpy Hpz (Hx & Hy & Hz). destruct p as [[px py] pz]. simpl in *.
  unfold place, same_point. simpl.
  destruct (Z.ltb_spec px 16) as [Hx'|Hx']; simpl.
  2:{ split; [done|]. assert ((px =? x) = false) as -> by lia. simpl. by rewrite orb_false_r. }
  destruct (Z.ltb_spec py 16) as [Hy'|Hy']; simpl.
  2:{ split; [done|]. assert ((py =? y) = false) as -> by lia.
      rewrite andb_false_r. simpl. by rewrite orb_false_r. }
  destruct (Z.ltb_spec pz 16) as [Hz'|Hz']; simpl.
  2:{ split; [done|]. assert ((pz =? z) = false) as -> by lia.
      rewrite andb_false_r. by rewrite orb_false_r. }
  rewrite length_insert. split; [done|]. unfold at2.
  destruct (decide (slot x y = slot px py)) as [Heq|Hne].
  - rewrite Heq. rewrite list_lookup_total_insert_eq by (unfold slot; lia).
    apply slot_inj in Heq; [|lia..]. destruct Heq as [-> ->]. rewrite !Z.eqb_refl. simpl.
    rewrite testbit_wrap_u16 by lia. rewrite Z.lor_spec. f_equal.
    rewrite Z.shiftl_1_l. by rewrite Z.pow2_bits_eqb by lia.
  - rewrite list_lookup_total_insert_ne by done.
    assert ((px =? x) && (py =? y) = false) as ->.
    { destruct (Z.eqb_spec px x), (Z.eqb_spec py y); try done. subst. done. }
    simpl. by rewrite orb_false_r.
Qed.

Lemma place_keep p st :
  cells_g1 (place p st) = cells_g1 st /\ rules (place p st) = rules st /\
  hash_list (place p st) = hash_list st /\ hash_nr (place p st) = hash_nr st /\
  living (place p st) = living st /\ sequence (place p st) = sequence st.
Proof.
  destruct p as [[px py] pz]. unfold place.
  destruct ((px <? 16) && (py <? 16) && (pz <? 16)); done.
Qed.

Lemma zero_grid_bit x y z :
  0 <= x < 16 -> 0 <= y < 16 -> Z.testbit (at2 zero_grid x y) z = false.
Proof.
  intros Hx Hy. unfold at2, zero_grid.
  rewrite lookup_total_replicate_2 by (unfold slot; lia). apply Z.bits_0.
Qed.

(** [game_randomize]: the population counter is the number of draws,
    and the live cells of the new generation are the sampled points. *)
Lemma game_randomize_spec amount sample st :
  Z.of_nat (length (cells_g2 st)) = 256 -> 0 <= amount -> sample_u16 sample amount ->
  cells_g1 (game_randomize amount sample st) = cells_g1 st /\
  rules (game_randomize amount sample st) = rules st /\
  hash_list (game_randomize amount sample st) = hash_list st /\
  hash_nr (game_randomize amount sample st) = hash_nr st /\
  sequence (game_randomize amount sample st) = sequence st /\
  living (game_randomize amount sample st) = amount /\
  Z.of_nat (length (cells_g2 (game_randomize amount sample st))) = 256 /\
  forall x y z, in_lattice x y z ->
    (Z.testbit (at2 (cells_g2 (game_randomize amount sample st)) x y) z = true <->
     exists i, 0 <= i < amount /\ sample i = (x, y, z)).
Proof.
  intros Hlen Ham Hs. unfold game_randomize. cbv zeta.
  rewrite (for_range_fuse 16 16 _ clear_g2) by (lia || done).
  change (16 * 16) with 256.
  set (st1 := for_range 0 256 clear_g2 st).
  assert (cells_g2 st1 = zero_grid) as G2.
  { unfold st1. rewrite (for_range_proj cells_g2 clear_g2 (fun i m => <[Z.to_nat i := 0]> m)) by done.
    by apply for_range_fill_all. }
  assert (cells_g1 st1 = cells_g1 st /\ rules st1 = rules st /\ hash_list st1 = hash_list st /\
          hash_nr st1 = hash_nr st /\ sequence st1 = sequence st) as (K1 & K2 & K3 & K4 & K5).
  { split_and!; by apply (for_range_keep _ clear_g2 0 256 st). }
  set (st2 := for_range 0 amount (fun i => place (sample i)) st1).
  assert (cells_g1 st2 = cells_g1 st1 /\ rules st2 = rules st1 /\ hash_list st2 = hash_list st1 /\
          hash_nr st2 = hash_nr st1 /\ sequence st2 = sequence st1) as (L1 & L2 & L3 & L4 & L5).
  { split_and!; apply (for_range_keep _ (fun i => place (sample i)) 0 amount st1);
      intros i t; by destruct (place_keep (sample i) t) as (?&?&?&?&?&?). }
  assert (Z.of_nat (length (cells_g2 st2)) = 256 /\
    forall x y z, in_lattice x y z ->
      (Z.testbit (at2 (cells_g2 st2) x y) z = true <->
       exists i, 0 <= i < amount /\ sample i = (x, y, z))) as [Hl2 Hbits].
  { apply (for_range_ind (fun k t =>
      Z.of_nat (length (cells_g2 t)) = 256 /\
      forall x y z, in_lattice x y z ->
        (Z.testbit (at2 (cells_g2 t) x y) z = true <->
         exists i, 0 <= i < k /\ sample i = (x, y, z)))); [lia| |].
    - split; [by rewrite G2|]. intros x y z Hin. rewrite G2, zero_grid_bit by (unfold in_lattice in Hin; lia).
      split; [done|intros (i & Hi & _); lia].
    - intros k t Hk [Hlt Hbt]. rewrite Z.add_0_l.
      destruct (Hs k Hk) as (S1 & S2 & S3).
      split; [apply (place_bit (sample k) t 0 0 0 Hlt S1 S2 S3); unfold in_lattice; lia|].
      intros x y z Hin.
      destruct (place_bit (sample k) t x y z Hlt S1 S2 S3 Hin) as [_ ->].
      rewrite orb_true_iff, Hbt by done. unfold same_point.
      rewrite !andb_true_iff, !Z.eqb_eq. split.
      + intros [(i & Hi & Heq)|Hsame].
        * exists i. split; [lia|done].
        * exists k. split; [lia|]. destruct (sample k) as [[a b] c].
          cbn [fst snd] in Hsame. destruct Hsame as [[-> ->] ->]. done.
      + intros (i & Hi & Heq). destruct (decide (i = k)) as [->|Hne].
        * right. rewrite Heq. cbn [fst snd]. split_and!; reflexivity.
        * left. exists i. split; [lia|done]. }
  simpl. split_and!; try congruence. exact Hbits.
Qed.

(** ** One generation *)

Lemma wrap_u16_range n : 0 <= Int.wrap_u16 n < 65536.
Proof. unfold Int.wrap_u16. apply Z.mod_pos_bound. lia. Qed.

Lemma wrap_u32_range n : 0 <= Int.wrap_u32 n < 4294967296.
Proof. unfold Int.wrap_u32. apply Z.mod_pos_bound. lia. Qed.

Lemma cell_step_inv st x y z acc : cell_inv acc -> cell_inv (cell_step st x y z acc).
Proof.
  destruct acc as [[c nl] h]. unfold cell_inv, cell_step. cbn [fst snd]. intros [Hn Hh].
  split; [|apply wrap_u32_range].
  destruct (Z.land _ _ =? 0); [exact Hn|apply wrap_u16_range].
Qed.

Lemma column_step_inv st x y acc : gen_inv acc -> gen_inv (column_step st x y acc).
Proof.
  destruct acc as [[g2 nl] h]. unfold gen_inv, column_step. cbn [fst snd].
  intros (Hl & Hn & Hh).
  pose proof (for_range_inv cell_inv 0 16 (cell_step st x y) (at2 (cells_g1 st) x y, nl, h)) as Hc.
  destruct (for_range 0 16 (cell_step st x y) _) as [[c' nl'] h']. cbn [fst snd].
  rewrite length_insert. split; [exact Hl|]. apply Hc; [split; [exact Hn|exact Hh]|].
  intros i t _. apply cell_step_inv.
Qed.

Lemma game_next_generation_spec st :
  wf st ->
  let r := game_next_generation st in
  0 <= r.1 < 4294967296 /\ wf r.2 /\
  cells_g1 r.2 = cells_g2 st /\ rules r.2 = rules st /\
  hash_list r.2 = hash_list st /\ hash_nr r.2 = hash_nr st /\
  sequence r.2 = sequence st.
Proof.
  intros (H1 & H2 & H3 & H4 & H5 & H6 & H7). unfold game_next_generation. cbv zeta.
  set (st0 := mk (cells_g2 st) _ _ _ _ _ _).
  pose proof (for_range_inv gen_inv 0 16
    (fun x => for_range 0 16 (column_step st0 x)) (cells_g2 st0, 0, 0)) as Hinv.
  destruct (for_range 0 16 _ _) as [[g2 nl] h]. cbn [fst snd].
  destruct Hinv as (Hl & Hn & Hh).
  { unfold gen_inv, st0. cbn [fst snd cells_g2]. lia. }
  { intros x t _ Ht. apply for_range_inv; [exact Ht|]. intros y u _. apply column_step_inv. }
  cbn [fst snd] in Hl, Hn, Hh. unfold wf, st0.
  cbn [cells_g1 cells_g2 rules hash_list hash_nr living sequence].
  split_and!; (reflexivity || lia).
Qed.

Lemma all_die_rule st n : rules st = all_die -> rule_at st n = DIE.
Proof.
  intros Hr. unfold rule_at. rewrite Hr. unfold all_die.
  destruct (decide (Z.to_nat n < Z.to_nat 27)%nat) as [Hlt|Hge].
  - by rewrite lookup_total_replicate_2.
  - rewrite list_lookup_total_alt, (proj1 (lookup_replicate_None _ _ _)) by lia. done.
Qed.

Lemma cell_step_die st x y z acc :
  rules st = all_die -> 0 <= z < 16 -> (cell_step st x y z acc).1.2 = acc.1.2.
Proof.
  intros Hr Hz. destruct acc as [[c nl] h]. unfold cell_step. simpl.
  rewrite all_die_rule by done. rewrite land_bit by lia.
  rewrite testbit_wrap_u16 by done. rewrite Z.land_spec, Z.lnot_spec by lia.
  rewrite Z.shiftl_1_l, Z.pow2_bits_true by lia. simpl. rewrite andb_false_r. done.
Qed.

(** Under the all-die table every cell dies. *)
Lemma all_die_extinct st :
  rules st = all_die -> living (game_next_generation st).2 = 0.
Proof.
  intros Hr. unfold game_next_generation. cbv zeta.
  set (st0 := mk (cells_g2 st) _ _ _ _ _ _).
  assert (rules st0 = all_die) as Hr0 by done.
  pose proof (for_range_inv (fun acc : list Z * Z * Z => acc.1.2 = 0) 0 16
    (fun x => for_range 0 16 (column_step st0 x)) (cells_g2 st0, 0, 0)) as Hinv.
  destruct (for_range 0 16 _ _) as [[g2 nl] h]. simpl. apply Hinv; [done|].
  intros x t _ Ht. apply for_range_inv; [done|]. intros y [[g nl'] h'] _ Hu. simpl in Hu. subst nl'.
  unfold column_step.
  pose proof (for_range_inv (fun acc : Z * Z * Z => acc.1.2 = 0) 0 16
    (cell_step st0 x y) (at2 (cells_g1 st0) x y, 0, h')) as Hc.
  destruct (for_range 0 16 (cell_step st0 x y) _) as [[c' nl''] h'']. simpl.
  apply Hc; [done|]. intros z acc Hz Hacc. rewrite cell_step_die by (done || lia). done.
Qed.

(** ** The presets of a reseed *)

Lemma preset_amount_range e k : 25 <= preset_amount e k < 400.
Proof.
  unfold preset_amount. pose proof (Z.mod_pos_bound (rand e) 200 ltac:(lia)).
  destruct (k <? 3); lia.
Qed.

Lemma preset_spec e k st :
  Z.of_nat (length (cells_g2 st)) = 256 -> 0 <= k < 256 ->
  rules st = all_die -> sequence st = Int.wrap_u8 (k + 1) ->
  sample_u16 (sample e) 400 ->
  let st' := preset e k st in
  sequence st' = next_sequence k /\ rules st' = preset_rules k /\
  living st' = preset_amount e k /\
  hash_nr st' = hash_nr st /\ hash_list st' = hash_list st /\
  cells_g1 st' = cells_g1 st /\
  Z.of_nat (length (cells_g2 st')) = 256 /\
  forall x y z, in_lattice x y z ->
    (Z.testbit (at2 (cells_g2 st') x y) z = true <->
     exists i, 0 <= i < preset_amount e k /\ sample e i = (x, y, z)).
Proof.
  intros Hlen Hk Hr Hseq Hs st'.
  pose proof (Z.mod_pos_bound (rand e) 200 ltac:(lia)) as Hm.
  pose proof (preset_amount_range e k) as Ham.
  assert (sample_u16 (sample e) (preset_amount e k)) as Hs'
    by (intros i Hi; apply Hs; lia).
  assert (Int.wrap_u16 (200 + rand e mod 200) = 200 + rand e mod 200) as Hw.
  { unfold Int.wrap_u16. pose proof (Z.mod_pos_bound (rand e) 200 ltac:(lia)).
    apply Z.mod_small. lia. }
  assert (exists b, (k <? 3) = b /\
            (b = true -> k = 0 \/ k = 1 \/ k = 2) /\ (b = false -> 3 <= k)) as (b & Hb & Hbt & Hbf).
  { exists (k <? 3). split; [done|]. split; intros H%Z.ltb_lt || intros H%Z.ltb_ge; lia. }
  unfold st', preset, preset_rules, next_sequence, preset_amount in *. rewrite ?Hw.
  rewrite Hb in *. clear st'.
  destruct (Z.eqb_spec k 0) as [->|H0]; [|destruct (Z.eqb_spec k 1) as [->|H1];
    [|destruct (Z.eqb_spec k 2) as [->|H2]]].
  all: destruct b; try (exfalso; (specialize (Hbt eq_refl) || specialize (Hbf eq_refl)); lia).
  all: match goal with
       | |- context [game_randomize ?a ?s ?u] =>
           destruct (game_randomize_spec a s u) as (G1 & G2 & G3 & G4 & G5 & G6 & G7 & G8);
             [exact Hlen|lia|exact Hs'|]
       end.
  all: rewrite G1, G2, G3, G4, G5, G6.
  all: cbn [rules sequence hash_nr hash_list cells_g1 cells_g2 living
            set_rule with_sequence]; rewrite ?Hr, ?Hseq.
  all: split_and!; try reflexivity; try exact G7; try exact G8.
Qed.

Lemma life_wfb_wf st : life_wfb st = true -> wf st.
Proof. unfold life_wfb, wf. rewrite !andb_true_iff. lia. Qed.

End LifeReseed.

Section LifeStagnation.
Import Life.

(** ** C9 and C10: the scan of the hash list *)

Lemma wrap_u8_range n : 0 <= Int.wrap_u8 n < 256.
Proof. unfold Int.wrap_u8. apply Z.mod_pos_bound. lia. Qed.

(** With 256 or more hashes recorded, the 8-bit index is always below
    [hash_nr] and never above 255: the loop condition never fails. *)
Lemma scan_loops fuel st hash i matches :
  256 <= hash_nr st -> 0 <= i < 256 -> scan fuel st hash i matches = None.
Proof.
  intros Hnr. revert i matches.
  induction fuel as [|k IH]; intros i m Hi; [reflexivity|].
  cbn [scan].
  assert ((i <? hash_nr st) && (i <=? 255) = true) as -> by lia.
  apply IH, wrap_u8_range.
Qed.

Lemma count_matches_le hash l : 0 <= count_matches hash l <= Z.of_nat (length l).
Proof. unfold count_matches. pose proof (filter_length_le (fun h => h =? hash) l). lia. Qed.

Lemma scan_counts fuel st hash i m :
  Z.of_nat (length (hash_list st)) = 256 -> hash_nr st <= 255 ->
  0 <= i <= hash_nr st -> 0 <= m -> m + (hash_nr st - i) <= 255 ->
  (Z.to_nat (hash_nr st - i) < fuel)%nat ->
  scan fuel st hash i m
  = Some (m + count_matches hash (drop (Z.to_nat i) (recorded st))).
Proof.
  intros Hlen Hnr. revert i m.
  induction fuel as [|k IH]; intros i m Hi Hm Hsum Hfuel; [lia|].
  cbn [scan]. destruct (decide (i = hash_nr st)) as [->|Hne].
  - assert ((hash_nr st <? hash_nr st) && (hash_nr st <=? 255) = false) as -> by lia.
    rewrite drop_ge by (unfold recorded; rewrite length_take; lia).
    unfold count_matches. simpl. f_equal. lia.
  - assert ((i <? hash_nr st) && (i <=? 255) = true) as -> by lia.
    assert (Int.wrap_u8 (i + 1) = i + 1) as -> by (unfold Int.wrap_u8; apply Z.mod_small; lia).
    assert (recorded st !! Z.to_nat i = Some (hash_list st !!! Z.to_nat i)) as Hlk.
    { unfold recorded. rewrite lookup_take_lt by lia.
      apply list_lookup_lookup_total_lt. lia. }
    rewrite (drop_S _ _ _ Hlk). unfold count_matches at 1. cbn [List.filter].
    replace (Datatypes.S (Z.to_nat i)) with (Z.to_nat (i + 1)) by lia.
    destruct (hash_list st !!! Z.to_nat i =? hash) eqn:E.
    + assert (Int.wrap_u8 (m + 1) = m + 1) as -> by (unfold Int.wrap_u8; apply Z.mod_small; lia).
      rewrite IH by lia. unfold count_matches. cbn [length]. f_equal. lia.
    + rewrite IH by lia. reflexivity.
Qed.

Lemma land_FF n : 0 <= n <= 255 -> Z.land n 0xFF = n.
Proof.
  intros Hn. change 0xFF with (Z.ones 8). rewrite Z.land_ones by lia.
  apply Z.mod_small. change (2 ^ 8) with 256. lia.
Qed.

(** [game_progress] after a step that leaves the population above zero. *)
Lemma game_progress_alive fuel e st hash st1 :
  game_next_generation st = (hash, st1) -> living st1 <> 0 ->
  game_progress fuel e st =
  match scan fuel st1 hash 0 0 with
  | None => None
  | Some matches =>
      if (6 <=? matches) || (500 <=? living st1)
      then Some (game_next_generation (game_rule_reset st1)).2
      else Some (record_hash hash st1)
  end.
Proof.
  intros Hgen Halive. unfold game_progress. rewrite Hgen.
  apply Z.eqb_neq in Halive. rewrite Halive. reflexivity.
Qed.

Lemma game_next_generation_eq st hash st1 :
  wf st -> game_next_generation st = (hash, st1) ->
  0 <= hash < 4294967296 /\ wf st1 /\
  cells_g1 st1 = cells_g2 st /\ rules st1 = rules st /\
  hash_list st1 = hash_list st /\ hash_nr st1 = hash_nr st /\
  sequence st1 = sequence st.
Proof.
  intros Hwf Hgen. pose proof (game_next_generation_spec st Hwf) as K.
  cbv zeta in K. rewrite Hgen in K. exact K.
Qed.

Lemma settle_spec st1 h2 settled :
  wf st1 -> game_next_generation (game_rule_reset st1) = (h2, settled) ->
  rules settled = all_die /\ living settled = 0 /\
  cells_g1 settled = cells_g2 st1 /\
  hash_nr settled = hash_nr st1 /\ hash_list settled = hash_list st1 /\
  sequence settled = sequence st1.
Proof.
  intros Hwf1 Hgen. pose proof Hwf1 as (W1 & W2 & W3 & W4 & W5 & W6 & W7).
  pose proof (game_rule_reset_spec st1 W3) as Hreset.
  assert (wf (game_rule_reset st1)) as Hwf2.
  { rewrite Hreset. unfold wf.
    cbn [cells_g1 cells_g2 rules hash_list hash_nr living sequence].
    rewrite length_replicate. split_and!; lia. }
  destruct (game_next_generation_eq _ _ _ Hwf2 Hgen) as (_ & _ & Kg1 & Kr & Kl & Kn & Ks).
  pose proof (all_die_extinct (game_rule_reset st1)) as Kd.
  rewrite Hgen in Kd. cbn [snd] in Kd.
  rewrite Hreset in Kg1, Kr, Kl, Kn, Ks, Kd.
  cbn [cells_g1 cells_g2 rules hash_list hash_nr living sequence] in Kg1, Kr, Kl, Kn, Ks, Kd.
  split_and!; [exact Kr|exact (Kd eq_refl)|exact Kg1|exact Kn|exact Kl|exact Ks].
Qed.

(** C9. Let a step of [game_progress] give the hash [hash] and the state
    [st1] with a population above zero. Inside the window
    ([hash_nr <= 255]) what follows is what the specification says: with
    at least 6 matching recorded hashes, or a population of 500 or more,
    the rule table becomes all-die and one more generation is computed
    (no grid reset, no preset change, hash counter kept, the population
    dies out); otherwise the hash is stored at [hash_nr] and the counter
    moves on, the rules untouched. With 256 hashes recorded the call
    does not return. *)
Theorem stagnation_inside_window (fuel : nat) (e : Life.env) (st : Life.t)
    (hash : Z) (st1 : Life.t) (h2 : Z) (settled : Life.t) :
  Life.wf st ->
  Life.game_next_generation st = (hash, st1) ->
  Life.living st1 <> 0 ->
  Life.game_next_generation (Life.game_rule_reset st1) = (h2, settled) ->
  (Life.hash_nr st <= 255 -> (Z.to_nat (Life.hash_nr st) < fuel)%nat ->
     Life.game_progress fuel e st =
       Some (if (6 <=? count_matches hash (recorded st1)) || (500 <=? Life.living st1)
             then settled else Life.record_hash hash st1)) /\
  (Life.rules settled = all_die /\ Life.living settled = 0 /\
   Life.cells_g1 settled = Life.cells_g2 st1 /\
   Life.hash_nr settled = Life.hash_nr st /\ Life.hash_list settled = Life.hash_list st /\
   Life.sequence settled = Life.sequence st) /\
  (Life.rules (Life.record_hash hash st1) = Life.rules st /\
   Life.cells_g2 (Life.record_hash hash st1) = Life.cells_g2 st1 /\
   Life.living (Life.record_hash hash st1) = Life.living st1 /\
   Life.sequence (Life.record_hash hash st1) = Life.sequence st /\
   (Life.hash_nr st <= 255 ->
      Life.hash_nr (Life.record_hash hash st1) = Life.hash_nr st + 1 /\
      Life.hash_list (Life.record_hash hash st1)
        = <[Z.to_nat (Life.hash_nr st) := hash]> (Life.hash_list st))) /\
  (256 <= Life.hash_nr st -> Life.game_progress fuel e st = None).
Proof.
  intros Hwf Hgen Halive Hgen2.
  destruct (game_next_generation_eq st hash st1 Hwf Hgen)
    as (Hh & Hwf1 & Hg1 & Hr1 & Hl1 & Hn1 & Hs1).
  pose proof (game_progress_alive fuel e st hash st1 Hgen Halive) as Hgp.
  rewrite Hgen2 in Hgp. cbn [snd] in Hgp.
  pose proof Hwf1 as (W1 & W2 & W3 & W4 & W5 & W6 & W7).
  pose proof Hwf as (_ & _ & _ & _ & V5 & _).
  split; [|split; [|split]].
  - intros Hnr Hfuel. rewrite Hgp.
    rewrite (scan_counts fuel st1 hash 0 0) by (rewrite ?Hn1; lia).
    rewrite Z.add_0_l. change (Z.to_nat 0) with 0%nat. rewrite drop_0.
    destruct ((6 <=? _) || _); reflexivity.
  - destruct (settle_spec st1 h2 settled Hwf1 Hgen2) as (K1 & K2 & K3 & K4 & K5 & K6).
    rewrite <- Hn1, <- Hl1, <- Hs1. split_and!; assumption.
  - unfold record_hash.
    cbn [cells_g1 cells_g2 rules hash_list hash_nr living sequence].
    split; [exact Hr1|]. split; [reflexivity|]. split; [reflexivity|]. split; [exact Hs1|].
    intros Hnr. rewrite Hn1, Hl1. rewrite land_FF by lia. split; [|reflexivity].
    unfold Int.wrap_u32. apply Z.mod_small. lia.
  - intros Hnr. rewrite Hgp. rewrite scan_loops; [reflexivity|rewrite Hn1; lia|lia].
Qed.

(** C10. The scan terminates exactly when fewer than 256 hashes are
    recorded: with [hash_nr <= 255] it returns the number of matches
    within [hash_nr + 1] iterations, with [hash_nr >= 256] it never
    returns, whatever the fuel. *)
Theorem scan_terminates_iff_window (st : Life.t) (hash : Z) :
  Life.wf st ->
  (Life.hash_nr st <= 255 ->
     Life.scan (S (Z.to_nat (Life.hash_nr st))) st hash 0 0
     = Some (count_matches hash (recorded st))) /\
  (256 <= Life.hash_nr st -> forall fuel, Life.scan fuel st hash 0 0 = None).
Proof.
  intros (_ & _ & _ & Hlen & Hnr & _). split.
  - intros Hw. rewrite (scan_counts _ st hash 0 0) by lia.
    rewrite Z.add_0_l. change (Z.to_nat 0) with 0%nat. by rewrite drop_0.
  - intros Hw fuel. apply scan_loops; lia.
Qed.

Lemma glider_256_wf : Life.wf glider_256.
Proof. apply life_wfb_wf. vm_compute. reflexivity. Qed.

(** The glider is alive and well one generation later, and its hash has
    been seen only three times. *)
Lemma glider_256_step :
  (Life.game_next_generation glider_256).1 = 27534 /\
  Life.living (Life.game_next_generation glider_256).2 = 10 /\
  count_matches 27534 glider_hashes = 3.
Proof. vm_compute. repeat split; reflexivity. Qed.

Lemma stagnation_inside_window_witness :
  Life.game_progress 300 centre_env glider_256 = None.
Proof.
  destruct glider_256_step as (_ & Hliving & _).
  eapply (stagnation_inside_window 300 centre_env glider_256 _ _ _ _ glider_256_wf
            (surjective_pairing _)).
  - rewrite Hliving. discriminate.
  - apply surjective_pairing.
  - cbn [Life.hash_nr glider_256]. lia.
Defined.

Lemma scan_terminates_iff_window_witness :
  Life.scan 300 glider_256 27534 0 0 = None.
Proof.
  destruct (scan_terminates_iff_window glider_256 27534 glider_256_wf) as [_ Hloop].
  apply Hloop. cbn [Life.hash_nr glider_256]. lia.
Defined.

End LifeStagnation.

(** * Further properties of the automaton *)

(** ** Sums over a range *)

Section SumRange.

Lemma sum_range_nil lo n f : n <= 0 -> sum_range lo n f = 0.
Proof. intros Hn. unfold sum_range. by rewrite for_range_nil. Qed.

Lemma sum_range_snoc lo n f :
  0 <= n -> sum_range lo (n + 1) f = sum_range lo n f + f (lo + n).
Proof. intros Hn. unfold sum_range. by rewrite for_range_snoc. Qed.

Lemma sum_range_acc lo n f a :
  for_range lo n (fun i a => a + f i) a = a + sum_range lo n f.
Proof.
  destruct (Z_lt_le_dec n 0) as [Hn|Hn].
  - rewrite for_range_nil, sum_range_nil by lia. lia.
  - apply (for_range_ind (fun k t => t = a + sum_range lo k f)); [done| |].
    + rewrite sum_range_nil by lia. lia.
    + intros k t Hk ->. rewrite sum_range_snoc by lia. lia.
Qed.

Lemma sum_range_ext lo n f g :
  (forall i, lo <= i < lo + n -> f i = g i) -> sum_range lo n f = sum_range lo n g.
Proof.
  intros H. unfold sum_range. apply for_range_ext. intros i t Hi. by rewrite H.
Qed.

Lemma sum_range_bound lo n f m :
  0 <= n -> (forall i, lo <= i < lo + n -> 0 <= f i <= m) ->
  0 <= sum_range lo n f <= n * m.
Proof.
  intros Hn H. unfold sum_range.
  apply (for_range_ind (fun k t => 0 <= t <= k * m)); [done|lia|].
  intros k t Hk Ht. specialize (H (lo + k) ltac:(lia)). nia.
Qed.

Lemma sum_range_fuse a b (f : Z -> Z -> Z) :
  0 <= a -> 0 < b ->
  sum_range 0 a (fun i => sum_range 0 b (f i))
  = sum_range 0 (a * b) (fun j => f (j / b) (j mod b)).
Proof.
  intros Ha Hb. unfold sum_range at 1.
  rewrite (for_range_ext _ _ _ (fun i => for_range 0 b (fun j t => t + f i j))).
  2:{ intros i t Hi. by rewrite sum_range_acc. }
  rewrite (for_range_fuse a b _ (fun j t => t + f (j / b) (j mod b))); [done..|].
  intros i j t Hi Hj.
  rewrite (Z.add_comm (i * b) j), Z.div_add, Z.mod_add by lia.
  rewrite Z.div_small, Z.mod_small by lia. done.
Qed.

End SumRange.

(** ** One generation in closed form *)

Section LifeGeneration.
Import Life.

Lemma count_neighbours_spec st x y z :
  count_neighbours st x y z = neighbours_spec (cells_g1 st) x y z.
Proof.
  rewrite count_neighbours_fold.
  rewrite foldl_bump; [|lia|rewrite block_eq; simpl; lia].
  rewrite filter_andb. reflexivity.
Qed.

Lemma neighbours_spec_range g x y z : 0 <= neighbours_spec g x y z <= 26.
Proof.
  unfold neighbours_spec.
  pose proof (filter_length_le
    (fun d => alive g (x + d.1.1) (y + d.1.2) (z + d.2)) neighbourhood) as Hle.
  assert (length neighbourhood = 26%nat) as Hlen by reflexivity. lia.
Qed.

Lemma testbit_bit z j : 0 <= z -> Z.testbit (Z.shiftl 1 z) j = (j =? z).
Proof.
  intros Hz. rewrite Z.shiftl_1_l, Z.pow2_bits_eqb by done. apply Z.eqb_sym.
Qed.

Lemma testbit_clear c z j :
  0 <= z -> 0 <= j ->
  Z.testbit (Z.land c (Z.lnot (Z.shiftl 1 z))) j = Z.testbit c j && negb (j =? z).
Proof.
  intros Hz Hj. by rewrite Z.land_spec, Z.lnot_spec, testbit_bit by done.
Qed.

Lemma testbit_set c z j :
  0 <= z -> Z.testbit (Z.lor c (Z.shiftl 1 z)) j = Z.testbit c j || (j =? z).
Proof. intros Hz. by rewrite Z.lor_spec, testbit_bit by done. Qed.

Lemma cell_step_spec st x y z c nl h :
  0 <= x < 16 -> 0 <= y < 16 -> 0 <= z < 16 ->
  0 <= nl < 65535 -> 0 <= h < 4294967296 - 5850 ->
  let n := neighbours_spec (cells_g1 st) x y z in
  let b := apply_rule (rules st !!! Z.to_nat n) (Z.testbit c z) in
  exists c',
    cell_step st x y z (c, nl, h)
      = (c', nl + (if b then 1 else 0), h + n * (x * 3 + y * 5 + z * 7)) /\
    forall j, 0 <= j < 16 -> Z.testbit c' j = if j =? z then b else Z.testbit c j.
Proof.
  intros Hx Hy Hz Hnl Hh n b. unfold cell_step.
  rewrite count_neighbours_spec. fold n. unfold rule_at.
  pose proof (neighbours_spec_range (cells_g1 st) x y z) as Hn. fold n in Hn.
  assert (Int.wrap_u32 (h + n * (x * 3 + y * 5 + z * 7)) = h + n * (x * 3 + y * 5 + z * 7)) as ->.
  { unfold Int.wrap_u32. apply Z.mod_small. nia. }
  set (c' := match rules st !!! Z.to_nat n with
             | DIE => Int.wrap_u16 (Z.land c (Z.lnot (Z.shiftl 1 z)))
             | LIVE => c
             | BIRTH => Int.wrap_u16 (Z.lor c (Z.shiftl 1 z))
             end).
  assert (forall j, 0 <= j < 16 -> Z.testbit c' j = if j =? z then b else Z.testbit c j) as Hbits.
  { intros j Hj. unfold c', b. destruct (rules st !!! Z.to_nat n); cbn [apply_rule].
    - rewrite testbit_wrap_u16, testbit_clear by lia.
      destruct (Z.eqb_spec j z); [by rewrite andb_false_r|by rewrite andb_true_r].
    - by destruct (Z.eqb_spec j z) as [->|].
    - rewrite testbit_wrap_u16, testbit_set by lia.
      destruct (Z.eqb_spec j z); [by rewrite orb_true_r|by rewrite orb_false_r]. }
  exists c'. split; [|exact Hbits].
  rewrite land_bit by lia. specialize (Hbits z Hz). rewrite Z.eqb_refl in Hbits.
  rewrite Hbits.
  assert (0 < 2 ^ z) as Hp by (apply Z.pow_pos_nonneg; lia).
  destruct b.
  - assert ((2 ^ z =? 0) = false) as -> by lia.
    unfold Int.wrap_u16. rewrite Z.mod_small by lia. reflexivity.
  - rewrite Z.eqb_refl. by rewrite Z.add_0_r.
Qed.

(** The [z] loop on one column. *)
Lemma column_loop st x y c0 nl0 h0 k :
  0 <= x < 16 -> 0 <= y < 16 -> 0 <= k <= 16 ->
  0 <= nl0 < 65535 - 16 -> 0 <= h0 < 4294967296 - 17 * 5850 ->
  let b := fun z => apply_rule (rules st !!! Z.to_nat (neighbours_spec (cells_g1 st) x y z))
                      (Z.testbit c0 z) in
  exists c',
    for_range 0 k (cell_step st x y) (c0, nl0, h0)
      = (c', nl0 + sum_range 0 k (fun z => if b z then 1 else 0),
             h0 + sum_range 0 k (fun z =>
                    neighbours_spec (cells_g1 st) x y z * (x * 3 + y * 5 + z * 7))) /\
    forall j, 0 <= j < 16 -> Z.testbit c' j = if j <? k then b j else Z.testbit c0 j.
Proof.
  intros Hx Hy Hk Hnl Hh b.
  set (cnt := fun k => sum_range 0 k (fun z => if b z then 1 else 0)).
  set (hs := fun k => sum_range 0 k (fun z =>
                    neighbours_spec (cells_g1 st) x y z * (x * 3 + y * 5 + z * 7))).
  assert (forall i, 0 <= i <= 16 -> 0 <= cnt i <= i * 1) as Hcnt.
  { intros i Hi. apply sum_range_bound; [lia|]. intros z _. destruct (b z); lia. }
  assert (forall i, 0 <= i <= 16 -> 0 <= hs i <= i * 5850) as Hhs.
  { intros i Hi. apply sum_range_bound; [lia|]. intros z Hz.
    pose proof (neighbours_spec_range (cells_g1 st) x y z). nia. }
  apply (for_range_ind (fun i t => exists c',
           t = (c', nl0 + cnt i, h0 + hs i) /\
           forall j, 0 <= j < 16 -> Z.testbit c' j = if j <? i then b j else Z.testbit c0 j));
    [lia| |].
  - exists c0. unfold cnt, hs. rewrite !sum_range_nil by lia. rewrite !Z.add_0_r.
    split; [done|]. intros j Hj. by assert ((j <? 0) = false) as -> by lia.
  - intros i t Hi (c & -> & Hbits). rewrite Z.add_0_l.
    specialize (Hcnt i ltac:(lia)). specialize (Hhs i ltac:(lia)).
    destruct (cell_step_spec st x y i c (nl0 + cnt i) (h0 + hs i)) as (c' & Heq & Hbits');
      [lia..|].
    rewrite (Hbits i) in Heq, Hbits' by lia.
    assert ((i <? i) = false) as Hii by lia. rewrite Hii in Heq, Hbits'.
    fold (b i) in Heq, Hbits'.
    exists c'. rewrite Heq.
    unfold cnt, hs. rewrite !sum_range_snoc by lia. rewrite !Z.add_0_l.
    split; [f_equal; [f_equal|]; lia|].
    intros j Hj. rewrite Hbits' by done. rewrite (Hbits j) by done.
    destruct (Z.eqb_spec j i) as [->|Hne].
    + by assert ((i <? i + 1) = true) as -> by lia.
    + destruct (Z.ltb_spec j i), (Z.ltb_spec j (i + 1)); (done || lia).
Qed.


(** The new value of [(x, y, z)] as the loops compute it from
    [cells_g1], the copy of the generation being replaced. *)
Lemma alive_lattice g x y z :
  in_lattice x y z -> alive g x y z = Z.testbit (at2 g x y) z.
Proof.
  intros (Hx & Hy & Hz). unfold alive. by rewrite !Z.mod_small by lia.
Qed.

Lemma column_step_spec st x y g nl h :
  0 <= x < 16 -> 0 <= y < 16 ->
  0 <= nl < 65535 - 16 -> 0 <= h < 4294967296 - 17 * 5850 ->
  let b := fun z => next_alive (rules st) (cells_g1 st) x y z in
  exists c',
    column_step st x y (g, nl, h)
      = (<[slot x y := c']> g,
         nl + sum_range 0 16 (fun z => if b z then 1 else 0),
         h + sum_range 0 16 (fun z =>
               neighbours_spec (cells_g1 st) x y z * (x * 3 + y * 5 + z * 7))) /\
    forall z, 0 <= z < 16 -> Z.testbit c' z = b z.
Proof.
  intros Hx Hy Hnl Hh b. unfold column_step.
  destruct (column_loop st x y (at2 (cells_g1 st) x y) nl h 16) as (c' & Heq & Hbits);
    [lia..|].
  exists c'. rewrite Heq. split.
  - f_equal. f_equal. f_equal. apply sum_range_ext. intros z Hz. unfold b, next_alive.
    by rewrite alive_lattice by (unfold in_lattice; lia).
  - intros z Hz. rewrite Hbits by done. assert ((z <? 16) = true) as -> by lia.
    unfold b, next_alive. by rewrite alive_lattice by (unfold in_lattice; lia).
Qed.

Lemma generation_loop st g0 k :
  Z.of_nat (length g0) = 256 -> 0 <= k <= 256 ->
  let b := next_alive (rules st) (cells_g1 st) in
  exists g,
    for_range 0 k (fun j => column_step st (j / 16) (j mod 16)) (g0, 0, 0)
      = (g,
         sum_range 0 k (fun j => sum_range 0 16 (fun z =>
           if b (j / 16) (j mod 16) z then 1 else 0)),
         sum_range 0 k (fun j => sum_range 0 16 (fun z =>
           neighbours_spec (cells_g1 st) (j / 16) (j mod 16) z
           * (j / 16 * 3 + j mod 16 * 5 + z * 7)))) /\
    Z.of_nat (length g) = 256 /\
    forall x y z, in_lattice x y z ->
      Z.testbit (at2 g x y) z =
      if x * 16 + y <? k then b x y z else Z.testbit (at2 g0 x y) z.
Proof.
  intros Hlen Hk b.
  set (cnt := fun j => sum_range 0 16 (fun z => if b (j / 16) (j mod 16) z then 1 else 0)).
  set (hs := fun j => sum_range 0 16 (fun z =>
           neighbours_spec (cells_g1 st) (j / 16) (j mod 16) z
           * (j / 16 * 3 + j mod 16 * 5 + z * 7))).
  assert (forall j, 0 <= j < 256 -> 0 <= cnt j <= 16 * 1) as Hcnt.
  { intros j Hj. apply sum_range_bound; [lia|]. intros z _. destruct (b _ _ z); lia. }
  assert (forall j, 0 <= j < 256 -> 0 <= hs j <= 16 * 5850) as Hhs.
  { intros j Hj. apply sum_range_bound; [lia|]. intros z Hz.
    pose proof (neighbours_spec_range (cells_g1 st) (j / 16) (j mod 16) z).
    assert (0 <= j / 16 < 16) by (split; [apply Z.div_pos; lia|apply Z.div_lt_upper_bound; lia]).
    pose proof (Z.mod_pos_bound j 16 ltac:(lia)). nia. }
  apply (for_range_ind (fun i t => exists g,
           t = (g, sum_range 0 i cnt, sum_range 0 i hs) /\
           Z.of_nat (length g) = 256 /\
           forall x y z, in_lattice x y z ->
             Z.testbit (at2 g x y) z =
             if x * 16 + y <? i then b x y z else Z.testbit (at2 g0 x y) z));
    [lia| |].
  - exists g0. rewrite !sum_range_nil by lia. split; [done|]. split; [done|].
    intros x y z (Hx & Hy & Hz). by assert ((x * 16 + y <? 0) = false) as -> by lia.
  - intros i t Hi (g & -> & Hg & Hbits). rewrite Z.add_0_l.
    assert (0 <= i / 16 < 16) as Hx'
      by (split; [apply Z.div_pos; lia|apply Z.div_lt_upper_bound; lia]).
    pose proof (Z.mod_pos_bound i 16 ltac:(lia)) as Hy'.
    pose proof (Z.div_mod i 16 ltac:(lia)) as Hdm.
    assert (0 <= sum_range 0 i cnt <= i * 16) as Hc1.
    { apply sum_range_bound; [lia|]. intros j Hj. specialize (Hcnt j ltac:(lia)). lia. }
    assert (0 <= sum_range 0 i hs <= i * (16 * 5850)) as Hh1.
    { apply sum_range_bound; [lia|]. intros j Hj. apply Hhs. lia. }
    destruct (column_step_spec st (i / 16) (i mod 16) g (sum_range 0 i cnt) (sum_range 0 i hs))
      as (c' & Heq & Hcol); [lia..|].
    exists (<[slot (i / 16) (i mod 16) := c']> g). rewrite Heq.
    rewrite !sum_range_snoc by lia. rewrite !Z.add_0_l.
    split; [reflexivity|]. rewrite length_insert. split; [exact Hg|].
    intros x y z Hin. pose proof Hin as (Hx & Hy & Hz). unfold at2.
    destruct (decide (slot x y = slot (i / 16) (i mod 16))) as [Hs|Hs].
    + rewrite Hs. rewrite list_lookup_total_insert_eq by (unfold slot; lia).
      apply slot_inj in Hs; [|lia..]. destruct Hs as [-> ->].
      assert ((i / 16 * 16 + i mod 16 <? i + 1) = true) as -> by lia.
      by apply Hcol.
    + rewrite list_lookup_total_insert_ne by done.
      fold (at2 g x y). rewrite Hbits by done.
      assert (x * 16 + y <> i) as Hne.
      { intros <-. apply Hs. f_equal; [|].
        - rewrite (Z.add_comm (x * 16) y), Z.div_add, Z.div_small by lia. lia.
        - rewrite (Z.add_comm (x * 16) y), Z.mod_add, Z.mod_small by lia. lia. }
      destruct (Z.ltb_spec (x * 16 + y) i), (Z.ltb_spec (x * 16 + y) (i + 1));
        try lia; reflexivity.
Qed.

Lemma generation_loops_flat st0 (acc : list Z * Z * Z) :
  for_range 0 16 (fun x => for_range 0 16 (column_step st0 x)) acc
  = for_range 0 256 (fun j => column_step st0 (j / 16) (j mod 16)) acc.
Proof.
  change 256 with (16 * 16). apply for_range_fuse; [lia|lia|].
  intros i j t Hi Hj.
  rewrite (Z.add_comm (i * 16) j), Z.div_add, Z.mod_add by lia.
  by rewrite Z.div_small, Z.mod_small by lia.
Qed.

Lemma population_flat g :
  population g
  = sum_range 0 256 (fun j => sum_range 0 16 (fun z =>
      if alive g (j / 16) (j mod 16) z then 1 else 0)).
Proof.
  unfold population.
  rewrite (sum_range_fuse 16 16
    (fun x y => sum_range 0 16 (fun z => if alive g x y z then 1 else 0))) by lia.
  reflexivity.
Qed.

Lemma generation_hash_flat g :
  generation_hash g
  = sum_range 0 256 (fun j => sum_range 0 16 (fun z =>
      neighbours_spec g (j / 16) (j mod 16) z * (j / 16 * 3 + j mod 16 * 5 + z * 7))).
Proof.
  unfold generation_hash.
  rewrite (sum_range_fuse 16 16
    (fun x y => sum_range 0 16 (fun z => neighbours_spec g x y z * (x * 3 + y * 5 + z * 7))))
    by lia.
  reflexivity.
Qed.

Lemma flat_lattice j z : 0 <= j < 256 -> 0 <= z < 16 -> in_lattice (j / 16) (j mod 16) z.
Proof.
  intros Hj Hz.
  assert (0 <= j / 16 < 16)
    by (split; [apply Z.div_pos; lia|apply Z.div_lt_upper_bound; lia]).
  pose proof (Z.mod_pos_bound j 16 ltac:(lia)). unfold in_lattice. lia.
Qed.

Lemma game_next_generation_flat st g nl h :
  for_range 0 256
    (fun j => column_step
       (mk (cells_g2 st) (cells_g2 st) (rules st) (hash_list st)
           (hash_nr st) (living st) (sequence st)) (j / 16) (j mod 16))
    (cells_g2 st, 0, 0) = (g, nl, h) ->
  game_next_generation st
  = (h, mk (cells_g2 st) g (rules st) (hash_list st) (hash_nr st) nl (sequence st)).
Proof.
  intros H. unfold game_next_generation. cbv zeta. rewrite generation_loops_flat.
  cbn [cells_g1 cells_g2 rules hash_list hash_nr living sequence].
  rewrite H. reflexivity.
Qed.

(** [game_next_generation] in closed form. *)
Lemma game_next_generation_closed st hash st1 :
  wf st -> game_next_generation st = (hash, st1) ->
  hash = generation_hash (cells_g2 st) /\
  living st1 = population (cells_g2 st1) /\
  (0 <= living st1 <= 4096 /\ 0 <= hash <= 23961600) /\
  forall x y z, in_lattice x y z ->
    alive (cells_g2 st1) x y z = next_alive (rules st) (cells_g2 st) x y z.
Proof.
  intros Hwf Hgen. pose proof Hwf as (_ & Hg2 & _).
  destruct (generation_loop
              (mk (cells_g2 st) (cells_g2 st) (rules st) (hash_list st)
                  (hash_nr st) (living st) (sequence st))
              (cells_g2 st) 256 Hg2 ltac:(lia)) as (g & Heq & Hg & Hbits).
  rewrite (game_next_generation_flat _ _ _ _ Heq) in Hgen. clear Heq.
  apply pair_equal_spec in Hgen as [<- <-].
  cbn [cells_g1 cells_g2 rules living] in *.
  assert (forall x y z, in_lattice x y z ->
            alive g x y z = next_alive (rules st) (cells_g2 st) x y z) as Hcells.
  { intros x y z Hin. rewrite alive_lattice by exact Hin. rewrite Hbits by exact Hin.
    destruct Hin as (Hx & Hy & Hz). by assert ((x * 16 + y <? 256) = true) as -> by lia. }
  rewrite population_flat, generation_hash_flat.
  assert (sum_range 0 256 (fun j => sum_range 0 16 (fun z =>
            if next_alive (rules st) (cells_g2 st) (j / 16) (j mod 16) z then 1 else 0))
          = sum_range 0 256 (fun j => sum_range 0 16 (fun z =>
            if alive g (j / 16) (j mod 16) z then 1 else 0))) as Hpop.
  { apply sum_range_ext. intros j Hj. apply sum_range_ext. intros z Hz.
    by rewrite Hcells by (apply flat_lattice; lia). }
  split; [reflexivity|]. split; [exact Hpop|]. split; [|exact Hcells].
  split.
  - assert (0 <= sum_range 0 256 (fun j => sum_range 0 16 (fun z =>
            if next_alive (rules st) (cells_g2 st) (j / 16) (j mod 16) z then 1 else 0))
            <= 256 * (16 * 1)); [|lia].
    apply sum_range_bound; [lia|]. intros j _. apply sum_range_bound; [lia|]. intros z _.
    destruct (next_alive _ _ _ _ _); lia.
  - assert (0 <= sum_range 0 256 (fun j => sum_range 0 16 (fun z =>
           neighbours_spec (cells_g2 st) (j / 16) (j mod 16) z
           * (j / 16 * 3 + j mod 16 * 5 + z * 7))) <= 256 * (16 * 5850)); [|lia].
    apply sum_range_bound; [lia|]. intros j Hj. apply sum_range_bound; [lia|]. intros z Hz.
    pose proof (neighbours_spec_range (cells_g2 st) (j / 16) (j mod 16) z).
    pose proof (flat_lattice j z ltac:(lia) ltac:(lia)) as (? & ? & ?). nia.
Qed.


(** X1. One step of the automaton is a synchronous update: the old
    second generation becomes the first, and every cell of the new
    second generation is decided by the rule table entry for the number
    of live neighbours the cell had on the torus in the old generation
    alone (die, be born, or stay as it was). *)
Theorem next_generation_rule (st : Life.t) (hash : Z) (st1 : Life.t) :
  Life.wf st -> Life.game_next_generation st = (hash, st1) ->
  Life.cells_g1 st1 = Life.cells_g2 st /\
  Life.rules st1 = Life.rules st /\
  forall x y z, in_lattice x y z ->
    alive (Life.cells_g2 st1) x y z =
    apply_rule (Life.rules st !!! Z.to_nat (neighbours_spec (Life.cells_g2 st) x y z))
               (alive (Life.cells_g2 st) x y z).
Proof.
  intros Hwf Hgen.
  destruct (game_next_generation_eq st hash st1 Hwf Hgen) as (_ & _ & Hg1 & Hr & _).
  destruct (game_next_generation_closed st hash st1 Hwf Hgen) as (_ & _ & _ & Hcells).
  split; [exact Hg1|]. split; [exact Hr|]. exact Hcells.
Qed.

Lemma next_generation_rule_witness :
  Life.cells_g1 (Life.game_next_generation glider_256).2 = Life.cells_g2 glider_256 /\
  alive (Life.cells_g2 (Life.game_next_generation glider_256).2) 5 7 6 =
  apply_rule (Life.rules glider_256
                !!! Z.to_nat (neighbours_spec (Life.cells_g2 glider_256) 5 7 6))
             (alive (Life.cells_g2 glider_256) 5 7 6).
Proof.
  destruct (next_generation_rule glider_256 _ _ glider_256_wf (surjective_pairing _))
    as (Hg1 & _ & Hcells).
  split; [exact Hg1|]. apply Hcells. unfold in_lattice. lia.
Defined.

(** X2. After every step the population counter [living] is exactly the
    number of live cells of the new generation, at most 4096: the 16-bit
    counter never wraps. *)
Theorem next_generation_population (st : Life.t) (hash : Z) (st1 : Life.t) :
  Life.wf st -> Life.game_next_generation st = (hash, st1) ->
  Life.living st1 = population (Life.cells_g2 st1) /\
  0 <= Life.living st1 <= 4096.
Proof.
  intros Hwf Hgen.
  destruct (game_next_generation_closed st hash st1 Hwf Hgen) as (_ & Hpop & (Hl & _) & _).
  split; [exact Hpop|exact Hl].
Qed.

Lemma next_generation_population_witness :
  Life.living (Life.game_next_generation glider_256).2
  = population (Life.cells_g2 (Life.game_next_generation glider_256).2).
Proof.
  destruct (next_generation_population glider_256 _ _ glider_256_wf (surjective_pairing _))
    as (Hpop & _).
  exact Hpop.
Defined.

(** X3. The hash a step returns is the sum over the lattice of the
    neighbour count of each cell in the generation being replaced,
    weighted by [3x + 5y + 7z]. It depends on that generation only, not
    on the rule table, and the 32-bit accumulator never wraps: the hash
    is at most 23961600. *)
Theorem next_generation_hash (st : Life.t) (hash : Z) (st1 : Life.t) :
  Life.wf st -> Life.game_next_generation st = (hash, st1) ->
  hash = generation_hash (Life.cells_g2 st) /\ 0 <= hash <= 23961600.
Proof.
  intros Hwf Hgen.
  destruct (game_next_generation_closed st hash st1 Hwf Hgen) as (Hh & _ & (_ & Hb) & _).
  split; [exact Hh|exact Hb].
Qed.

Lemma next_generation_hash_witness :
  (Life.game_next_generation glider_256).1 = generation_hash (Life.cells_g2 glider_256).
Proof.
  destruct (next_generation_hash glider_256 _ _ glider_256_wf (surjective_pairing _))
    as (Hh & _).
  exact Hh.
Defined.

End LifeGeneration.

(** ** Sequences of calls *)

Section LifeCalls.
Import Life.

(** The extinction branch of [game_progress]. *)
Lemma game_progress_extinct fuel e st hash st1 :
  wf st -> 0 <= rand e -> sample_u16 (sample e) 400 ->
  game_next_generation st = (hash, st1) -> living st1 = 0 ->
  exists st',
    game_progress fuel e st = Some st' /\
    wf st' /\
    sequence st' = next_sequence (sequence st) /\
    rules st' = preset_rules (sequence st) /\
    living st' = preset_amount e (sequence st) /\
    hash_nr st' = 0 /\ hash_list st' = hash_list st /\
    cells_g1 st' = zero_grid /\
    forall x y z, in_lattice x y z ->
      (Z.testbit (at2 (cells_g2 st') x y) z = true <->
       exists i, 0 <= i < living st' /\ sample e i = (x, y, z)).
Proof.
  intros Hwf Hrand Hs Hgen Hdead. unfold game_progress. rewrite Hgen.
  destruct (game_next_generation_eq st hash st1 Hwf Hgen) as (_ & Hwf1 & _ & _ & Hhl & _ & Hseq).
  rewrite Hdead. change (0 =? 0) with true. cbv iota zeta.
  rewrite (game_reset_spec st1 Hwf1). cbn [sequence].
  eexists. split; [reflexivity|].
  set (st3 := with_sequence _ _).
  destruct (preset_spec e (sequence st1) st3) as (P1 & P2 & P3 & P4 & P5 & P6 & P7 & P8).
  { unfold st3, zero_grid. cbn [with_sequence cells_g2]. rewrite length_replicate. lia. }
  { destruct Hwf1 as (_ & _ & _ & _ & _ & _ & ?). assumption. }
  { reflexivity. }
  { reflexivity. }
  { exact Hs. }
  pose proof (preset_amount_range e (sequence st1)) as Ham.
  pose proof Hwf1 as (_ & _ & _ & W4 & _ & _ & W7).
  rewrite <- Hseq, <- Hhl. rewrite P1, P2, P3, P4, P5, P6.
  split_and!; [|reflexivity|reflexivity|reflexivity|reflexivity|reflexivity|reflexivity|exact P8].
  unfold wf. rewrite P1, P2, P3, P4, P5, P6.
  unfold st3. cbn [with_sequence cells_g1 hash_list hash_nr].
  split_and!; try lia.
  - unfold zero_grid. rewrite length_replicate. lia.
  - exact P7.
  - unfold preset_rules, all_die.
    repeat case_match; rewrite ?length_insert, length_replicate; lia.
  - unfold next_sequence. case_match; lia.
  - unfold next_sequence. case_match; lia.
Qed.


(** X4. [init] empties both generations, installs the all-die table and
    zeroes the population and hash counters, but keeps the preset index
    [sequence]. The first [game_progress] after it therefore always
    takes the extinction branch, whatever the fuel: it returns an
    automaton seeded under the preset that [sequence] selected, with a
    positive population counter, and [sequence] moved on. *)
Theorem init_then_progress_reseeds (fuel : nat) (e : Life.env) (st : Life.t) :
  Life.wf st -> 0 <= Life.rand e -> sample_u16 (Life.sample e) 400 ->
  Life.init st
    = Life.mk zero_grid zero_grid all_die (Life.hash_list st) 0 0 (Life.sequence st) /\
  exists st',
    Life.game_progress fuel e (Life.init st) = Some st' /\
    Life.rules st' = preset_rules (Life.sequence st) /\
    Life.sequence st' = next_sequence (Life.sequence st) /\
    Life.living st' = preset_amount e (Life.sequence st) /\ 0 < Life.living st' /\
    Life.hash_nr st' = 0 /\
    forall x y z, in_lattice x y z ->
      (Z.testbit (Life.at2 (Life.cells_g2 st') x y) z = true <->
       exists i, 0 <= i < Life.living st' /\ Life.sample e i = (x, y, z)).
Proof.
  intros Hwf Hrand Hs. unfold init. rewrite (game_reset_spec st Hwf).
  split; [reflexivity|].
  set (st0 := mk _ _ _ _ _ _ _).
  assert (wf st0) as Hwf0.
  { pose proof Hwf as (_ & _ & _ & W4 & _ & _ & W7). unfold wf, st0, zero_grid, all_die.
    cbn [cells_g1 cells_g2 rules hash_list hash_nr living sequence].
    rewrite !length_replicate. split_and!; lia. }
  pose proof (all_die_extinct st0 eq_refl) as Hdead.
  destruct (game_progress_extinct fuel e st0 _ _ Hwf0 Hrand Hs (surjective_pairing _) Hdead)
    as (st' & Hrun & _ & Hseq & Hrules & Hliving & Hnr & _ & _ & Hcells).
  exists st'. pose proof (preset_amount_range e (sequence st)) as Ham.
  cbn [sequence st0] in Hseq, Hrules, Hliving.
  split_and!; [exact Hrun|exact Hrules|exact Hseq|exact Hliving|lia|exact Hnr|exact Hcells].
Qed.

Lemma init_then_progress_reseeds_witness :
  exists st',
    Life.game_progress 0 centre_env (Life.init glider_256) = Some st' /\
    Life.rules st' = preset_rules 1 /\ Life.sequence st' = 2.
Proof.
  assert (sample_u16 (Life.sample centre_env) 400) as Hs by (intros i _; simpl; lia).
  destruct (init_then_progress_reseeds 0 centre_env glider_256 glider_256_wf
              ltac:(simpl; lia) Hs) as (_ & st' & Hrun & Hrules & Hseq & _).
  exists st'. split_and!; [exact Hrun|exact Hrules|exact Hseq].
Defined.

(** X5. A stagnant automaton is reseeded by the call that follows. When
    a step leaves a live population whose hash has at least 6 recorded
    matches, or a population of 500 or more, [game_progress] returns
    with the all-die table installed and every cell dead; the next
    [game_progress] then takes the extinction branch for any fuel and
    seeds the preset that [sequence] selects. *)
Theorem stagnation_then_reseed (fuel fuel' : nat) (e : Life.env) (st : Life.t)
    (hash : Z) (st1 : Life.t) :
  Life.wf st -> 0 <= Life.rand e -> sample_u16 (Life.sample e) 400 ->
  Life.game_next_generation st = (hash, st1) ->
  Life.living st1 <> 0 ->
  Life.hash_nr st <= 255 -> (Z.to_nat (Life.hash_nr st) < fuel)%nat ->
  6 <= count_matches hash (recorded st1) \/ 500 <= Life.living st1 ->
  exists st2 st3,
    Life.game_progress fuel e st = Some st2 /\
    Life.rules st2 = all_die /\ Life.living st2 = 0 /\
    (forall x y z, in_lattice x y z -> alive (Life.cells_g2 st2) x y z = false) /\
    Life.game_progress fuel' e st2 = Some st3 /\
    Life.rules st3 = preset_rules (Life.sequence st) /\
    Life.sequence st3 = next_sequence (Life.sequence st) /\
    0 < Life.living st3 /\ Life.hash_nr st3 = 0.
Proof.
  intros Hwf Hrand Hs Hgen Halive Hnr Hfuel Hstag.
  destruct (game_next_generation_eq st hash st1 Hwf Hgen)
    as (_ & Hwf1 & _ & _ & Hl1 & Hn1 & Hs1).
  pose proof Hwf1 as (W1 & W2 & W3 & W4 & W5 & W6 & W7).
  pose proof (game_rule_reset_spec st1 W3) as Hreset.
  assert (wf (game_rule_reset st1)) as Hwfr.
  { rewrite Hreset. unfold wf.
    cbn [cells_g1 cells_g2 rules hash_list hash_nr living sequence].
    rewrite length_replicate. split_and!; lia. }
  destruct (game_next_generation (game_rule_reset st1)) as [h2 st2] eqn:Hgen2.
  destruct (game_next_generation_eq _ _ _ Hwfr Hgen2) as (_ & Hwf2 & _ & Hr2 & _ & _ & Hs2).
  destruct (settle_spec st1 h2 st2 Hwf1 Hgen2) as (K1 & K2 & _ & _ & _ & K6).
  destruct (game_next_generation_closed _ _ _ Hwfr Hgen2) as (_ & _ & _ & Hcells).
  pose proof (all_die_extinct st2 K1) as Hdead.
  destruct (game_progress_extinct fuel' e st2 _ _ Hwf2 Hrand Hs (surjective_pairing _) Hdead)
    as (st3 & Hrun3 & _ & Hseq3 & Hrules3 & Hliving3 & Hnr3 & _).
  pose proof (preset_amount_range e (sequence st2)) as Ham.
  exists st2, st3. split_and!.
  - rewrite (game_progress_alive fuel e st hash st1 Hgen Halive).
    rewrite (scan_counts fuel st1 hash 0 0) by (rewrite ?Hn1; lia).
    rewrite Z.add_0_l. change (Z.to_nat 0) with 0%nat. rewrite drop_0.
    assert ((6 <=? count_matches hash (recorded st1)) || (500 <=? living st1) = true) as ->.
    { apply orb_true_iff. destruct Hstag; [left|right]; lia. }
    rewrite Hgen2. reflexivity.
  - exact K1.
  - exact K2.
  - intros x y z Hin. rewrite (Hcells x y z Hin). unfold next_alive.
    rewrite Hreset. cbn [rules cells_g2].
    pose proof (neighbours_spec_range (cells_g2 st1) x y z) as Hn.
    rewrite lookup_total_replicate_2 by lia. reflexivity.
  - exact Hrun3.
  - rewrite Hrules3, K6, Hs1. reflexivity.
  - rewrite Hseq3, K6, Hs1. reflexivity.
  - lia.
  - exact Hnr3.
Qed.

Lemma stagnation_then_reseed_witness :
  exists st2 st3,
    Life.game_progress 1 centre_env crowded = Some st2 /\ Life.living st2 = 0 /\
    Life.game_progress 0 centre_env st2 = Some st3 /\
    Life.rules st3 = preset_rules 0 /\ Life.sequence st3 = 1.
Proof.
  assert (Life.wf crowded) as Hwf by (apply life_wfb_wf; vm_compute; reflexivity).
  assert (sample_u16 (Life.sample centre_env) 400) as Hs by (intros i _; simpl; lia).
  assert (Life.living (Life.game_next_generation crowded).2 = 4096) as Hl
    by (vm_compute; reflexivity).
  destruct (stagnation_then_reseed 1 0 centre_env crowded _ _ Hwf ltac:(simpl; lia) Hs
              (surjective_pairing _))
    as (st2 & st3 & Hrun & _ & Hl2 & _ & Hrun3 & Hrules & Hseq & _).
  - rewrite Hl. discriminate.
  - cbn [Life.hash_nr crowded]. lia.
  - cbn [Life.hash_nr crowded]. lia.
  - right. rewrite Hl. lia.
  - exists st2, st3. split_and!; [exact Hrun|exact Hl2|exact Hrun3|exact Hrules|exact Hseq].
Defined.

End LifeCalls.

(** ** The view of the automaton *)

Section LifeViewDraw.
Import Display.

Lemma mask_test c z :
  0 <= z < 16 ->
  negb (Z.land c (Int.wrap_u16 (Z.shiftl 1 z)) =? 0) = Z.testbit c z.
Proof.
  intros Hz. rewrite Z.shiftl_1_l.
  assert (0 < 2 ^ z < 65536) as Hp.
  { split; [apply Z.pow_pos_nonneg; lia|].
    change 65536 with (2 ^ 16). apply Z.pow_lt_mono_r; lia. }
  unfold Int.wrap_u16. rewrite Z.mod_small by lia.
  rewrite <- Z.shiftl_1_l, land_bit by lia.
  destruct (Z.testbit c z); [|reflexivity]. apply negb_true_iff, Z.eqb_neq. lia.
Qed.

Lemma draw_cell_inv index cols g1 g2 x y z st u :
  frame_inv st u -> frame_inv st (LifeView.draw_cell index cols g1 g2 x y z u).
Proof.
  intros Hu. unfold LifeView.draw_cell, voxel.
  repeat (destruct (negb _); [destruct (_ =? 0); [by apply frame_inv_set|done]|]). done.
Qed.

Lemma draw_cell_get index cols l x y z st u k :
  index = 0 \/ index = 1 ->
  in_lattice x y z -> frame_inv st u -> valid3 k ->
  get3 (cubeBuffer st) k
    (LifeView.draw_cell index cols (Life.at2 (Life.cells_g1 l) x y)
       (Life.at2 (Life.cells_g2 l) x y) x y z u) =
  if (k.2 =? z) && ((k.1.1 =? x) && (k.1.2 =? y))
  then shown index cols l k (get3 (cubeBuffer st) k u)
  else get3 (cubeBuffer st) k u.
Proof.
  intros Hi Hin (Hwf & Hcb & _) Hk. destruct k as [[kx ky] kz]. cbn [fst snd] in *.
  pose proof Hin as (Hx & Hy & Hz).
  assert (cubeBuffer st = 0 \/ cubeBuffer st = 1) as Hb by (destruct Hwf as (Hb & _); lia).
  unfold LifeView.draw_cell.
  rewrite !mask_test by done. rewrite !Z.land_spec, !Z.lnot_spec by lia.
  unfold Int.wrap_u8, Int.wrap_u16. rewrite !(Z.mod_small _ 256) by lia.
  rewrite !(Z.mod_small _ 65536) by lia. rewrite Z.add_0_r.
  unfold voxel. rewrite (proj2 (Z.eqb_eq _ 0)).
  2:{ apply land_lor3_zero. split_and!; apply Z.eqb_eq; rewrite u8_mask by lia; lia. }
  unfold shown, get3.
  destruct (decide ((kx, ky, kz) = (x, y, z))) as [Heq|Hne].
  - injection Heq as -> -> ->. rewrite !Z.eqb_refl. cbn [andb].
    rewrite !(alive_lattice _ x y z Hin). rewrite <- Hcb.
    destruct (Z.testbit (Life.at2 (Life.cells_g1 l) x y) z),
             (Z.testbit (Life.at2 (Life.cells_g2 l) x y) z); cbn [andb negb];
      try (rewrite get_set_eq; [reflexivity|exact Hwf|lia|exact Hin]).
    reflexivity.
  - assert ((kz =? z) && ((kx =? x) && (ky =? y)) = false) as ->.
    { destruct (Z.eqb_spec kz z), (Z.eqb_spec kx x), (Z.eqb_spec ky y); simpl; try done.
      subst. done. }
    rewrite <- Hcb.
    destruct (Z.testbit (Life.at2 (Life.cells_g1 l) x y) z),
             (Z.testbit (Life.at2 (Life.cells_g2 l) x y) z); cbn [andb negb];
      try (rewrite get_set_ne; [reflexivity|exact Hwf|lia|lia|exact Hin|exact Hk|congruence]).
    reflexivity.
Qed.


Lemma draw_spec index cols l st :
  index = 0 \/ index = 1 -> wf st ->
  frame_inv st (LifeView.draw index cols l st) /\
  forall k, valid3 k ->
    get3 (cubeBuffer st) k (LifeView.draw index cols l st)
    = shown index cols l k (get3 (cubeBuffer st) k st).
Proof.
  intros Hi Hwf. unfold LifeView.draw.
  assert (forall x y u, 0 <= x < 16 -> 0 <= y < 16 -> frame_inv st u ->
    let body := LifeView.draw_cell index cols (Life.at2 (Life.cells_g1 l) x y)
                  (Life.at2 (Life.cells_g2 l) x y) x y in
    frame_inv st (for_range 0 16 body u) /\
    forall k, valid3 k ->
      get3 (cubeBuffer st) k (for_range 0 16 body u) =
      if ((0 <=? k.2) && (k.2 <? 0 + 16)) && ((k.1.1 =? x) && (k.1.2 =? y))
      then shown index cols l k (get3 (cubeBuffer st) k u)
      else get3 (cubeBuffer st) k u) as Hz.
  { intros x y u Hx Hy Hu body.
    apply (for_range_cellwise (get3 (cubeBuffer st)) valid3 (frame_inv st) snd
             (fun k => (k.1.1 =? x) && (k.1.2 =? y)) (shown index cols l)).
    - intros i t _ Ht. by apply draw_cell_inv.
    - intros i t k Hi' Ht Hk.
      apply draw_cell_get; [exact Hi|unfold in_lattice; lia|exact Ht|exact Hk].
    - exact Hu. }
  assert (forall x u, 0 <= x < 16 -> frame_inv st u ->
    let body := fun y d =>
      for_range 0 16 (LifeView.draw_cell index cols (Life.at2 (Life.cells_g1 l) x y)
                        (Life.at2 (Life.cells_g2 l) x y) x y) d in
    frame_inv st (for_range 0 16 body u) /\
    forall k, valid3 k ->
      get3 (cubeBuffer st) k (for_range 0 16 body u) =
      if ((0 <=? k.1.2) && (k.1.2 <? 0 + 16)) && (k.1.1 =? x)
      then shown index cols l k (get3 (cubeBuffer st) k u)
      else get3 (cubeBuffer st) k u) as Hy.
  { intros x u Hx Hu body.
    apply (for_range_cellwise (get3 (cubeBuffer st)) valid3 (frame_inv st) (fun k => k.1.2)
             (fun k => k.1.1 =? x) (shown index cols l)).
    - intros i t Hi' Ht. apply Hz; [done|lia|done].
    - intros i t k Hi' Ht Hk. destruct (Hz x i t Hx ltac:(lia) Ht) as [_ Hget].
      rewrite Hget by done. destruct k as [[kx ky] kz]. destruct Hk as (? & ? & ?).
      cbn [fst snd] in *.
      assert ((0 <=? kz) && (kz <? 0 + 16) = true) as -> by lia.
      cbn [andb]. by rewrite andb_comm.
    - exact Hu. }
  destruct (for_range_cellwise (get3 (cubeBuffer st)) valid3 (frame_inv st) (fun k => k.1.1)
              (fun _ => true) (shown index cols l) 0 16
              (fun x => for_range 0 16 (fun y d =>
                 for_range 0 16 (LifeView.draw_cell index cols (Life.at2 (Life.cells_g1 l) x y)
                                   (Life.at2 (Life.cells_g2 l) x y) x y) d)) st)
    as [Hinv Hget].
  - intros i t Hi' Ht. by apply Hy.
  - intros i t k Hi' Ht Hk. destruct (Hy i t Hi' Ht) as [_ Hg].
    rewrite Hg by done. destruct k as [[kx ky] kz]. destruct Hk as (? & ? & ?).
    cbn [fst snd] in *.
    assert ((0 <=? ky) && (ky <? 0 + 16) = true) as -> by lia.
    cbn [andb]. by rewrite andb_true_r.
  - by apply frame_inv_refl.
  - split; [exact Hinv|]. intros k Hk. rewrite Hget by done.
    destruct k as [[kx ky] kz]. destruct Hk as (? & ? & ?). cbn [fst snd] in *.
    by assert ((0 <=? kx) && (kx <? 0 + 16) && true = true) as -> by lia.
Qed.


(** X6. [LifeDemo::update] advances the phase by [dt] and draws the
    automaton at the cross-fade position the new phase [tp] selects.
    While [tp <= 0.15f] the automaton is not stepped, the phase becomes
    [tp], and the cells are drawn with [index] 0 and weight
    [(uint8_t)(255 * tp / 0.15f)]. While [0.15f < tp <= 2 * 0.15f] the
    automaton is not stepped either, the phase becomes [tp], and the
    cells are drawn with [index] 1 and weight
    [(uint8_t)(255 * (tp - 0.15f) / 0.15f)]. Otherwise, and only then,
    [game_progress] runs once: the phase restarts at 0 and the stepped
    automaton is drawn with [index] 0 and weight 0; the call returns
    exactly when [game_progress] does. In each case a cell alive in both
    generations, in the first only, or in the second only gets entry
    [index], [index + 2] or [index + 4] of the six cross-fade colours, a
    cell dead in both is not written, and nothing outside the write
    buffer changes. *)
Theorem life_view_shows (fuel : nat) (e : Life.env) (dt : F32.f32)
    (v : LifeView.t) (d : Display.t) :
  Display.wf d ->
  let tp := F32.add (LifeView.time_phase v) dt in
  let first := Libm.leb tp LifeView.time_interval in
  let second := Libm.leb tp (F32.mul (F32.of_Z 2) LifeView.time_interval) in
  (first = true ->
     exists d',
       LifeView.update fuel e dt v d = Some (LifeView.mk (LifeView.life v) tp, d') /\
       drawn_over 0
         (F32.to_uint8 (F32.div (F32.mul (F32.of_Z 255) tp) LifeView.time_interval))
         (LifeView.life v) d d') /\
  (first = false -> second = true ->
     exists d',
       LifeView.update fuel e dt v d = Some (LifeView.mk (LifeView.life v) tp, d') /\
       drawn_over 1
         (F32.to_uint8 (F32.div (F32.mul (F32.of_Z 255) (F32.sub tp LifeView.time_interval))
                          LifeView.time_interval))
         (LifeView.life v) d d') /\
  (first = false -> second = false ->
     match Life.game_progress fuel e (LifeView.life v) with
     | Some l' =>
         exists d',
           LifeView.update fuel e dt v d = Some (LifeView.mk l' (F32.of_Z 0), d') /\
           drawn_over 0 0 l' d d'
     | None => LifeView.update fuel e dt v d = None
     end).
Proof.
  intros Hwf tp first second.
  assert (forall index scale l', index = 0 \/ index = 1 ->
            drawn_over index scale l' d (LifeView.draw index (LifeView.colors scale) l' d))
    as Hdraw.
  { intros index scale l' Hi.
    destruct (draw_spec index (LifeView.colors scale) l' d Hi Hwf) as [Hinv Hget].
    split; [exact Hinv|]. intros x y z Hin. exact (Hget (x, y, z) Hin). }
  split; [|split].
  - intros H1. unfold LifeView.update. fold tp. fold first. rewrite H1.
    eexists. split; [reflexivity|]. apply Hdraw. by left.
  - intros H1 H2. unfold LifeView.update. fold tp. fold first. rewrite H1.
    fold second. rewrite H2.
    eexists. split; [reflexivity|]. apply Hdraw. by right.
  - intros H1 H2. unfold LifeView.update. fold tp. fold first. rewrite H1.
    fold second. rewrite H2.
    destruct (Life.game_progress fuel e (LifeView.life v)) as [l'|]; [|reflexivity].
    eexists. split; [reflexivity|].
    change (F32.to_uint8 (F32.of_Z 0)) with 0. apply Hdraw. by left.
Qed.

Lemma life_view_shows_witness :
  exists d',
    LifeView.update 0 centre_env (F32.of_scaled 1 (-4))
      (LifeView.mk lonely_cell (F32.of_Z 0)) Display.initial
    = Some (LifeView.mk lonely_cell (F32.add (F32.of_Z 0) (F32.of_scaled 1 (-4))), d') /\
    Display.get d' (Display.cubeBuffer Display.initial) 8 8 8 =
    shown 0 (LifeView.colors 106) lonely_cell (8, 8, 8)
      (Display.get Display.initial (Display.cubeBuffer Display.initial) 8 8 8).
Proof.
  destruct (life_view_shows 0 centre_env (F32.of_scaled 1 (-4))
              (LifeView.mk lonely_cell (F32.of_Z 0)) Display.initial wf_initial)
    as [Hfirst _].
  destruct (Hfirst eq_refl) as (d' & Hrun & _ & Hget).
  exists d'. split; [exact Hrun|].
  apply (Hget 8 8 8). unfold in_lattice. lia.
Defined.

End LifeViewDraw.

(** * Further properties of the volume *)

(** ** [begin], [clear] and frames without drawing *)

Section DisplayCalls.
Import Display.

Lemma clear_spec st :
  wf st ->
  wf (clear st) /\
  cubeBuffer (clear st) = cubeBuffer st /\
  rawBuffer (clear st) = rawBuffer st /\
  motionBlur (clear st) = motionBlur st /\
  buffer (clear st) (cubeBuffer st) = black_buffer /\
  buffer (clear st) (1 - cubeBuffer st) = buffer st (1 - cubeBuffer st).
Proof.
  intros Hwf. pose proof Hwf as (Hb & Hl & Hall & Hr & Hblur).
  unfold clear, with_cube, buffer. cbn [cube cubeBuffer rawBuffer motionBlur].
  split_and!; try reflexivity.
  - unfold wf. cbn [cube cubeBuffer rawBuffer motionBlur]. split_and!; try done.
    + by rewrite length_insert.
    + intros l Hl'. apply list_elem_of_lookup in Hl' as [i Hi].
      apply list_lookup_insert_Some in Hi as [(_ & <- & _)|(_ & Hi)].
      * vm_compute. reflexivity.
      * apply Hall. by eapply list_elem_of_lookup_2.
  - apply list_lookup_total_insert_eq. lia.
  - apply list_lookup_total_insert_ne. lia.
Qed.

(** X7. [Display::begin] clears the buffer that is selected when it is
    called and only then selects buffer 0. Called with the selector at
    0 it leaves a black write buffer; called with the selector at 1 it
    blacks out buffer 1 and makes buffer 0 the write buffer as it is,
    uncleared. The raw frame and the blur setting are not touched. *)
Theorem begin_clears_then_selects (st : Display.t) :
  Display.wf st ->
  Display.wf (Display.begin st) /\
  Display.cubeBuffer (Display.begin st) = 0 /\
  Display.buffer (Display.begin st) (Display.cubeBuffer st) = Display.black_buffer /\
  Display.buffer (Display.begin st) (1 - Display.cubeBuffer st)
    = Display.buffer st (1 - Display.cubeBuffer st) /\
  Display.rawBuffer (Display.begin st) = Display.rawBuffer st /\
  Display.motionBlur (Display.begin st) = Display.motionBlur st /\
  (Display.cubeBuffer st = 1 ->
     Display.buffer (Display.begin st) (Display.cubeBuffer (Display.begin st))
       = Display.buffer st 0).
Proof.
  intros Hwf. destruct (clear_spec st Hwf) as (Hwf' & Hcb & Hraw & Hblur & Hcur & Hoth).
  unfold begin. cbn [cubeBuffer rawBuffer motionBlur].
  assert (forall buf, buffer (mk (cube (clear st)) 0 (rawBuffer (clear st))
                                (motionBlur (clear st))) buf = buffer (clear st) buf) as Hbuf
    by reflexivity.
  rewrite !Hbuf. split_and!; try done.
  - destruct Hwf' as (_ & ? & ? & ? & ?). unfold wf.
    cbn [cube cubeBuffer rawBuffer motionBlur]. split_and!; try done. by left.
  - intros H1. rewrite H1 in Hoth. exact Hoth.
Qed.

Lemma begin_clears_then_selects_witness :
  Display.cubeBuffer after_red_frame = 1 /\
  Display.buffer (Display.begin after_red_frame) 0 = Display.buffer after_red_frame 0 /\
  Display.get (Display.begin after_red_frame) 0 8 8 8 = red.
Proof.
  assert (wf after_red_frame) as Hwf.
  { destruct (update_spec one_red_voxel wf_one_red_voxel) as (_ & _ & _ & _ & Hwf & _).
    exact Hwf. }
  assert (cubeBuffer after_red_frame = 1) as H1.
  { destruct (update_spec one_red_voxel wf_one_red_voxel) as (Hcb & _). exact Hcb. }
  destruct (begin_clears_then_selects after_red_frame Hwf) as (_ & Hcb & _ & _ & _ & _ & Hkeep).
  specialize (Hkeep H1). rewrite Hcb in Hkeep.
  split; [exact H1|]. split; [exact Hkeep|].
  unfold get. rewrite Hkeep.
  destruct (update_spec one_red_voxel wf_one_red_voxel) as (_ & _ & _ & Hold & _).
  change (buffer after_red_frame 0) with (buffer (update one_red_voxel) (cubeBuffer one_red_voxel)).
  rewrite Hold. change (get one_red_voxel 0 8 8 8 = red).
  rewrite get_one_red_voxel by (unfold in_lattice; lia). reflexivity.
Defined.

(** X8. Frames advanced without any drawing: what the client drew is
    shown once blended with the frame before it, once more blended
    with black at the blur weight, and is gone from the third raw frame
    on, whatever the blur. After two advances both buffers are black and
    the selector is back where it was. *)
Theorem undrawn_frames_fade (st : Display.t) (x y z : Z) :
  Display.wf st -> in_lattice x y z ->
  Display.raw_cell (Display.update (Display.update st)) x y z =
    Color.bytes (Color.blend (Display.motionBlur st) Color.BLACK
                   (Display.get st (Display.cubeBuffer st) x y z)) /\
  Display.raw_cell (Display.update (Display.update (Display.update st))) x y z = [0; 0; 0] /\
  Display.cubeBuffer (Display.update (Display.update st)) = Display.cubeBuffer st /\
  Display.buffer (Display.update (Display.update st)) 0 = Display.black_buffer /\
  Display.buffer (Display.update (Display.update st)) 1 = Display.black_buffer.
Proof.
  intros Hwf Hin.
  destruct (update_spec st Hwf) as (Hcb1 & Hblur1 & Hnew1 & Hold1 & Hwf1 & _).
  destruct (update_spec _ Hwf1) as (Hcb2 & Hblur2 & Hnew2 & Hold2 & Hwf2 & Hraw2).
  destruct (update_spec _ Hwf2) as (_ & _ & _ & _ & _ & Hraw3).
  pose proof Hwf as (Hb & _).
  rewrite Hcb1 in Hcb2, Hnew2, Hold2, Hraw2.
  replace (1 - (1 - cubeBuffer st)) with (cubeBuffer st) in * by lia.
  assert (buffer (update (update st)) (1 - cubeBuffer st) = black_buffer) as Hb2
    by (rewrite Hold2; exact Hnew1).
  split_and!.
  - rewrite Hraw2 by exact Hin. rewrite Hblur1.
    rewrite (get_black (update st) (1 - cubeBuffer st) x y z Hnew1 Hin).
    unfold get at 1. rewrite Hold1. reflexivity.
  - rewrite Hraw3 by exact Hin. rewrite Hcb2.
    rewrite (get_black _ (cubeBuffer st) x y z Hnew2 Hin).
    rewrite (get_black _ (1 - cubeBuffer st) x y z Hb2 Hin).
    unfold Color.blend, Color.blend8, Color.bytes, Color.BLACK. cbn [Color.r Color.g Color.b].
    rewrite !Z.mul_0_l. reflexivity.
  - exact Hcb2.
  - destruct Hb as [H0|H0]; rewrite H0 in *; [exact Hnew2|exact Hb2].
  - destruct Hb as [H0|H0]; rewrite H0 in *; [exact Hb2|exact Hnew2].
Qed.

Lemma undrawn_frames_fade_witness :
  Display.raw_cell (Display.update (Display.update one_red_voxel)) 8 8 8 = [64; 0; 0] /\
  Display.raw_cell (Display.update (Display.update (Display.update one_red_voxel))) 8 8 8
    = [0; 0; 0].
Proof.
  destruct (undrawn_frames_fade one_red_voxel 8 8 8 wf_one_red_voxel)
    as (H2 & H3 & _); [unfold in_lattice; lia|].
  split; [|exact H3]. rewrite H2.
  change (cubeBuffer one_red_voxel) with 0. change (motionBlur one_red_voxel) with 64.
  rewrite get_one_red_voxel by (unfold in_lattice; lia || by left). vm_compute. reflexivity.
Defined.


(** ** Writes that meet in one frame *)

Lemma set_set_eq st buf x y z c c' :
  set (set st buf x y z c) buf x y z c' = set st buf x y z c'.
Proof.
  unfold set, with_cube. cbn [cube cubeBuffer rawBuffer motionBlur].
  f_equal. rewrite list_alter_alter_eq. apply list_alter_ext; [|reflexivity].
  intros l _. cbn. apply list_insert_insert_eq.
Qed.

Lemma set_set_ne st buf x y z c x' y' z' c' :
  index x y z <> index x' y' z' ->
  set (set st buf x' y' z' c') buf x y z c = set (set st buf x y z c) buf x' y' z' c'.
Proof.
  intros Hne. unfold set, with_cube. cbn [cube cubeBuffer rawBuffer motionBlur].
  f_equal. rewrite !list_alter_alter_eq. apply list_alter_ext; [|reflexivity].
  intros l _. cbn. by apply list_insert_insert_ne.
Qed.

Lemma voxel_eq st x y z c :
  Int.is_u8 x -> Int.is_u8 y -> Int.is_u8 z ->
  voxel x y z c st = if (x <? 16) && (y <? 16) && (z <? 16)
                     then set st (cubeBuffer st) x y z c else st.
Proof.
  intros Hx Hy Hz. unfold voxel. by rewrite land3_eqb, !u8_mask by done.
Qed.

(** X9. Writes of [voxel] in one frame: the last write to a cell wins,
    and writes to different cells can be swapped. *)
Theorem voxel_writes_compose (st : Display.t) (x y z x' y' z' : Z) (c c' : Color.t) :
  Int.is_u8 x -> Int.is_u8 y -> Int.is_u8 z ->
  Int.is_u8 x' -> Int.is_u8 y' -> Int.is_u8 z' ->
  Display.voxel x y z c' (Display.voxel x y z c st) = Display.voxel x y z c' st /\
  ((x, y, z) <> (x', y', z') ->
   Display.voxel x y z c (Display.voxel x' y' z' c' st)
   = Display.voxel x' y' z' c' (Display.voxel x y z c st)).
Proof.
  intros Hx Hy Hz Hx' Hy' Hz'. unfold Int.is_u8 in *. split.
  - rewrite !voxel_eq by done.
    destruct ((x <? 16) && (y <? 16) && (z <? 16)) eqn:Hin; [|reflexivity].
    change (cubeBuffer (set st (cubeBuffer st) x y z c)) with (cubeBuffer st).
    apply set_set_eq.
  - intros Hne. rewrite !voxel_eq by done.
    destruct ((x <? 16) && (y <? 16) && (z <? 16)) eqn:Hin,
             ((x' <? 16) && (y' <? 16) && (z' <? 16)) eqn:Hin'; try reflexivity.
    change (cubeBuffer (set st (cubeBuffer st) x y z c)) with (cubeBuffer st).
    change (cubeBuffer (set st (cubeBuffer st) x' y' z' c')) with (cubeBuffer st).
    apply set_set_ne. intros Heq.
    apply index_inj in Heq; [|unfold in_lattice; lia..].
    destruct Heq as (-> & -> & ->). done.
Qed.

Lemma voxel_writes_compose_witness :
  Display.voxel 1 2 3 red (Display.voxel 1 2 3 amber Display.initial)
  = Display.voxel 1 2 3 red Display.initial.
Proof.
  destruct (voxel_writes_compose Display.initial 1 2 3 1 2 3 amber red) as [H _];
    [unfold Int.is_u8; lia..|].
  exact H.
Defined.


Lemma lattice_range t c : Int.is_s16 (lattice t c).
Proof. apply wrap_s16_range. Qed.

Lemma add8_swap a b c :
  0 <= b -> 0 <= c ->
  Z.min 255 (Z.min 255 (a + b) + c) = Z.min 255 (Z.min 255 (a + c) + b).
Proof. lia. Qed.

Lemma color_add_swap o c c' :
  Color.wf c -> Color.wf c' ->
  Color.add (Color.add o c) c' = Color.add (Color.add o c') c.
Proof.
  intros (? & ? & ?) (? & ? & ?). unfold Int.is_u8 in *.
  unfold Color.add. cbn [Color.r Color.g Color.b].
  f_equal; apply add8_swap; lia.
Qed.

(** X10. [voxel_add] adds [c] into the cell that [voxel] would write
    for the same position, channel by channel and saturating at 255,
    and changes nothing else; outside the volume it is a no-op. Two
    additive writes give the same volume in either order, at the same
    cell or at different ones. *)
Theorem voxel_add_accumulates (v w : Vector3.t) (c c' : Color.t) (st : Display.t) :
  Display.wf st -> Color.wf c -> Color.wf c' ->
  let x := Display.lattice (Vector3.x v) Display.CX in
  let y := Display.lattice (Vector3.y v) Display.CY in
  let z := Display.lattice (Vector3.z v) Display.CZ in
  (in_lattice x y z ->
     Display.voxel_add v c st
       = Display.set st (Display.cubeBuffer st) x y z
           (Color.add (Display.get st (Display.cubeBuffer st) x y z) c) /\
     Display.get (Display.voxel_add v c st) (Display.cubeBuffer st) x y z
       = Color.mk (Z.min 255 (Color.r (Display.get st (Display.cubeBuffer st) x y z) + Color.r c))
                  (Z.min 255 (Color.g (Display.get st (Display.cubeBuffer st) x y z) + Color.g c))
                  (Z.min 255 (Color.b (Display.get st (Display.cubeBuffer st) x y z) + Color.b c)) /\
     (forall buf x' y' z',
        buf = 0 \/ buf = 1 -> in_lattice x' y' z' ->
        (buf, x', y', z') <> (Display.cubeBuffer st, x, y, z) ->
        Display.get (Display.voxel_add v c st) buf x' y' z' = Display.get st buf x' y' z') /\
     frame_inv st (Display.voxel_add v c st)) /\
  (~ in_lattice x y z -> Display.voxel_add v c st = st) /\
  Display.voxel_add v c (Display.voxel_add w c' st)
    = Display.voxel_add w c' (Display.voxel_add v c st).
Proof.
  intros Hwf Hc Hc' x y z. pose proof Hwf as (Hb & _).
  assert (forall u b a,
            voxel_add u b a =
            if in_volume (lattice (Vector3.x u) CX) (lattice (Vector3.y u) CY)
                 (lattice (Vector3.z u) CZ)
            then set a (cubeBuffer a) (lattice (Vector3.x u) CX) (lattice (Vector3.y u) CY)
                   (lattice (Vector3.z u) CZ)
                   (Color.add (get a (cubeBuffer a) (lattice (Vector3.x u) CX)
                                 (lattice (Vector3.y u) CY) (lattice (Vector3.z u) CZ)) b)
            else a) as Hadd by reflexivity.
  split_and!.
  - intros Hin. rewrite Hadd. fold x y z.
    rewrite (in_volume_lattice x y z Hin). split_and!.
    + reflexivity.
    + by rewrite get_set_eq.
    + intros buf x' y' z' Hbuf Hin' Hne. by apply get_set_ne.
    + apply frame_inv_set. by apply frame_inv_refl.
  - intros Hout. rewrite Hadd. fold x y z.
    destruct (in_volume x y z) eqn:Hvol; [|reflexivity].
    exfalso. apply Hout. apply lattice_in_volume; [apply lattice_range..|exact Hvol].
  - rewrite (Hadd w c' st), (Hadd v c st). fold x y z.
    set (x' := lattice (Vector3.x w) CX). set (y' := lattice (Vector3.y w) CY).
    set (z' := lattice (Vector3.z w) CZ).
    destruct (in_volume x y z) eqn:Hv, (in_volume x' y' z') eqn:Hw.
    + apply lattice_in_volume in Hv as Hin; [|apply lattice_range..].
      apply lattice_in_volume in Hw as Hin'; [|apply lattice_range..].
      rewrite !Hadd. fold x y z x' y' z'. rewrite Hv, Hw.
      change (cubeBuffer (set st (cubeBuffer st) x y z _)) with (cubeBuffer st).
      change (cubeBuffer (set st (cubeBuffer st) x' y' z' _)) with (cubeBuffer st).
      destruct (decide ((x, y, z) = (x', y', z'))) as [Heq|Hne].
      * injection Heq as Hx Hy Hz. rewrite <- Hx, <- Hy, <- Hz.
        rewrite !get_set_eq by done. rewrite !set_set_eq.
        f_equal. by apply color_add_swap.
      * rewrite !get_set_ne by (done || congruence).
        apply set_set_ne. intros Heq. apply index_inj in Heq; [|done..].
        destruct Heq as (-> & -> & ->). done.
    + rewrite !Hadd. fold x y z x' y' z'. rewrite Hv, Hw. reflexivity.
    + rewrite !Hadd. fold x y z x' y' z'. rewrite Hv, Hw. reflexivity.
    + rewrite !Hadd. fold x y z x' y' z'. rewrite Hv, Hw. reflexivity.
Qed.

Lemma voxel_add_accumulates_witness :
  Display.get (Display.voxel_add origin amber (Display.voxel_add origin red Display.initial))
    0 8 8 8 = Color.mk 255 20 30.
Proof.
  assert (Color.wf amber /\ Color.wf red) as [Ha Hr]
    by (unfold Color.wf, Int.is_u8; cbn; lia).
  destruct (voxel_add_accumulates origin origin amber red Display.initial wf_initial Ha Hr)
    as (_ & _ & Hswap).
  rewrite Hswap. vm_compute. reflexivity.
Defined.


(** ** The sphere primitives among themselves *)

Lemma glow_cells d st st' :
  is_glow d = true -> wf st -> draw_one d st = Some st' ->
  frame_inv st st' /\
  exists (hit : Z * Z * Z -> bool) (g : Z * Z * Z -> Color.t),
    (forall u u', wf u -> draw_one d u = Some u' ->
       forall x y z, in_lattice x y z ->
         get u' (cubeBuffer u) x y z =
         if hit (x, y, z) then Color.maximize (get u (cubeBuffer u) x y z) (g (x, y, z))
         else get u (cubeBuffer u) x y z).
Proof.
  intros Hg Hwf Hrun. split; [by eapply draw_one_frame|].
  destruct d as [x y z c|v c|v c|fuel v c r|fuel v c r]; try discriminate; cbn [draw_one] in *.
  - exists (fun k => in_box (box (Vector3.add v (Vector3.mk CX CY CZ)) r) k &&
                     F32.ltb (distance (Vector3.add v (Vector3.mk CX CY CZ)) k.1.1 k.1.2 k.2) r),
           (fun k => Color.scaled c (F32.to_uint8
                       (falloff_linear
                          (distance (Vector3.add v (Vector3.mk CX CY CZ)) k.1.1 k.1.2 k.2) r))).
    intros u u' Hu Hr x y z Hin.
    destruct (sweep_cells falloff_linear fuel v c r u u' Hu Hr) as [_ Hget].
    by rewrite Hget.
  - exists (fun k => in_box (box (Vector3.add v (Vector3.mk CX CY CZ)) r) k &&
                     F32.ltb (distance (Vector3.add v (Vector3.mk CX CY CZ)) k.1.1 k.1.2 k.2) r),
           (fun k => Color.scaled c (F32.to_uint8
                       (falloff_5
                          (distance (Vector3.add v (Vector3.mk CX CY CZ)) k.1.1 k.1.2 k.2) r))).
    intros u u' Hu Hr x y z Hin.
    destruct (sweep_cells falloff_5 fuel v c r u u' Hu Hr) as [_ Hget].
    by rewrite Hget.
Qed.

Lemma maximize_swap o a b :
  Color.maximize (Color.maximize o a) b = Color.maximize (Color.maximize o b) a.
Proof. unfold Color.maximize. cbn [Color.r Color.g Color.b]. f_equal; lia. Qed.

Lemma maximize_twice o a : Color.maximize (Color.maximize o a) a = Color.maximize o a.
Proof. unfold Color.maximize. cbn [Color.r Color.g Color.b]. f_equal; lia. Qed.

(** X11. [radiate] and [radiate5] only brighten: after either call no
    channel of any cell is below what it was, and a second call with
    the same arguments changes no cell. *)
Theorem glow_only_brightens (d : draw) (st st' : Display.t) :
  is_glow d = true -> Display.wf st -> draw_one d st = Some st' ->
  (forall x y z, in_lattice x y z ->
     dimmer (Display.get st (Display.cubeBuffer st) x y z)
            (Display.get st' (Display.cubeBuffer st) x y z)) /\
  (forall st'', draw_one d st' = Some st'' ->
     forall x y z, in_lattice x y z ->
       Display.get st'' (Display.cubeBuffer st) x y z
       = Display.get st' (Display.cubeBuffer st) x y z).
Proof.
  intros Hg Hwf Hrun.
  destruct (glow_cells d st st' Hg Hwf Hrun) as ((Hwf' & Hcb & _) & hit & g & Hget).
  split.
  - intros x y z Hin. rewrite (Hget st st' Hwf Hrun x y z Hin).
    destruct (hit _); unfold dimmer, Color.maximize; cbn [Color.r Color.g Color.b]; lia.
  - intros st'' Hrun' x y z Hin.
    pose proof (Hget st' st'' Hwf' Hrun' x y z Hin) as H2. rewrite Hcb in H2.
    rewrite H2, (Hget st st' Hwf Hrun x y z Hin).
    destruct (hit _); [apply maximize_twice|reflexivity].
Qed.

Lemma glow_only_brightens_witness :
  exists st',
    Display.radiate 10 half3 amber (F32.of_Z 1) one_red_voxel = Some st' /\
    dimmer (Display.get one_red_voxel 0 8 8 8) (Display.get st' 0 8 8 8).
Proof.
  destruct (Display.radiate 10 half3 amber (F32.of_Z 1) one_red_voxel) as [st'|] eqn:Hrun.
  - exists st'. split; [reflexivity|].
    destruct (glow_only_brightens (Radiate 10 half3 amber (F32.of_Z 1)) one_red_voxel st'
                eq_refl wf_one_red_voxel Hrun) as [Hdim _].
    apply (Hdim 8 8 8). unfold in_lattice. lia.
  - vm_compute in Hrun. discriminate.
Defined.

(** X12. The order of two sphere calls in a frame does not matter:
    [radiate] and [radiate5] calls, in any combination, leave the same
    colour in every cell whichever runs first. *)
Theorem glow_order_irrelevant (d1 d2 : draw) (st a b : Display.t) :
  is_glow d1 = true -> is_glow d2 = true -> Display.wf st ->
  draw_all [d1; d2] st = Some a -> draw_all [d2; d1] st = Some b ->
  frame_inv st a /\ frame_inv st b /\
  forall x y z, in_lattice x y z ->
    Display.get a (Display.cubeBuffer st) x y z = Display.get b (Display.cubeBuffer st) x y z.
Proof.
  intros Hg1 Hg2 Hwf Ha Hb.
  pose proof (draw_all_frame _ _ _ Hwf Ha) as Hfa.
  pose proof (draw_all_frame _ _ _ Hwf Hb) as Hfb.
  split; [exact Hfa|]. split; [exact Hfb|].
  cbn [draw_all] in Ha, Hb.
  destruct (draw_one d1 st) as [s1|] eqn:H1; [|discriminate].
  destruct (draw_one d2 s1) as [s12|] eqn:H12; [|discriminate].
  destruct (draw_one d2 st) as [s2|] eqn:H2; [|discriminate].
  destruct (draw_one d1 s2) as [s21|] eqn:H21; [|discriminate].
  injection Ha as <-. injection Hb as <-.
  destruct (glow_cells d1 st s1 Hg1 Hwf H1) as ((Hwf1 & Hcb1 & _) & hit1 & g1 & Hget1).
  destruct (glow_cells d2 st s2 Hg2 Hwf H2) as ((Hwf2 & Hcb2 & _) & hit2 & g2 & Hget2).
  intros x y z Hin.
  pose proof (Hget2 s1 s12 Hwf1 H12 x y z Hin) as E12. rewrite Hcb1 in E12.
  pose proof (Hget1 s2 s21 Hwf2 H21 x y z Hin) as E21. rewrite Hcb2 in E21.
  rewrite E12, E21, (Hget1 st s1 Hwf H1 x y z Hin), (Hget2 st s2 Hwf H2 x y z Hin).
  destruct (hit1 _), (hit2 _); try reflexivity. apply maximize_swap.
Qed.

Lemma glow_order_irrelevant_witness :
  exists a b,
    draw_all [Radiate 10 half3 amber (F32.of_Z 1); Radiate5 10 origin red (F32.of_Z 1)]
      Display.initial = Some a /\
    draw_all [Radiate5 10 origin red (F32.of_Z 1); Radiate 10 half3 amber (F32.of_Z 1)]
      Display.initial = Some b /\
    Display.get a 0 8 8 8 = Display.get b 0 8 8 8.
Proof.
  destruct (draw_all [Radiate 10 half3 amber (F32.of_Z 1); Radiate5 10 origin red (F32.of_Z 1)]
              Display.initial) as [a|] eqn:Ha; [|vm_compute in Ha; discriminate].
  destruct (draw_all [Radiate5 10 origin red (F32.of_Z 1); Radiate 10 half3 amber (F32.of_Z 1)]
              Display.initial) as [b|] eqn:Hb; [|vm_compute in Hb; discriminate].
  exists a, b. split; [reflexivity|]. split; [reflexivity|].
  destruct (glow_order_irrelevant (Radiate 10 half3 amber (F32.of_Z 1))
              (Radiate5 10 origin red (F32.of_Z 1)) Display.initial a b
              eq_refl eq_refl wf_initial Ha Hb) as (_ & _ & Heq).
  apply (Heq 8 8 8). unfold in_lattice. lia.
Defined.


(** ** A radius that is not positive *)

Lemma binary_round_aux_sign s m e l :
  match binary_round_aux F32.prec F32.emax s m e l with
  | S754_zero s' | S754_infinity s' | S754_finite s' _ _ => s' = s
  | S754_nan => True
  end.
Proof.
  unfold binary_round_aux.
  destruct (shr_fexp _ _ _ _ _) as [mrs' e'].
  destruct (shr_fexp _ _ _ _ _) as [mrs'' e''].
  destruct (shr_m mrs''); [done| |done]. by destruct (_ <=? _).
Qed.

(** A square root is never below zero. *)
Lemma sqrt_lt_positive x r :
  F32.ltb (F32.sqrt x) r = true -> F32.ltb (S754_zero false) r = true.
Proof.
  unfold F32.ltb, F32.sqrt, SFsqrt.
  destruct x as [s|s| |s m e].
  - destruct r as [s'|s'| |s' m' e']; cbn; try done.
  - destruct s; destruct r as [s'|s'| |s' m' e']; cbn; try done; by destruct s'.
  - done.
  - destruct s; [done|].
    destruct (SFsqrt_core_binary _ _ _ _) as [[mz ez] lz].
    pose proof (binary_round_aux_sign false mz ez lz) as Hs.
    destruct (binary_round_aux _ _ _ _ _ _) as [s'|s'| |s' m' e']; try done; subst s';
      destruct r as [s''|s''| |s'' m'' e'']; cbn; try done; by destruct s''.
Qed.

Lemma sweep_pure_id falloff v c r st :
  F32.ltb (S754_zero false) r = false -> sweep_pure falloff v c r st = st.
Proof.
  intros Hr. unfold sweep_pure. destruct (box v r) as [[[[[x1 x2] y1] y2] z1] z2].
  apply (for_range_inv (fun t => t = st)); [done|]. intros x t _ ->.
  apply (for_range_inv (fun t => t = st)); [done|]. intros y t _ ->.
  apply (for_range_inv (fun t => t = st)); [done|]. intros z t _ ->.
  unfold radiate_cell. destruct (in_volume x y z); [|done].
  destruct (F32.ltb (distance v x y z) r) eqn:Hlt; [|done].
  apply sqrt_lt_positive in Hlt. congruence.
Qed.

(** X13. With a radius that is not above zero (zero, negative, minus
    infinity or NaN) [radiate] and [radiate5] change nothing: whenever
    they return, the volume is as it was, and they do return when the
    box bounds stay below 32767 and the fuel covers the box. *)
Theorem glow_needs_positive_radius (fuel : nat) (v0 : Vector3.t) (c : Color.t)
    (r : F32.f32) (st : Display.t) :
  F32.ltb (S754_zero false) r = false ->
  (forall st', Display.radiate fuel v0 c r st = Some st' -> st' = st) /\
  (forall st', Display.radiate5 fuel v0 c r st = Some st' -> st' = st) /\
  (enough_fuel (Display.box (Vector3.add v0 (Vector3.mk Display.CX Display.CY Display.CZ)) r)
               fuel ->
   Display.radiate fuel v0 c r st = Some st /\ Display.radiate5 fuel v0 c r st = Some st).
Proof.
  intros Hr. split_and!.
  - intros st' Hrun. apply sweep_Some in Hrun. rewrite Hrun. by apply sweep_pure_id.
  - intros st' Hrun. apply sweep_Some in Hrun. rewrite Hrun. by apply sweep_pure_id.
  - intros Hfuel. unfold radiate, radiate5. rewrite !sweep_total by exact Hfuel.
    by rewrite !sweep_pure_id.
Qed.

Lemma glow_needs_positive_radius_witness :
  Display.radiate 10 origin red (F32.of_Z 0) one_red_voxel = Some one_red_voxel /\
  Display.radiate5 10 origin red (F32.of_Z (-3)) one_red_voxel = Some one_red_voxel.
Proof.
  split.
  - destruct (glow_needs_positive_radius 10 origin red (F32.of_Z 0) one_red_voxel eq_refl)
      as (_ & _ & Hrun).
    apply Hrun. vm_compute. repeat split; lia.
  - destruct (glow_needs_positive_radius 10 origin red (F32.of_Z (-3)) one_red_voxel eq_refl)
      as (_ & _ & Hrun).
    apply Hrun. vm_compute. repeat split; lia.
Defined.

End DisplayCalls.

(** ** Lines *)

Section GraphicsLine.
Import Display.

Lemma voxel_v_paints v c st u :
  frame_inv st u ->
  (forall x y z, in_lattice x y z ->
     get u (cubeBuffer st) x y z = c \/
     get u (cubeBuffer st) x y z = get st (cubeBuffer st) x y z) ->
  frame_inv st (voxel_v v c u) /\
  (forall x y z, in_lattice x y z ->
     get (voxel_v v c u) (cubeBuffer st) x y z = c \/
     get (voxel_v v c u) (cubeBuffer st) x y z = get st (cubeBuffer st) x y z).
Proof.
  intros Hinv Hcells. pose proof Hinv as (Hwf & Hcb & _).
  assert (cubeBuffer st = 0 \/ cubeBuffer st = 1) as Hb by (destruct Hwf as (Hb & _); lia).
  unfold voxel_v.
  destruct (in_volume _ _ _) eqn:Hvol; [|done].
  apply lattice_in_volume in Hvol; [|apply wrap_s16_range..].
  split; [by apply frame_inv_set|].
  intros x y z Hin. rewrite Hcb.
  destruct (decide ((x, y, z) = (lattice (Vector3.x v) CX, lattice (Vector3.y v) CY,
                                 lattice (Vector3.z v) CZ))) as [Heq|Hne].
  - injection Heq as -> -> ->. left. by apply get_set_eq.
  - rewrite get_set_ne; [by apply Hcells|done..|congruence].
Qed.

Lemma sub_self x : is_number x = true -> F32.sub x x = S754_zero false.
Proof.
  destruct x as [[]|s| |s m e]; try done. intros _.
  unfold F32.sub, SFsub. cbv zeta. by rewrite Z.sub_diag.
Qed.

Lemma sub_zero x : is_number x = true -> F32.sub x (S754_zero false) = x.
Proof. by destruct x as [[]|s| |s m e]. Qed.

(** X14. [Graphics::line] writes nothing but [c], and only into cells
    of the current write buffer: every cell of the lattice either holds
    [c] afterwards or is as it was, and the other buffer, the selector,
    the raw frame and the blur setting are untouched. A line whose two
    end points are the same point (with coordinates that are numbers)
    is the single voxel that [voxel] draws there. *)
Theorem line_paints (x1 y1 z1 x2 y2 z2 : F32.f32) (c : Color.t) (st : Display.t) :
  Display.wf st ->
  frame_inv st (Graphics.line x1 y1 z1 x2 y2 z2 c st) /\
  (forall x y z, in_lattice x y z ->
     Display.get (Graphics.line x1 y1 z1 x2 y2 z2 c st) (Display.cubeBuffer st) x y z = c \/
     Display.get (Graphics.line x1 y1 z1 x2 y2 z2 c st) (Display.cubeBuffer st) x y z
       = Display.get st (Display.cubeBuffer st) x y z) /\
  (is_number x1 = true -> is_number y1 = true -> is_number z1 = true ->
   Graphics.line x1 y1 z1 x1 y1 z1 c st = Display.voxel_v (Vector3.mk x1 y1 z1) c st).
Proof.
  intros Hwf. split_and!.
  - unfold Graphics.line. cbv zeta.
    apply (for_range_inv (fun u => frame_inv st u /\
             forall x y z, in_lattice x y z ->
               get u (cubeBuffer st) x y z = c \/
               get u (cubeBuffer st) x y z = get st (cubeBuffer st) x y z)).
    + split; [by apply frame_inv_refl|]. intros; by right.
    + intros i t _ [Hinv Hcells]. by apply voxel_v_paints.
  - unfold Graphics.line. cbv zeta.
    apply (for_range_inv (fun u => frame_inv st u /\
             forall x y z, in_lattice x y z ->
               get u (cubeBuffer st) x y z = c \/
               get u (cubeBuffer st) x y z = get st (cubeBuffer st) x y z)).
    + split; [by apply frame_inv_refl|]. intros; by right.
    + intros i t _ [Hinv Hcells]. by apply voxel_v_paints.
  - intros Hx Hy Hz. unfold Graphics.line. cbv zeta.
    assert (Vector3.sub (Vector3.mk x1 y1 z1) (Vector3.mk x1 y1 z1)
            = Vector3.mk (S754_zero false) (S754_zero false) (S754_zero false)) as ->.
    { unfold Vector3.sub. cbn [Vector3.x Vector3.y Vector3.z]. by rewrite !sub_self. }
    change (Graphics.steps _) with (F32.of_Z 1).
    change (F32.to_int32 (F32.of_Z 1) + 1) with 2.
    change (Graphics.vdiv _ _) with (Vector3.mk (S754_zero false) (S754_zero false)
                                       (S754_zero false)).
    rewrite (for_range_cons 0 2) by lia. rewrite (for_range_cons (0 + 1)) by lia.
    rewrite for_range_nil by lia.
    change (Graphics.vmul _ (F32.of_Z 0))
      with (Vector3.mk (S754_zero false) (S754_zero false) (S754_zero false)).
    change (Graphics.vmul _ (F32.of_Z (0 + 1)))
      with (Vector3.mk (S754_zero false) (S754_zero false) (S754_zero false)).
    unfold Vector3.sub. cbn [Vector3.x Vector3.y Vector3.z].
    rewrite !sub_zero by done.
    unfold voxel_v. cbn [Vector3.x Vector3.y Vector3.z].
    destruct (in_volume _ _ _); [|reflexivity].
    change (cubeBuffer (set st (cubeBuffer st) _ _ _ c)) with (cubeBuffer st).
    apply set_set_eq.
Qed.

Lemma line_paints_witness :
  Graphics.line (F32.of_Z 2) (F32.of_Z 0) (F32.of_Z 0) (F32.of_Z 2) (F32.of_Z 0) (F32.of_Z 0)
    red Display.initial
  = Display.voxel_v (Vector3.mk (F32.of_Z 2) (F32.of_Z 0) (F32.of_Z 0)) red Display.initial.
Proof.
  destruct (line_paints (F32.of_Z 2) (F32.of_Z 0) (F32.of_Z 0) (F32.of_Z 2) (F32.of_Z 0)
              (F32.of_Z 0) red Display.initial wf_initial) as (_ & _ & Hpoint).
  apply Hpoint; reflexivity.
Defined.

End GraphicsLine.

(** * Further properties of the clients and the renderer *)

Section ScrollerGlyphs.

(** X15. [match_char] always returns an index between 0 and 94. The
    printable characters from space to tilde map to their offset from
    the space (so different characters get different glyphs, and adding
    the space back returns the character); every other character maps
    to the glyph of the hash sign. *)
Theorem match_char_index (chr : Z) :
  0 <= Scroller.match_char chr <= 94 /\
  (32 <= chr <= 126 -> Scroller.match_char chr + 32 = chr) /\
  (chr < 32 \/ 126 < chr -> Scroller.match_char chr = Scroller.match_char 35) /\
  (forall chr', 32 <= chr <= 126 -> 32 <= chr' <= 126 ->
     Scroller.match_char chr = Scroller.match_char chr' -> chr = chr').
Proof.
  assert (forall c, 32 <= c <= 126 -> Scroller.match_char c = c - 32) as Hin.
  { intros c Hc. unfold Scroller.match_char.
    assert ((32 <=? c) && (c <=? 126) = true) as -> by lia.
    unfold Int.wrap_u16. apply Z.mod_small. lia. }
  assert (forall c, c < 32 \/ 126 < c -> Scroller.match_char c = 3) as Hout.
  { intros c Hc. unfold Scroller.match_char.
    assert ((32 <=? c) && (c <=? 126) = false) as -> by lia. reflexivity. }
  split; [|split; [|split]].
  - destruct (decide (32 <= chr <= 126)) as [Hc|Hc]; [rewrite Hin by done; lia|].
    rewrite Hout by lia. lia.
  - intros Hc. rewrite Hin by done. lia.
  - intros Hc. rewrite Hout by done. by rewrite Hin by lia.
  - intros chr' Hc Hc'. rewrite !Hin by done. lia.
Qed.

End ScrollerGlyphs.

Section RendererInput.
Import Renderer.

(** X16. [wasKeyPressed] reports the press of a key, not its being
    held: for a key code from 0 to 511 it answers whether the key is
    down now and was up at the previous query of that key, and records
    the current state for that key only, so a key held over two
    queries is reported once. For any other key code it answers false
    and changes nothing. *)
Theorem key_press_is_an_edge (key : Z) (down : bool) (r : Renderer.t) :
  Z.of_nat (length (Renderer.keyStates r)) = 512 ->
  (key < 0 \/ 512 <= key -> Renderer.wasKeyPressed key down r = (false, r)) /\
  (0 <= key < 512 ->
     (Renderer.wasKeyPressed key down r).1
       = down && negb (Renderer.keyStates r !!! Z.to_nat key) /\
     Renderer.keyStates (Renderer.wasKeyPressed key down r).2 !!! Z.to_nat key = down /\
     (forall k, 0 <= k < 512 -> k <> key ->
        Renderer.keyStates (Renderer.wasKeyPressed key down r).2 !!! Z.to_nat k
        = Renderer.keyStates r !!! Z.to_nat k) /\
     Z.of_nat (length (Renderer.keyStates (Renderer.wasKeyPressed key down r).2)) = 512 /\
     (Renderer.wasKeyPressed key true (Renderer.wasKeyPressed key down r).2).1 = negb down).
Proof.
  intros Hlen. split.
  - intros Hk. unfold wasKeyPressed.
    by assert ((key <? 0) || (512 <=? key) = true) as -> by lia.
  - intros Hk. unfold wasKeyPressed.
    assert ((key <? 0) || (512 <=? key) = false) as -> by lia.
    cbn [fst snd keyStates]. rewrite length_insert.
    rewrite list_lookup_total_insert_eq by lia.
    split_and!; try done.
    intros k Hk' Hne. apply list_lookup_total_insert_ne. lia.
Qed.

Lemma key_press_is_an_edge_witness :
  (Renderer.wasKeyPressed 32 true idle).1 = true /\
  (Renderer.wasKeyPressed 32 true (Renderer.wasKeyPressed 32 true idle).2).1 = false /\
  Renderer.wasKeyPressed 512 true idle = (false, idle).
Proof.
  assert (Z.of_nat (length (Renderer.keyStates idle)) = 512) as Hlen by reflexivity.
  destruct (key_press_is_an_edge 32 true idle Hlen) as [_ Hin].
  destruct (Hin ltac:(lia)) as (Hp & _ & _ & _ & Hheld).
  destruct (key_press_is_an_edge 512 true idle Hlen) as [Hout _].
  split; [rewrite Hp; reflexivity|]. split; [exact Hheld|]. apply Hout. lia.
Defined.

(** X17. The camera stays inside its limits. After [scrollCallback] the
    distance is never below 15 nor above 100, whatever the offset; a
    drag step of [handleInput] leaves the vertical angle neither above
    89 nor below -89; the first [handleInput] with the button down only
    records the cursor and moves nothing, and one with the button up
    only forgets the drag. *)
Theorem camera_stays_in_range (r : Renderer.t) (mouseX mouseY yoffset : Renderer.f64) :
  (F32.ltb (Renderer.cameraDistance (Renderer.scrollCallback yoffset r)) (F32.of_Z 15) = false /\
   F32.ltb (F32.of_Z 100) (Renderer.cameraDistance (Renderer.scrollCallback yoffset r)) = false) /\
  (Renderer.mousePressed r = true ->
   F32.ltb (F32.of_Z 89) (Renderer.cameraAngleX (Renderer.handleInput true mouseX mouseY r))
     = false /\
   F32.ltb (Renderer.cameraAngleX (Renderer.handleInput true mouseX mouseY r)) (F32.of_Z (-89))
     = false) /\
  (Renderer.mousePressed r = false ->
   Renderer.handleInput true mouseX mouseY r
   = Renderer.mk (Renderer.keyStates r) (Renderer.cameraAngleX r) (Renderer.cameraAngleY r)
       (Renderer.cameraDistance r) true mouseX mouseY) /\
  Renderer.handleInput false mouseX mouseY r
  = Renderer.mk (Renderer.keyStates r) (Renderer.cameraAngleX r) (Renderer.cameraAngleY r)
      (Renderer.cameraDistance r) false (Renderer.lastMouseX r) (Renderer.lastMouseY r).
Proof.
  split; [|split; [|split]].
  - unfold scrollCallback. cbn [cameraDistance]. unfold Libm.gtb.
    set (d := F32.sub _ _).
    destruct (F32.ltb d (F32.of_Z 15)) eqn:H1.
    + change (F32.ltb (F32.of_Z 100) (F32.of_Z 15)) with false. cbv iota. by split.
    + destruct (F32.ltb (F32.of_Z 100) d) eqn:H2; by split.
  - intros Hp. unfold handleInput. rewrite Hp. cbn [cameraAngleX]. unfold Libm.gtb.
    set (ax := F32.add (cameraAngleX r) _).
    destruct (F32.ltb (F32.of_Z 89) ax) eqn:H1.
    + change (F32.ltb (F32.of_Z 89) (F32.of_Z (-89))) with false. cbv iota. by split.
    + destruct (F32.ltb ax (F32.of_Z (-89))) eqn:H2; by split.
  - intros Hp. unfold handleInput. by rewrite Hp.
  - reflexivity.
Qed.

End RendererInput.

Section RendererDraw.
Import Renderer.

Lemma length_loop {A : Type} (body : Z -> list A -> list A) (g : Z -> Z) lo n out :
  (forall i o, lo <= i < lo + n ->
     Z.of_nat (length (body i o)) = Z.of_nat (length o) + g i) ->
  Z.of_nat (length (for_range lo n body out))
  = Z.of_nat (length out) + sum_range lo n g.
Proof.
  intros Hbody. destruct (Z_lt_le_dec n 0) as [Hn|Hn].
  - rewrite for_range_nil, sum_range_nil by lia. lia.
  - apply (for_range_ind (fun k o =>
             Z.of_nat (length o) = Z.of_nat (length out) + sum_range lo k g)); [done| |].
    + rewrite sum_range_nil by lia. lia.
    + intros k o Hk Ho. rewrite Hbody by lia. rewrite sum_range_snoc by lia. lia.
Qed.

(** At full brightness a channel is below [0.01f] exactly when its
    byte is below 3. *)
Lemma channel_threshold byte :
  0 <= byte < 256 ->
  F32.ltb (channel byte (F32.of_Z 1)) c0_01 = (byte <? 3).
Proof.
  intros Hb.
  assert (forallb (fun k => Bool.eqb (F32.ltb (channel k (F32.of_Z 1)) c0_01) (k <? 3))
            (seqZ 0 256) = true) as Hall by (vm_compute; reflexivity).
  pose proof (forallb_seqZ _ 0 256 Hall byte ltac:(lia)) as H.
  by apply Bool.eqb_prop in H.
Qed.

(** X18. At full brightness [renderCube] draws a voxel for exactly the
    cells of the raw frame with a channel of 3 or more: a cell whose
    three bytes are all 0, 1 or 2 is skipped, and the number of
    [drawVoxel] calls is the number of cells that are not. *)
Theorem render_skips_dim_voxels (cube : list Z) :
  (forall i, (i < Display.nbytes)%nat -> 0 <= cube !!! i < 256) ->
  (forall x y z out, in_lattice x y z ->
     render_cell cube (F32.of_Z 1) x y z out =
     if bright cube x y z
     then out ++ [mk_point (F32.sub (F32.of_Z x) offset) (F32.sub (F32.of_Z y) offset)
                           (F32.sub (F32.of_Z z) offset)
                           (channel (cube !!! (Display.index x y z * 3)%nat) (F32.of_Z 1))
                           (channel (cube !!! (Display.index x y z * 3 + 1)%nat) (F32.of_Z 1))
                           (channel (cube !!! (Display.index x y z * 3 + 2)%nat) (F32.of_Z 1))
                           voxelSize]
     else out) /\
  Z.of_nat (length (renderCube cube (F32.of_Z 1)))
  = sum_range 0 16 (fun x => sum_range 0 16 (fun y => sum_range 0 16 (fun z =>
      if bright cube x y z then 1 else 0))).
Proof.
  intros Hbytes.
  assert (forall x y z, in_lattice x y z ->
            dim (channel (cube !!! (Display.index x y z * 3)%nat) (F32.of_Z 1))
                (channel (cube !!! (Display.index x y z * 3 + 1)%nat) (F32.of_Z 1))
                (channel (cube !!! (Display.index x y z * 3 + 2)%nat) (F32.of_Z 1))
            = negb (bright cube x y z)) as Hdim.
  { intros x y z Hin. pose proof (index_lt x y z Hin) as Hlt. unfold Display.ncells in Hlt.
    unfold dim, bright.
    rewrite !channel_threshold by (apply Hbytes; unfold Display.nbytes; lia).
    rewrite !negb_orb. f_equal; [f_equal|]; lia. }
  assert (forall x y z out, in_lattice x y z ->
     render_cell cube (F32.of_Z 1) x y z out =
     if bright cube x y z
     then out ++ [mk_point (F32.sub (F32.of_Z x) offset) (F32.sub (F32.of_Z y) offset)
                           (F32.sub (F32.of_Z z) offset)
                           (channel (cube !!! (Display.index x y z * 3)%nat) (F32.of_Z 1))
                           (channel (cube !!! (Display.index x y z * 3 + 1)%nat) (F32.of_Z 1))
                           (channel (cube !!! (Display.index x y z * 3 + 2)%nat) (F32.of_Z 1))
                           voxelSize]
     else out) as Hcell.
  { intros x y z out Hin. unfold render_cell. cbv zeta. rewrite (Hdim x y z Hin).
    destruct (bright cube x y z); [|reflexivity]. cbn [negb].
    assert (forall k, 0 <= k < 16 ->
              F32.mul (F32.sub (F32.of_Z k) offset) spacing = F32.sub (F32.of_Z k) offset) as Hm.
    { intros k Hk.
      assert (forallb (fun k => match SFcompare
                                  (F32.mul (F32.sub (F32.of_Z k) offset) spacing)
                                  (F32.sub (F32.of_Z k) offset) with
                                | Some Eq => true | _ => false end) (seqZ 0 16) = true) as Hall
        by (vm_compute; reflexivity).
      pose proof (forallb_seqZ _ 0 16 Hall k ltac:(lia)) as H. cbv beta in H.
      assert (k = 0 \/ k = 1 \/ k = 2 \/ k = 3 \/ k = 4 \/ k = 5 \/ k = 6 \/ k = 7 \/
              k = 8 \/ k = 9 \/ k = 10 \/ k = 11 \/ k = 12 \/ k = 13 \/ k = 14 \/ k = 15)
        as Hc by lia.
      repeat (destruct Hc as [->|Hc]; [vm_compute; reflexivity|]). subst k.
      vm_compute. reflexivity. }
    destruct Hin as (Hx & Hy & Hz). by rewrite !Hm by done. }
  split; [exact Hcell|].
  unfold renderCube. rewrite (length_loop _ (fun x => sum_range 0 16 (fun y =>
    sum_range 0 16 (fun z => if bright cube x y z then 1 else 0)))); [reflexivity|].
  intros x o Hx.
  apply (length_loop _ (fun y => sum_range 0 16 (fun z =>
    if bright cube x y z then 1 else 0))).
  intros y o' Hy.
  apply (length_loop _ (fun z => if bright cube x y z then 1 else 0)).
  intros z o'' Hz. rewrite Hcell by (unfold in_lattice; lia).
  destruct (bright cube x y z); [|lia]. rewrite length_app. cbn [length]. lia.
Qed.

Lemma render_skips_dim_voxels_witness :
  render_cell (replicate Display.nbytes 0) (F32.of_Z 1) 0 0 0 [] = [].
Proof.
  assert (forall i, (i < Display.nbytes)%nat ->
            0 <= replicate Display.nbytes 0 !!! i < 256) as Hbytes.
  { intros i Hi. rewrite lookup_total_replicate_2 by exact Hi. lia. }
  destruct (render_skips_dim_voxels (replicate Display.nbytes 0) Hbytes) as [Hcell _].
  rewrite Hcell by (unfold in_lattice; lia). reflexivity.
Defined.

End RendererDraw.

(** ** The population counter after a reseed *)

Section LifeSeed.
Import Life.

Lemma sum_range_add lo n f g :
  sum_range lo n (fun i => f i + g i) = sum_range lo n f + sum_range lo n g.
Proof.
  destruct (Z_lt_le_dec n 0) as [Hn|Hn]; [rewrite !sum_range_nil by lia; lia|].
  unfold sum_range at 1.
  apply (for_range_ind (fun k t => t = sum_range lo k f + sum_range lo k g)); [done| |].
  - rewrite !sum_range_nil by lia. lia.
  - intros k t Hk ->. rewrite !sum_range_snoc by lia. lia.
Qed.

Lemma sum_range_le lo n f g :
  (forall i, lo <= i < lo + n -> f i <= g i) -> sum_range lo n f <= sum_range lo n g.
Proof.
  intros H. destruct (Z_lt_le_dec n 0) as [Hn|Hn]; [rewrite !sum_range_nil by lia; lia|].
  unfold sum_range at 1.
  apply (for_range_ind (fun k t => t <= sum_range lo k g)); [done| |].
  - rewrite !sum_range_nil by lia. lia.
  - intros k t Hk Ht. rewrite !sum_range_snoc by lia. specialize (H (lo + k) ltac:(lia)). lia.
Qed.

Lemma sum_range_zero lo n : sum_range lo n (fun _ => 0) = 0.
Proof.
  destruct (Z_lt_le_dec n 0) as [Hn|Hn]; [by rewrite sum_range_nil by lia|].
  unfold sum_range. apply (for_range_ind (fun k t => t = 0)); [done|done|].
  intros k t _ ->. lia.
Qed.

Lemma sum_range_zero_ext lo n f :
  (forall i, lo <= i < lo + n -> f i = 0) -> sum_range lo n f = 0.
Proof.
  intros H. rewrite (sum_range_ext lo n f (fun _ => 0)) by exact H. apply sum_range_zero.
Qed.

Lemma sum_range_point lo n a c :
  0 <= c -> 0 <= sum_range lo n (fun i => if i =? a then c else 0) <= c.
Proof.
  intros Hc. destruct (Z_lt_le_dec n 0) as [Hn|Hn]; [rewrite sum_range_nil by lia; lia|].
  assert (forall k, 0 <= k <= n ->
            sum_range lo k (fun i => if i =? a then c else 0)
            = if (lo <=? a) && (a <? lo + k) then c else 0) as H.
  { intros k Hk. unfold sum_range.
    apply (for_range_ind (fun j t => t = if (lo <=? a) && (a <? lo + j) then c else 0));
      [lia| |].
    - by assert ((lo <=? a) && (a <? lo + 0) = false) as -> by lia.
    - intros j t Hj ->.
      destruct (Z.eqb_spec (lo + j) a) as [<-|Hne].
      + assert ((lo <=? lo + j) && (lo + j <? lo + j) = false) as -> by lia.
        by assert ((lo <=? lo + j) && (lo + j <? lo + (j + 1)) = true) as -> by lia.
      + rewrite Z.add_0_r.
        destruct (Z.leb_spec lo a), (Z.ltb_spec a (lo + j)), (Z.ltb_spec a (lo + (j + 1)));
          cbn [andb]; (reflexivity || lia). }
  rewrite H by lia. destruct (_ && _); lia.
Qed.

(** At most one cell of the lattice is a given point. *)
Lemma point_count p :
  sum_range 0 16 (fun x => sum_range 0 16 (fun y => sum_range 0 16 (fun z =>
    if same_point p x y z then 1 else 0))) <= 1.
Proof.
  destruct p as [[px py] pz]. unfold same_point. cbn [fst snd].
  set (cz := sum_range 0 16 (fun z => if z =? pz then 1 else 0)).
  assert (0 <= cz <= 1) as Hcz by (apply sum_range_point; lia).
  set (cy := sum_range 0 16 (fun y => if y =? py then cz else 0)).
  assert (0 <= cy <= cz) as Hcy by (apply sum_range_point; lia).
  assert (sum_range 0 16 (fun x => if x =? px then cy else 0) <= cy) as Hcx
    by (apply sum_range_point; lia).
  etransitivity; [|etransitivity; [exact Hcx|lia]].
  apply Z.eq_le_incl. apply sum_range_ext. intros x _.
  destruct (Z.eqb_spec x px) as [->|Hx].
  - rewrite Z.eqb_refl. unfold cy. apply sum_range_ext. intros y _.
    destruct (Z.eqb_spec y py) as [->|Hy].
    + rewrite Z.eqb_refl. unfold cz. apply sum_range_ext. intros z _.
      rewrite (Z.eqb_sym pz z). cbn [andb]. reflexivity.
    + assert ((py =? y) = false) as -> by lia. cbn [andb].
      apply sum_range_zero.
  - assert ((px =? x) = false) as -> by lia. cbn [andb].
    apply sum_range_zero_ext. intros y _. apply sum_range_zero.
Qed.

Lemma drawn_count sample k :
  0 <= k ->
  sum_range 0 16 (fun x => sum_range 0 16 (fun y => sum_range 0 16 (fun z =>
    if drawn sample k x y z then 1 else 0))) <= k.
Proof.
  intros Hk. revert k Hk. apply natlike_ind.
  - unfold drawn. cbn [seqZ existsb]. rewrite (seqZ_nil 0 0) by lia. cbn [existsb].
    apply Z.eq_le_incl.
    apply sum_range_zero_ext. intros x _. apply sum_range_zero_ext. intros y _.
    apply sum_range_zero.
  - intros k Hk IH. pose proof (point_count (sample k)) as Hp.
    etransitivity; [|apply (Z.add_le_mono _ _ _ _ IH Hp)].
    rewrite <- sum_range_add. apply sum_range_le. intros x _.
    rewrite <- sum_range_add. apply sum_range_le. intros y _.
    rewrite <- sum_range_add. apply sum_range_le. intros z _.
    unfold drawn. replace (Z.succ k) with (k + 1) by lia.
    rewrite seqZ_app by lia. rewrite existsb_app. rewrite Z.add_0_l.
    rewrite (seqZ_cons k 1) by lia. rewrite (seqZ_nil _ (Z.pred 1)) by lia. cbn [existsb].
    rewrite orb_false_r.
    destruct (existsb _ _), (same_point _ _ _ _); cbn [orb]; lia.
Qed.


Lemma drawn_spec sample k x y z :
  drawn sample k x y z = true <-> exists i, 0 <= i < k /\ sample i = (x, y, z).
Proof.
  unfold drawn. rewrite existsb_exists. split.
  - intros (i & Hi & Hs). apply list_elem_of_In, elem_of_seqZ in Hi.
    exists i. split; [lia|]. unfold same_point in Hs.
    destruct (sample i) as [[a b] c]. cbn [fst snd] in Hs.
    apply andb_true_iff in Hs as [Hs Hc]. apply andb_true_iff in Hs as [Ha Hb].
    apply Z.eqb_eq in Ha, Hb, Hc. by subst.
  - intros (i & Hi & Hs). exists i. split.
    + apply list_elem_of_In, elem_of_seqZ. lia.
    + rewrite Hs. unfold same_point. cbn [fst snd]. by rewrite !Z.eqb_refl.
Qed.

(** X19. [game_randomize] sets the population counter to the number of
    draws, not to the number of cells it made alive: a cell is alive
    exactly when one of the draws landed on it, so the real population
    is at most [living], and smaller as soon as two draws coincide or
    one falls outside the lattice. With every draw outside the lattice
    the grid is empty while [living] is [amount]. *)
Theorem randomize_counts_draws (amount : Z) (sample : Z -> Z * Z * Z) (st : Life.t) :
  Z.of_nat (length (Life.cells_g2 st)) = 256 -> 0 <= amount -> sample_u16 sample amount ->
  Life.living (Life.game_randomize amount sample st) = amount /\
  (forall x y z, in_lattice x y z ->
     alive (Life.cells_g2 (Life.game_randomize amount sample st)) x y z
     = drawn sample amount x y z) /\
  population (Life.cells_g2 (Life.game_randomize amount sample st)) <= amount /\
  ((forall i, 0 <= i < amount -> 16 <= (sample i).1.1) ->
   population (Life.cells_g2 (Life.game_randomize amount sample st)) = 0).
Proof.
  intros Hlen Ham Hs.
  destruct (game_randomize_spec amount sample st Hlen Ham Hs)
    as (_ & _ & _ & _ & _ & Hliving & _ & Hbits).
  assert (forall x y z, in_lattice x y z ->
            alive (cells_g2 (game_randomize amount sample st)) x y z
            = drawn sample amount x y z) as Hcells.
  { intros x y z Hin. rewrite alive_lattice by exact Hin.
    apply Bool.eq_iff_eq_true. rewrite (Hbits x y z Hin). symmetry. apply drawn_spec. }
  assert (population (cells_g2 (game_randomize amount sample st))
          = sum_range 0 16 (fun x => sum_range 0 16 (fun y => sum_range 0 16 (fun z =>
              if drawn sample amount x y z then 1 else 0)))) as Hpop.
  { unfold population. apply sum_range_ext. intros x Hx. apply sum_range_ext. intros y Hy.
    apply sum_range_ext. intros z Hz. by rewrite Hcells by (unfold in_lattice; lia). }
  split; [exact Hliving|]. split; [exact Hcells|]. split.
  - rewrite Hpop. by apply drawn_count.
  - intros Hout. rewrite Hpop.
    apply sum_range_zero_ext. intros x Hx. apply sum_range_zero_ext. intros y Hy.
    apply sum_range_zero_ext. intros z Hz.
    destruct (drawn sample amount x y z) eqn:Hd; [|reflexivity].
    apply drawn_spec in Hd as (i & Hi & Heq). specialize (Hout i Hi).
    rewrite Heq in Hout. cbn [fst snd] in Hout. lia.
Qed.

Lemma randomize_counts_draws_witness :
  Life.living (Life.game_randomize 25 (Life.sample centre_env) lonely_cell) = 25 /\
  population (Life.cells_g2 (Life.game_randomize 25 (Life.sample centre_env) lonely_cell)) <= 25.
Proof.
  assert (sample_u16 (Life.sample centre_env) 25) as Hs by (intros i _; simpl; lia).
  destruct (randomize_counts_draws 25 (Life.sample centre_env) lonely_cell eq_refl
              ltac:(lia) Hs) as (Hl & _ & Hp & _).
  split; [exact Hl|exact Hp].
Defined.

End LifeSeed.

(** ** C8: extinction reseeds with the next preset *)

Section LifeExtinction.
Import Life.





End LifeExtinction.

(** ** The Arduino helpers *)

Section ArduinoHelpers.



(** X21. [random(min, max)] with a non-negative [std::rand()] returns a
    value from [min] up to but not including [max]; with an empty range
    ([min >= max]) it returns [min] without drawing. [random(max)]
    returns a value from 0 up to but not including [max] for a positive
    [max], and divides by zero for [max = 0]. *)
Theorem random_in_range (rand lo hi : Z) :
  0 <= rand -> fits_long (hi - lo) ->
  (hi <= lo -> Arduino.random rand lo hi = Some lo) /\
  (lo < hi -> exists r, Arduino.random rand lo hi = Some r /\ lo <= r < hi) /\
  (0 < hi -> exists r, Arduino.random_max rand hi = Some r /\ 0 <= r < hi) /\
  Arduino.random_max rand 0 = None.
Proof.
  intros Hr _. unfold Arduino.random, Arduino.random_max. split_and!.
  - intros Hle. by assert ((hi <=? lo) = true) as -> by lia.
  - intros Hlt. assert ((hi <=? lo) = false) as -> by lia.
    assert ((hi - lo =? 0) = false) as -> by lia.
    eexists. split; [reflexivity|].
    pose proof (Z.rem_bound_pos rand (hi - lo) Hr ltac:(lia)). lia.
  - intros Hpos. assert ((hi =? 0) = false) as -> by lia.
    eexists. split; [reflexivity|]. apply Z.rem_bound_pos; lia.
  - reflexivity.
Qed.

Lemma random_in_range_witness :
  Arduino.random 12345 10 20 = Some 15 /\ Arduino.random 12345 20 10 = Some 20.
Proof.
  destruct (random_in_range 12345 20 10 ltac:(lia) ltac:(unfold fits_long; lia)) as (He & _).
  split; [reflexivity|]. apply He. lia.
Defined.

End ArduinoHelpers.

(** ** Calls inside the hash window *)

Section LifeWindow.
Import Life.

(** X22. Inside the hash window [game_progress] always returns and
    keeps the automaton well formed: from a well-formed state with at
    most 255 recorded hashes, and fuel for the scan, the call returns a
    well-formed state whose hash counter is 0 (after a reseed), as
    before (after a stagnation reset) or one more (after recording),
    hence at most 256. *)
Theorem progress_keeps_wf (fuel : nat) (e : Life.env) (st : Life.t) :
  Life.wf st -> 0 <= Life.rand e -> sample_u16 (Life.sample e) 400 ->
  Life.hash_nr st <= 255 -> (Z.to_nat (Life.hash_nr st) < fuel)%nat ->
  exists st',
    Life.game_progress fuel e st = Some st' /\ Life.wf st' /\
    (Life.hash_nr st' = 0 \/ Life.hash_nr st' = Life.hash_nr st \/
     Life.hash_nr st' = Life.hash_nr st + 1) /\
    Life.hash_nr st' <= 256.
Proof.
  intros Hwf Hrand Hs Hnr Hfuel.
  destruct (game_next_generation st) as [hash st1] eqn:Hgen.
  destruct (game_next_generation_eq st hash st1 Hwf Hgen)
    as (Hh & Hwf1 & _ & _ & Hl1 & Hn1 & Hs1).
  pose proof Hwf1 as (W1 & W2 & W3 & W4 & W5 & W6 & W7).
  destruct (decide (living st1 = 0)) as [Hdead|Halive].
  - destruct (game_progress_extinct fuel e st hash st1 Hwf Hrand Hs Hgen Hdead)
      as (st' & Hrun & Hwf' & _ & _ & _ & Hnr' & _).
    exists st'. split; [exact Hrun|]. split; [exact Hwf'|]. split; [by left|lia].
  - rewrite (game_progress_alive fuel e st hash st1 Hgen Halive).
    rewrite (scan_counts fuel st1 hash 0 0) by (rewrite ?Hn1; lia).
    rewrite Z.add_0_l. change (Z.to_nat 0) with 0%nat. rewrite drop_0.
    destruct ((6 <=? count_matches hash (recorded st1)) || (500 <=? living st1)).
    + pose proof (game_rule_reset_spec st1 W3) as Hreset.
      assert (wf (game_rule_reset st1)) as Hwfr.
      { rewrite Hreset. unfold wf.
        cbn [cells_g1 cells_g2 rules hash_list hash_nr living sequence].
        rewrite length_replicate. split_and!; lia. }
      destruct (game_next_generation (game_rule_reset st1)) as [h2 st2] eqn:Hgen2.
      destruct (game_next_generation_eq _ _ _ Hwfr Hgen2) as (_ & Hwf2 & _).
      destruct (settle_spec st1 h2 st2 Hwf1 Hgen2) as (_ & _ & _ & K4 & _).
      exists st2. cbn [snd]. split; [reflexivity|]. split; [exact Hwf2|].
      split; [right; left; lia|lia].
    + exists (record_hash hash st1). split; [reflexivity|].
      unfold record_hash. unfold wf.
      cbn [cells_g1 cells_g2 rules hash_list hash_nr living sequence].
      rewrite length_insert.
      assert (Int.wrap_u32 (hash_nr st1 + 1) = hash_nr st + 1) as ->.
      { unfold Int.wrap_u32. rewrite Hn1. apply Z.mod_small. lia. }
      split; [split_and!; lia|]. split; [right; right; reflexivity|lia].
Qed.

Lemma progress_keeps_wf_witness :
  exists st', Life.game_progress 1 centre_env lonely_cell = Some st' /\ Life.wf st'.
Proof.
  assert (Life.wf lonely_cell) as Hwf by (apply life_wfb_wf; vm_compute; reflexivity).
  assert (sample_u16 (Life.sample centre_env) 400) as Hs by (intros i _; simpl; lia).
  destruct (progress_keeps_wf 1 centre_env lonely_cell Hwf ltac:(simpl; lia) Hs)
    as (st' & Hrun & Hwf' & _).
  - cbn [Life.hash_nr lonely_cell]. lia.
  - cbn [Life.hash_nr lonely_cell]. lia.
  - exists st'. split; [exact Hrun|exact Hwf'].
Defined.

End LifeWindow.

(** ** The twinkles *)

Section TwinkelsDraw.
Import Display.

Lemma twinkels_init_spec tw :
  twinkels_wf tw -> twinkels_wf (Twinkels.init tw) /\ all_black (Twinkels.init tw).
Proof.
  intros [Hc Hd]. unfold Twinkels.init.
  set (P := fun (k : Z) (t : Twinkels.t) =>
    twinkels_wf t /\
    forall i, (Z.of_nat i < k) -> Twinkels.colors t !!! i = Color.BLACK).
  assert (P 4096 (for_range 0 16 (fun x => for_range 0 16 (fun y => for_range 0 16 (fun z t =>
            Twinkels.set_cell t (index x y z) Color.BLACK (F32.of_Z 0))))
            (Twinkels.mk (Twinkels.colors tw) (Twinkels.duration tw) (F32.of_Z 0)))) as [Hwf Hb].
  { rewrite (for_range_ext 0 16 _
      (fun x => for_range 0 256 (fun j t =>
         Twinkels.set_cell t (Z.to_nat (x * 256 + j)) Color.BLACK (F32.of_Z 0)))).
    2:{ intros x t Hx. change 256 with (16 * 16).
        apply for_range_fuse; [lia|lia|]. intros y z u Hy Hz. unfold index.
        by replace (x * (16 * 16) + (y * 16 + z)) with ((x * 16 + y) * 16 + z) by lia. }
    rewrite (for_range_fuse 16 256 _ (fun j t =>
      Twinkels.set_cell t (Z.to_nat j) Color.BLACK (F32.of_Z 0))) by (lia || done).
    change (16 * 256) with 4096.
    apply (for_range_ind P); [lia| |].
    - split; [by split|]. intros i Hi. lia.
    - intros k t Hk [[Hc' Hd'] Hb]. rewrite Z.add_0_l. unfold ncells in *.
      split; [split; cbn [Twinkels.set_cell Twinkels.colors Twinkels.duration];
              by rewrite length_insert|].
      intros i Hi. cbn [Twinkels.set_cell Twinkels.colors].
      destruct (decide (i = Z.to_nat k)) as [->|Hne].
      + apply list_lookup_total_insert_eq. lia.
      + rewrite list_lookup_total_insert_ne by done. apply Hb. lia. }
  split; [exact Hwf|]. intros i Hi. apply Hb. unfold ncells in Hi. lia.
Qed.


Lemma fade_cell_inv dt x y z tw d tw' d' :
  in_lattice x y z ->
  (twinkels_wf tw' /\
   (forall i, (i < ncells)%nat -> Twinkels.isBlack (Twinkels.colors tw !!! i) = true ->
      Twinkels.isBlack (Twinkels.colors tw' !!! i) = true) /\
   frame_inv d d' /\
   (forall a b c, in_lattice a b c ->
      Twinkels.isBlack (Twinkels.colors tw !!! index a b c) = true ->
      get d' (cubeBuffer d) a b c = get d (cubeBuffer d) a b c) /\
   (all_black tw -> d' = d)) ->
  let s := Twinkels.fade_cell dt x y z (tw', d') in
  twinkels_wf s.1 /\
  (forall i, (i < ncells)%nat -> Twinkels.isBlack (Twinkels.colors tw !!! i) = true ->
     Twinkels.isBlack (Twinkels.colors s.1 !!! i) = true) /\
  frame_inv d s.2 /\
  (forall a b c, in_lattice a b c ->
     Twinkels.isBlack (Twinkels.colors tw !!! index a b c) = true ->
     get s.2 (cubeBuffer d) a b c = get d (cubeBuffer d) a b c) /\
  (all_black tw -> s.2 = d).
Proof.
  intros Hin ([Hc Hd] & Hblack & Hinv & Hcells & Hall). cbv zeta.
  pose proof (index_lt x y z Hin) as Hlt.
  pose proof Hinv as (Hwf' & Hcb & _).
  assert (cubeBuffer d = 0 \/ cubeBuffer d = 1) as Hb.
  { destruct Hwf' as (Hb & _). rewrite Hcb in Hb. exact Hb. }
  unfold Twinkels.fade_cell.
  destruct (Twinkels.isBlack (Twinkels.colors tw' !!! index x y z)) eqn:Hcur; cbn [negb].
  { cbn [fst snd]. split; [by split|]. split; [exact Hblack|]. split; [exact Hinv|].
    split; [exact Hcells|exact Hall]. }
  assert (Twinkels.isBlack (Twinkels.colors tw !!! index x y z) = false) as Horig.
  { destruct (Twinkels.isBlack (Twinkels.colors tw !!! index x y z)) eqn:E; [|done].
    rewrite (Hblack _ Hlt E) in Hcur. done. }
  assert (forall col,
    frame_inv d (voxel x y z col d') /\
    (forall a b c, in_lattice a b c ->
       Twinkels.isBlack (Twinkels.colors tw !!! index a b c) = true ->
       get (voxel x y z col d') (cubeBuffer d) a b c = get d (cubeBuffer d) a b c)) as Hvox.
  { intros col. destruct Hin as (Hx & Hy & Hz).
    rewrite voxel_eq by (unfold Int.is_u8; lia).
    assert ((x <? 16) && (y <? 16) && (z <? 16) = true) as -> by lia.
    split; [by apply frame_inv_set|].
    intros a b c Habc Hbl. rewrite Hcb.
    rewrite get_set_ne; [by apply Hcells|done|lia|lia|unfold in_lattice; lia|done|].
    intros Heq. injection Heq as -> -> ->. rewrite Hbl in Horig. done. }
  assert (all_black tw -> False) as Hno.
  { intros Hab. specialize (Hab _ Hlt). rewrite Hab in Horig. done. }
  destruct (F32.ltb _ Twinkels.fade_in_speed).
  - unfold twinkels_wf.
    cbn [fst snd Twinkels.set_duration Twinkels.colors Twinkels.duration].
    rewrite ?length_insert.
    destruct (Hvox (Color.scaled (Twinkels.colors tw' !!! index x y z)
       (F32.to_uint8 (F32.mul (F32.of_Z 255)
          (F32.div (Twinkels.duration tw' !!! index x y z) Twinkels.fade_in_speed)))))
      as [Hf Hg].
    split; [by split|].
    split; [exact Hblack|]. split; [exact Hf|]. split; [exact Hg|].
    intros Hab. by destruct (Hno Hab).
  - destruct (F32.ltb _ _).
    + unfold twinkels_wf.
      cbn [fst snd Twinkels.set_duration Twinkels.colors Twinkels.duration].
      rewrite ?length_insert.
      destruct (Hvox (Color.scaled (Twinkels.colors tw' !!! index x y z)
         (F32.to_uint8 (F32.mul (F32.of_Z 255) (F32.sub (F32.of_Z 1)
            (F32.div (F32.sub (Twinkels.duration tw' !!! index x y z) Twinkels.fade_in_speed)
               Twinkels.fade_out_speed)))))) as [Hf Hg].
      split; [by split|].
      split; [exact Hblack|]. split; [exact Hf|]. split; [exact Hg|].
      intros Hab. by destruct (Hno Hab).
    + unfold twinkels_wf.
      cbn [fst snd Twinkels.set_cell Twinkels.colors Twinkels.duration].
      rewrite ?length_insert.
      split; [by split|].
      split; [|split; [exact Hinv|split; [exact Hcells|exact Hall]]].
      intros i Hi Hbl. destruct (decide (i = index x y z)) as [->|Hne].
      * rewrite list_lookup_total_insert_eq by lia. reflexivity.
      * rewrite list_lookup_total_insert_ne by done. by apply Hblack.
Qed.


Lemma twinkels_update_spec dt r1 r2 r3 fresh tw d tw' d' :
  twinkels_wf tw -> wf d ->
  Twinkels.update dt r1 r2 r3 fresh (tw, d) = (tw', d') ->
  twinkels_wf tw' /\ frame_inv d d' /\
  (forall x y z, in_lattice x y z ->
     Twinkels.isBlack (Twinkels.colors tw !!! index x y z) = true ->
     get d' (cubeBuffer d) x y z = get d (cubeBuffer d) x y z) /\
  (all_black tw -> d' = d).
Proof.
  intros Htw Hwf Hrun. unfold Twinkels.update in Hrun.
  set (tw0 := Twinkels.mk (Twinkels.colors tw) (Twinkels.duration tw)
                (F32.add (Twinkels.timer tw) dt)) in Hrun.
  set (J := fun s : Twinkels.t * Display.t =>
    twinkels_wf s.1 /\
    (forall i, (i < ncells)%nat -> Twinkels.isBlack (Twinkels.colors tw !!! i) = true ->
       Twinkels.isBlack (Twinkels.colors s.1 !!! i) = true) /\
    frame_inv d s.2 /\
    (forall a b c, in_lattice a b c ->
       Twinkels.isBlack (Twinkels.colors tw !!! index a b c) = true ->
       get s.2 (cubeBuffer d) a b c = get d (cubeBuffer d) a b c) /\
    (all_black tw -> s.2 = d)).
  assert (J (for_range 0 16 (fun x => for_range 0 16 (fun y => for_range 0 16 (fun z =>
               Twinkels.fade_cell dt x y z))) (tw0, d))) as HJ.
  { apply (for_range_inv J).
    - unfold J. cbn [fst snd]. split; [exact Htw|]. split; [by intros|].
      split; [by apply frame_inv_refl|]. split; by intros.
    - intros x s Hx Hs. apply (for_range_inv J); [exact Hs|]. intros y s' Hy Hs'.
      apply (for_range_inv J); [exact Hs'|]. intros z [tw2 d2] Hz Hs2.
      apply (fade_cell_inv dt x y z tw d tw2 d2); [unfold in_lattice; lia|exact Hs2]. }
  destruct (for_range 0 16 _ (tw0, d)) as [tw1 d1].
  destruct HJ as ([Hc Hd] & _ & Hinv & Hcells & Hall). cbn [fst snd] in *.
  assert (d' = d1) as ->.
  { destruct (Libm.leb _ _); [destruct (SFeqb _ _)|]; by injection Hrun as _ <-. }
  split; [|split; [exact Hinv|split; [exact Hcells|exact Hall]]].
  destruct (Libm.leb _ _); [destruct (SFeqb _ _)|]; injection Hrun as <-;
    unfold twinkels_wf; cbn [Twinkels.colors Twinkels.duration]; rewrite ?length_insert;
    by split.
Qed.

(** X23. [TwinkelsDemo::update] draws only the twinkles that are
    running: a cell whose stored colour is black is not written, and
    nothing outside the write buffer changes. After [init] no twinkle is
    running, so the first [update] leaves the volume exactly as it was,
    whatever the time step and the random draws. *)
Theorem twinkels_draw_running_cells (dt : F32.f32) (r1 r2 r3 : Z) (fresh : Color.t)
    (tw tw' : Twinkels.t) (d d' : Display.t) :
  twinkels_wf tw -> Display.wf d ->
  (Twinkels.update dt r1 r2 r3 fresh (tw, d) = (tw', d') ->
     twinkels_wf tw' /\ frame_inv d d' /\
     forall x y z, in_lattice x y z ->
       Twinkels.isBlack (Twinkels.colors tw !!! Display.index x y z) = true ->
       Display.get d' (Display.cubeBuffer d) x y z = Display.get d (Display.cubeBuffer d) x y z) /\
  (Twinkels.update dt r1 r2 r3 fresh (Twinkels.init tw, d) = (tw', d') -> d' = d).
Proof.
  intros Htw Hwf. split.
  - intros Hrun.
    destruct (twinkels_update_spec dt r1 r2 r3 fresh tw d tw' d' Htw Hwf Hrun)
      as (H1 & H2 & H3 & _).
    split; [exact H1|]. split; [exact H2|exact H3].
  - intros Hrun. destruct (twinkels_init_spec tw Htw) as [Hwi Hbl].
    destruct (twinkels_update_spec dt r1 r2 r3 fresh _ d tw' d' Hwi Hwf Hrun)
      as (_ & _ & _ & Hall).
    by apply Hall.
Qed.

Lemma twinkels_draw_running_cells_witness :
  (Twinkels.update (F32.of_Z 1) 3 4 5 red
     (Twinkels.init (Twinkels.mk (replicate Display.ncells red)
                       (replicate Display.ncells (F32.of_Z 1)) (F32.of_Z 0)),
      one_red_voxel)).2 = one_red_voxel.
Proof.
  assert (twinkels_wf (Twinkels.mk (replicate Display.ncells red)
                         (replicate Display.ncells (F32.of_Z 1)) (F32.of_Z 0))) as Htw.
  { split; apply length_replicate. }
  destruct (twinkels_draw_running_cells (F32.of_Z 1) 3 4 5 red
              (Twinkels.mk (replicate Display.ncells red)
                 (replicate Display.ncells (F32.of_Z 1)) (F32.of_Z 0))
              (Twinkels.update (F32.of_Z 1) 3 4 5 red
                 (Twinkels.init (Twinkels.mk (replicate Display.ncells red)
                                   (replicate Display.ncells (F32.of_Z 1)) (F32.of_Z 0)),
                  one_red_voxel)).1
              one_red_voxel
              (Twinkels.update (F32.of_Z 1) 3 4 5 red
                 (Twinkels.init (Twinkels.mk (replicate Display.ncells red)
                                   (replicate Display.ncells (F32.of_Z 1)) (F32.of_Z 0)),
                  one_red_voxel)).2
              Htw wf_one_red_voxel) as [_ Hinit].
  apply Hinit. apply surjective_pairing.
Defined.

End TwinkelsDraw.
